(** * handwrite: the page-processing pipeline of [handwriting_processor/main.py]

    A shallow embedding of the command-line tool that turns handwritten
    PDF/image notes into Markdown, and the properties of its configuration
    handling, page dispatch, rendering and exit status.

    Python strings are sequences of Unicode code points ([pystr]); the file
    system, the log stream and the exit status are explicit; the libraries the
    program calls (the OCR client, the PDF and image decoders, the template
    engine, the YAML codec, the thread pool) are an environment record whose
    fields say what each call answers. *)

From Stdlib Require Import String Ascii.
From stdpp Require Import gmap list pretty.

Open Scope list_scope.
Local Set Warnings "-register-all,-abstract-large-number".

(** ** Python strings *)

(** A [str] is a sequence of code points. *)
Abbreviation pystr := (list N).

(** A source literal, as the code points of its characters. *)
Definition u (s : string) : pystr :=
  map N_of_ascii (list_ascii_of_string s).

(** [sep.join(parts)] *)
Fixpoint str_join (sep : pystr) (parts : list pystr) : pystr :=
  match parts with
  | [] => []
  | [p] => p
  | p :: rest => p ++ sep ++ str_join sep rest
  end.

(** [str.isspace] of one code point: the code points CPython's
    [_PyUnicode_IsWhitespace] accepts. *)
Definition is_space (c : N) : bool :=
  (((9 <=? c) && (c <=? 13)) || ((28 <=? c) && (c <=? 32))
   || (c =? 133) || (c =? 160) || (c =? 5760)
   || ((8192 <=? c) && (c <=? 8202))
   || (c =? 8232) || (c =? 8233) || (c =? 8239) || (c =? 8287)
   || (c =? 12288))%N.

(** [s.lstrip()], [s.rstrip()], [s.strip()] without arguments. *)
Fixpoint lstrip (s : pystr) : pystr :=
  match s with
  | c :: s' => if is_space c then lstrip s' else s
  | [] => []
  end.

Definition rstrip (s : pystr) : pystr := rev (lstrip (rev s)).

Definition strip (s : pystr) : pystr := rstrip (lstrip s).

(** [s.startswith(p)] and [s.endswith(p)] *)
Fixpoint startswith (p s : pystr) : bool :=
  match p, s with
  | [], _ => true
  | a :: p', b :: s' => (a =? b)%N && startswith p' s'
  | _ :: _, [] => false
  end.

Definition endswith (p s : pystr) : bool := startswith (rev p) (rev s).

(** [s.lower()] of a string of ASCII code points: the letters A-Z are
    lowered and every other code point is kept. What [s.lower()] is for a
    string with a code point outside ASCII is in the Unicode tables of the
    interpreter: see [str_lower] and [lower] below. *)
Definition lower_char (c : N) : N :=
  (if (65 <=? c) && (c <=? 90) then c + 32 else c)%N.

Definition ascii_lower (s : pystr) : pystr := map lower_char s.

Definition is_ascii (s : pystr) : bool := forallb (fun c => c <? 128)%N s.

(** [str(n)] of a natural number *)
Definition str_of_nat (n : nat) : pystr := u (pretty n).

(** ** Python values and exceptions *)

(** What [yaml.safe_load] can return, and what a template context holds.
    A mapping is kept as the list of its items, keys being strings. *)
Inductive pyval :=
| VNone
| VBool (b : bool)
| VInt (z : Z)
| VStr (s : pystr)
| VList (items : list pyval)
| VDict (items : list (pystr * pyval)).

(** Subclasses of [Exception]. [SystemExit] is not one of them: it is the
    [Exit] outcome below. *)
Inductive exn :=
| KeyError (key : pystr)
| TypeError (msg : pystr)
| AttributeError (msg : pystr)
| ValueError (msg : pystr)
| IndexError (msg : pystr)
| OSError (msg : pystr)
| FileExistsError (msg : pystr)
| LibraryError (msg : pystr).

(** [str(e)] *)
Definition exn_str (e : exn) : pystr :=
  match e with
  | KeyError k => u "'" ++ k ++ u "'"
  | TypeError m | AttributeError m | ValueError m | IndexError m
  | OSError m | FileExistsError m | LibraryError m => m
  end.

(** [FileExistsError] is a subclass of [OSError]. *)
Definition is_os_error (e : exn) : bool :=
  match e with
  | OSError _ | FileExistsError _ => true
  | _ => false
  end.

(** The errors of the operating system for a path, with the text Python
    gives them: [[Errno 2] No such file or directory: 'path'] and the like
    (the path is quoted as [repr] quotes a string without quotes,
    backslashes or unprintable characters). *)
Definition os_error_msg (errno : nat) (strerror path : pystr) : pystr :=
  u "[Errno " ++ str_of_nat errno ++ u "] " ++ strerror
  ++ u ": '" ++ path ++ u "'".

Definition ENOENT (path : pystr) : exn :=
  OSError (os_error_msg 2 (u "No such file or directory") path).
Definition EEXIST (path : pystr) : exn :=
  FileExistsError (os_error_msg 17 (u "File exists") path).
Definition ENOTDIR (path : pystr) : exn :=
  OSError (os_error_msg 20 (u "Not a directory") path).
Definition EISDIR (path : pystr) : exn :=
  OSError (os_error_msg 21 (u "Is a directory") path).

Fixpoint dict_get (k : pystr) (d : list (pystr * pyval)) : option pyval :=
  match d with
  | [] => None
  | (k', v) :: d' => if decide (k' = k) then Some v else dict_get k d'
  end.

(** [v[key]] for a string key *)
Definition getitem (v : pyval) (key : pystr) : exn + pyval :=
  match v with
  | VDict d =>
      match dict_get key d with
      | Some x => inr x
      | None => inl (KeyError key)
      end
  | VStr _ => inl (TypeError (u "string indices must be integers"))
  | VList _ => inl (TypeError (u "list indices must be integers or slices, not str"))
  | _ => inl (TypeError (u "object is not subscriptable"))
  end.

(** [sub in s] for strings *)
Fixpoint is_substring (sub s : pystr) : bool :=
  startswith sub s ||
  match s with
  | [] => false
  | _ :: s' => is_substring sub s'
  end.

Definition pyval_is_str (k : pystr) (v : pyval) : bool :=
  match v with
  | VStr s => bool_decide (s = k)
  | _ => false
  end.

(** [key in v] for a string key *)
Definition contains (v : pyval) (key : pystr) : exn + bool :=
  match v with
  | VDict d => inr (bool_decide (is_Some (dict_get key d)))
  | VStr s => inr (is_substring key s)
  | VList l => inr (existsb (pyval_is_str key) l)
  | _ => inl (TypeError (u "argument is not iterable"))
  end.

(** [v.get(key, default)] *)
Definition get_default (v : pyval) (key : pystr) (dflt : pyval) : exn + pyval :=
  match v with
  | VDict d => inr (default dflt (dict_get key d))
  | _ => inl (AttributeError (u "object has no attribute 'get'"))
  end.

(** ** [os.path] on POSIX *)

Definition slash : N := 47.
Definition dot : N := 46.

(** The longest prefix of [s] without [c], and the rest. *)
Fixpoint break_at (c : N) (s : pystr) : pystr * pystr :=
  match s with
  | [] => ([], [])
  | x :: s' =>
      if (x =? c)%N then ([], s)
      else let '(a, b) := break_at c s' in (x :: a, b)
  end.

(** [os.path.split(p)] before the head is stripped: [p[:i]] and [p[i:]]
    for [i = p.rfind('/') + 1]. *)
Definition split_last_sep (p : pystr) : pystr * pystr :=
  let '(tail_rev, head_rev) := break_at slash (rev p) in
  (rev head_rev, rev tail_rev).

Definition all_slashes (s : pystr) : bool := forallb (N.eqb slash) s.

Fixpoint lstrip_char (c : N) (s : pystr) : pystr :=
  match s with
  | x :: s' => if (x =? c)%N then lstrip_char c s' else s
  | [] => []
  end.

Definition rstrip_char (c : N) (s : pystr) : pystr :=
  rev (lstrip_char c (rev s)).

(** [os.path.basename(p)] *)
Definition basename (p : pystr) : pystr := snd (split_last_sep p).

(** [os.path.dirname(p)] *)
Definition dirname (p : pystr) : pystr :=
  let head := fst (split_last_sep p) in
  if all_slashes head then head else rstrip_char slash head.

(** [os.path.join(a, b)] *)
Definition path_join (a b : pystr) : pystr :=
  if startswith [slash] b then b
  else if bool_decide (a = []) || endswith [slash] a then a ++ b
  else a ++ [slash] ++ b.

(** [os.path.splitext(p)]: the extension starts at the last dot of the last
    component, unless only dots come before it there. *)
Definition splitext (p : pystr) : pystr * pystr :=
  let '(head, name) := split_last_sep p in
  let '(ext_rev, rest_rev) := break_at dot (rev name) in
  match rest_rev with
  | [] => (p, [])
  | _ :: stem_rev =>
      if forallb (N.eqb dot) stem_rev then (p, [])
      else (head ++ rev stem_rev, dot :: rev ext_rev)
  end.

(** ** The world: files, directories and the log *)

(** A page image, as its raw samples. *)
Record image := Image { samples : list N }.

#[global] Instance image_eq_dec : EqDecision image.
Proof. solve_decision. Defined.

(** What a scan of a directory finds. *)
Inductive entry :=
| EFile (name : pystr)
| EDir (name : pystr) (children : list entry).

Definition entry_name (e : entry) : pystr :=
  match e with
  | EFile n => n
  | EDir n _ => n
  end.

Inductive level := DEBUG | INFO | WARNING | ERROR.

Record log_record := LogRecord { log_level : level; log_message : pystr }.

(** [w_files] maps the path of each regular file to its content, [w_dirs] the
    path of each directory to the entries below it, [w_log] is what the
    logger has written, oldest first. A path is the string the program
    uses: [.] and [..] components, doubled or trailing slashes and symbolic
    links are not resolved. Creating a directory or a file fails where the
    directories it needs are missing or a regular file or a directory is in
    the way; permissions and full disks are outside the model. *)
Record world := World {
  w_files : gmap pystr (list N);
  w_dirs : gmap pystr (list entry);
  w_log : list log_record
}.

(** How a call ends: it returns, it raises an [Exception], or it leaves the
    process through [sys.exit]. *)
Inductive res (A : Type) :=
| Ret (a : A)
| Raise (e : exn)
| Exit (code : Z).
Arguments Ret {A} a.
Arguments Raise {A} e.
Arguments Exit {A} code.

Definition M (A : Type) : Type := world -> res A * world.

#[global] Instance M_ret : MRet M := fun A a w => (Ret a, w).

#[global] Instance M_bind : MBind M := fun A B f m w =>
  match m w with
  | (Ret a, w') => f a w'
  | (Raise e, w') => (Raise e, w')
  | (Exit c, w') => (Exit c, w')
  end.

Definition raise {A} (e : exn) : M A := fun w => (Raise e, w).

(** [sys.exit(code)] raises [SystemExit], which no [except Exception]
    catches. *)
Definition sys_exit {A} (code : Z) : M A := fun w => (Exit code, w).

(** [try: body / except Exception as e: handler e] *)
Definition try_except {A} (body : M A) (handler : exn -> M A) : M A :=
  fun w =>
    match body w with
    | (Raise e, w') => handler e w'
    | r => r
    end.

Definition lift {A} (x : exn + A) : M A :=
  match x with
  | inl e => raise e
  | inr a => mret a
  end.

(** [logging.basicConfig(level=logging.INFO)]: debug records are dropped. *)
Definition level_enabled (l : level) : bool :=
  match l with
  | DEBUG => false
  | _ => true
  end.

Definition add_log (l : level) (msg : pystr) (w : world) : world :=
  if level_enabled l
  then World (w_files w) (w_dirs w) (w_log w ++ [LogRecord l msg])
  else w.

Definition log (l : level) (msg : pystr) : M unit := fun w =>
  (Ret tt, add_log l msg w).

(** [os.path.isfile], [os.path.isdir], [os.path.exists] *)
Definition isfile (w : world) (p : pystr) : bool :=
  bool_decide (is_Some (w_files w !! p)).

Definition isdir (w : world) (p : pystr) : bool :=
  bool_decide (is_Some (w_dirs w !! p)).

Definition path_exists (w : world) (p : pystr) : bool :=
  isfile w p || isdir w p.

Definition os_path_isfile (p : pystr) : M bool := fun w => (Ret (isfile w p), w).
Definition os_path_isdir (p : pystr) : M bool := fun w => (Ret (isdir w p), w).
Definition os_path_exists (p : pystr) : M bool := fun w => (Ret (path_exists w p), w).

Definition set_files (f : gmap pystr (list N)) (w : world) : world :=
  World f (w_dirs w) (w_log w).

Definition set_dirs (d : gmap pystr (list entry)) (w : world) : world :=
  World (w_files w) d (w_log w).

(** A regular file stands at one of the directories above [p]. *)
Fixpoint file_above (fuel : nat) (w : world) (p : pystr) : bool :=
  match fuel with
  | O => false
  | S fuel' =>
      let d := dirname p in
      if bool_decide (d = []) || bool_decide (d = p) then false
      else isfile w d || file_above fuel' w d
  end.

(** What the system answers when something is to be created at [path] and
    the directory [path] lies in has to be there: nothing when it is the
    current directory or a directory that exists, [ENOTDIR] when a regular
    file stands at it or above it, [ENOENT] otherwise. *)
Definition parent_error (w : world) (path : pystr) : option exn :=
  let d := dirname path in
  if bool_decide (d = []) || isdir w d then None
  else if isfile w d || file_above (length d) w d then Some (ENOTDIR path)
  else Some (ENOENT path).

(** [os.mkdir(name)] *)
Definition os_mkdir (name : pystr) : M unit := fun w =>
  if bool_decide (name = []) then (Raise (ENOENT name), w)
  else if path_exists w name then (Raise (EEXIST name), w)
  else
    match parent_error w name with
    | Some e => (Raise e, w)
    | None => (Ret tt, set_dirs (<[name := []]> (w_dirs w)) w)
    end.

(** The last step of [os.makedirs(name, exist_ok=True)]:
    [try: mkdir(name) / except OSError: if not path.isdir(name): raise]. *)
Definition mkdir_exist_ok (name : pystr) : M unit :=
  try_except (os_mkdir name)
    (fun e =>
       isd ← os_path_isdir name;
       if is_os_error e && isd then mret tt else raise e).

(** [os.makedirs(name, exist_ok=True)]: the missing parents first (a
    [FileExistsError] of theirs is passed over), then the directory itself,
    unless its last component is [.]. The recursion goes up one component a
    step, so the length of [name] is enough fuel. *)
Fixpoint makedirs_fuel (fuel : nat) (name : pystr) : M unit :=
  match fuel with
  | O => mkdir_exist_ok name
  | S fuel' =>
      let '(head, tail) := (dirname name, basename name) in
      let '(head, tail) :=
        if bool_decide (tail = []) then (dirname head, basename head)
        else (head, tail) in
      ex ← os_path_exists head;
      if bool_decide (head ≠ []) && bool_decide (tail ≠ []) && negb ex then
        try_except (makedirs_fuel fuel' head)
          (fun e =>
             match e with
             | FileExistsError _ => mret tt
             | _ => raise e
             end);;
        if bool_decide (tail = u ".") then mret tt else mkdir_exist_ok name
      else mkdir_exist_ok name
  end.

Definition os_makedirs (name : pystr) : M unit :=
  makedirs_fuel (length name) name.

(** [with open(path, 'w') as f: f.write(data)]: the file is created or
    truncated when it is opened, which fails for a path that names a
    directory or lies in no directory. *)
Definition write_file (path : pystr) (data : list N) : M unit := fun w =>
  if bool_decide (basename path = []) then
    (Raise (if isdir w (dirname path) then EISDIR path else ENOENT path), w)
  else if isdir w path then (Raise (EISDIR path), w)
  else
    match parent_error w path with
    | Some e => (Raise e, w)
    | None => (Ret tt, set_files (<[path := data]> (w_files w)) w)
    end.

(** [with open(path, 'r') as f: f.read()] *)
Definition read_file (path : pystr) : M (list N) := fun w =>
  match w_files w !! path with
  | Some data => (Ret data, w)
  | None =>
      if isdir w path then (Raise (EISDIR path), w)
      else
        match parent_error w path with
        | Some e => (Raise e, w)
        | None => (Raise (ENOENT path), w)
        end
  end.

(** ** The environment: what the libraries answer *)

(** What the codec table says of an encoding and a text: the encoding is
    not a string ([TypeError]), no codec has that name ([LookupError]), the
    codec cannot encode the text ([UnicodeEncodeError]), or the bytes of
    the text. *)
Inductive encoded :=
| BadEncoding (e : exn)
| UnknownCodec (e : exn)
| CannotEncode (e : exn)
| Encoded (data : list N).

Record env := Env {
  (** [os.path.expanduser], [os.path.abspath], [os.path.relpath] *)
  expanduser : pystr -> pystr;
  abspath : pystr -> pystr;
  relpath : pystr -> pystr -> pystr;
  (** [os.path.dirname(__file__)] *)
  module_dir : pystr;
  (** [datetime.now().isoformat()] *)
  now_isoformat : pystr;
  (** [os.getenv("GEMINI_API_KEY")] *)
  getenv_api_key : option pystr;
  (** [yaml.dump(v, default_flow_style=False)] and [yaml.safe_load] *)
  yaml_dump : pyval -> list N;
  yaml_safe_load : list N -> exn + pyval;
  (** [genai.configure(api_key=k)]: the exception it raises, if any *)
  genai_configure : pystr -> option exn;
  (** [fitz.open(path)] and the rendering of every page; [Image.open(path)] *)
  fitz_pages : pystr -> exn + list image;
  image_open : pystr -> exn + image;
  (** [genai.GenerativeModel(model).generate_content([prompt, image]).text] *)
  generate_content : pyval -> pyval -> image -> exn + pystr;
  (** the exception with which the pool fails the task submitted as number
      [i], if it does: the task is then never run *)
  task_fault : nat -> option exn;
  (** the order in which the tasks of a document complete: at every step the
      number picks one of the futures still pending *)
  completion : pystr -> list nat;
  (** compiling a template source and rendering it with a context *)
  jinja_render : list N -> gmap pystr pyval -> exn + pystr;
  (** the codec named by a configuration value, applied to a text *)
  text_encode : pyval -> pystr -> encoded;
  (** [s.lower()] for a string with a code point outside ASCII *)
  str_lower : pystr -> pystr;
  (** the [TemplateNotFound] of the loader for a directory and a name *)
  template_not_found : pystr -> pystr -> exn;
  (** [glob.glob(pattern, recursive=r)] for a pattern whose directory part
      is empty or has wildcard characters itself *)
  glob_other : pystr -> bool -> list pystr
}.

Section Program.

Variable E : env.

(** ** Configuration: [get_config_path], [setup_config], [load_config] *)

Definition default_config_path : pystr :=
  path_join (expanduser E (u "~/.config/handwrite")) (u "config.yaml").

(** [config_arg] is [None] or a string; the empty string is falsy. *)
Definition get_config_path (config_arg : option pystr) : M pystr :=
  match config_arg with
  | Some p =>
      if bool_decide (p ≠ []) then
        ex ← os_path_exists p;
        if ex : bool then mret p else mret default_config_path
      else mret default_config_path
  | None => mret default_config_path
  end.

Definition nl : pystr := [10%N].

Definition setup_prompt : pystr :=
  u "Extract the handwritten text from this image." ++ nl
  ++ u "- Use $ for LaTeX, not ```latex." ++ nl
  ++ u "- Transcribe the text exactly as it appears." ++ nl
  ++ u "- The output must be only the transcribed Markdown, with no additional commentary.".

Definition config_with_prompt (prompt : pystr) : pyval :=
  VDict [
    (u "gemini", VDict [
       (u "model", VStr (u "gemini-1.5-pro"));
       (u "prompt", VStr prompt)]);
    (u "template", VDict [
       (u "path", VStr (path_join (module_dir E) (u "templates/note_template.md")));
       (u "variables", VDict [])]);
    (u "output", VDict [
       (u "format", VStr (u "markdown"));
       (u "encoding", VStr (u "utf-8"))])].

Definition setup_config : M unit :=
  config_path ← get_config_path None;
  ex ← os_path_exists config_path;
  if ex : bool then
    log INFO (u "Config file already exists at " ++ config_path)
  else
    os_makedirs (dirname config_path);;
    let default_config := config_with_prompt setup_prompt in
    write_file config_path (yaml_dump E default_config);;
    log INFO (u "Created default config at " ++ config_path).

Definition load_config (config_path : pystr) : M pyval :=
  ex ← os_path_exists config_path;
  if negb ex then
    log WARNING (u "Config file not found at " ++ config_path
                 ++ u ". Using default settings.");;
    mret (config_with_prompt (u "Extract the handwritten text from this image."))
  else
    data ← read_file config_path;
    lift (yaml_safe_load E data).

(** [config --setup] *)
Definition config_command (setup : bool) : M unit :=
  if setup then setup_config else mret tt.

Definition configure_genai : M unit :=
  match getenv_api_key E with
  | Some ((_ :: _) as api_key) =>
      try_except
        (match genai_configure E api_key with
         | Some e => raise e
         | None => log INFO (u "Successfully configured Gemini API")
         end)
        (fun e =>
           log ERROR (u "Failed to configure Gemini API: " ++ exn_str e);;
           raise e)
  | _ =>
      log ERROR (u "GEMINI_API_KEY not found in environment variables or .env file");;
      raise (ValueError (u "GEMINI_API_KEY not found in environment variables or .env file"))
  end.

(** ** Image extraction and page transcription *)

(** [s.lower()]: on a string of ASCII code points, the letters [A] to [Z]
    go to [a] to [z] and nothing else moves; on any other string, what the
    Unicode tables of Python answer. *)
Definition lower (s : pystr) : pystr :=
  if is_ascii s then ascii_lower s else str_lower E s.

Definition get_images (input_path : pystr) : M (list image) :=
  let file_extension := lower (snd (splitext input_path)) in
  if bool_decide (file_extension = u ".pdf") then
    match fitz_pages E input_path with
    | inr images => mret images
    | inl e => log ERROR (u "Error processing PDF: " ++ exn_str e);; mret []
    end
  else if bool_decide (file_extension ∈ [u ".png"; u ".jpg"; u ".jpeg"]) then
    match image_open E input_path with
    | inr img => mret [img]
    | inl e => log ERROR (u "Error processing image: " ++ exn_str e);; mret []
    end
  else
    log ERROR (u "Unsupported file type: " ++ file_extension);; mret [].

Definition ocr_image_with_gemini (img : image) (model_name prompt : pyval)
  : M pystr :=
  try_except
    (lift (generate_content E model_name prompt img))
    (fun e =>
       log ERROR (u "Error during OCR: " ++ exn_str e);;
       mret (u "Error: " ++ exn_str e)).

(** ** The batch dispatcher *)

(** A future of the pool: the number under which it was submitted, and how
    its task ended. *)
Record future := Future { fut_id : nat; fut_outcome : res pystr }.

(** [executor.submit(task)] as submission number [i]. The worker keeps
    whatever the task raises for [future.result()]. What a task logs is put
    in the log when the task is submitted: the order in which the records of
    concurrent tasks reach the log is one of many, and no statement below
    depends on it. *)
Definition executor_submit (i : nat) (task : M pystr) : M future :=
  match task_fault E i with
  | Some e => mret (Future i (Raise e))
  | None => fun w => let '(r, w') := task w in (Ret (Future i r), w')
  end.

(** [future.result()] *)
Definition future_result (f : future) : M pystr := fun w => (fut_outcome f, w).

(** The comprehension that builds [future_to_page]: one submission per
    page, in page order. The result lists the items of the dictionary. *)
Fixpoint submit_pages (i : nat) (images : list image) (model_name prompt : pyval)
  : M (list (future * nat)) :=
  match images with
  | [] => mret []
  | img :: rest =>
      f ← executor_submit i (ocr_image_with_gemini img model_name prompt);
      items ← submit_pages (S i) rest model_name prompt;
      mret ((f, i) :: items)
  end.

(** The dictionary itself, keyed by the identity of the future. *)
Definition page_dict (items : list (future * nat)) : gmap nat nat :=
  list_to_map (map (fun it => (fut_id (fst it), snd it)) items).

(** [as_completed(futures)]: the futures in the order they complete. Every
    step takes one of the pending futures, the one the schedule names. *)
Fixpoint pick_order {A} (n : nat) (sched : list nat) (pending : list A) : list A :=
  match n with
  | O => []
  | S n' =>
      let c := hd 0 sched `mod` length pending in
      match pending !! c with
      | Some x => x :: pick_order n' (tl sched) (delete c pending)
      | None => []
      end
  end.

Definition as_completed {A} (sched : list nat) (futures : list A) : list A :=
  pick_order (length futures) sched futures.

(** [l[i] = x] *)
Definition list_setitem (l : list pystr) (i : nat) (x : pystr) : M (list pystr) :=
  if decide (i < length l) then mret (<[i := x]> l)
  else raise (IndexError (u "list assignment index out of range")).

Definition page_error_msg (page_index : nat) (exc : exn) : pystr :=
  u "Error processing page " ++ str_of_nat (page_index + 1) ++ u ": " ++ exn_str exc.

(** The loop over [as_completed(future_to_page)]. The progress bar only
    draws on the terminal and is left out. *)
Fixpoint collect_results (future_to_page : gmap nat nat) (order : list future)
    (page_results : list pystr) : M (list pystr) :=
  match order with
  | [] => mret page_results
  | fut :: rest =>
      page_index ← lift (match future_to_page !! fut_id fut with
                         | Some i => inr i
                         | None => inl (KeyError (str_of_nat (fut_id fut)))
                         end);
      page_results ←
        try_except
          (page_text ← future_result fut;
           page_results ← list_setitem page_results page_index page_text;
           log DEBUG (u "Successfully processed page " ++ str_of_nat (page_index + 1));;
           mret page_results)
          (fun exc =>
             let error_msg := page_error_msg page_index exc in
             page_results ← list_setitem page_results page_index error_msg;
             log ERROR error_msg;;
             mret page_results);
      collect_results future_to_page rest page_results
  end.

(** Lines 167-182 of [process_single_file]. *)
Definition dispatch_pages (sched : list nat) (images : list image)
    (model_name prompt : pyval) : M (list pystr) :=
  let page_results := map (fun _ => []) images in
  items ← submit_pages 0 images model_name prompt;
  collect_results (page_dict items) (as_completed sched (map fst items)) page_results.

(** ** The document renderer *)

(** [os.path.dirname], [os.path.basename] and the like raise [TypeError] on
    anything but a path. *)
Definition as_path (v : pyval) : M pystr :=
  match v with
  | VStr s => mret s
  | _ => raise (TypeError (u "expected str, bytes or os.PathLike object"))
  end.

(** [Environment(loader=FileSystemLoader(template_dir)).get_template(name)]:
    the source of the file [name] of the directory, which has to be there. *)
Definition jinja_get_template (template_dir template_name : pystr) : M (list N) :=
  fun w =>
    if bool_decide (template_name ∈ [[]; u "."; u ".."]) then
      (Raise (template_not_found E template_dir template_name), w)
    else
      match w_files w !! path_join template_dir template_name with
      | Some source => (Ret source, w)
      | None => (Raise (template_not_found E template_dir template_name), w)
      end.

(** [with open(output_path, 'w', encoding=encoding) as f: f.write(content)].
    [open] refuses an encoding that is not a string before it touches the
    file; it looks the codec up once the file is created or truncated; and
    [f.write] encodes the whole text before a byte is written, so a text
    the codec cannot encode leaves the file empty. *)
Definition write_text (output_path : pystr) (encoding : pyval) (content : pystr)
  : M unit :=
  match text_encode E encoding content with
  | BadEncoding e => raise e
  | UnknownCodec e | CannotEncode e => write_file output_path [];; raise e
  | Encoded data => write_file output_path data
  end.

Definition render_markdown (template_path : pyval) (output_path : pystr)
    (encoding : pyval) (context : gmap pystr pyval) : M unit :=
  try_except
    (path ← as_path template_path;
     let template_dir := dirname path in
     let template_name := basename path in
     template ← jinja_get_template template_dir template_name;
     content ← lift (jinja_render E template context);
     write_text output_path encoding content;;
     log INFO (u "Successfully created note at " ++ output_path))
    (fun e => log ERROR (u "Error rendering Markdown: " ++ exn_str e)).

(** One item of the iterable given to [dict.update]: a sequence of two
    elements, the key and the value. The keys of a context are strings here,
    so a key of another type is refused at once, where Python refuses it
    when the context is passed as keyword arguments. *)
Definition as_item (v : pyval) : exn + (pystr * pyval) :=
  match v with
  | VList [VStr k; x] => inr (k, x)
  | VList [_; _] => inl (TypeError (u "keywords must be strings"))
  | VStr [k; x] => inr ([k], VStr [x])
  | VDict [(k, _); (x, _)] => inr (k, VStr x)
  | VList _ | VStr _ | VDict _ =>
      inl (ValueError (u "dictionary update sequence element has the wrong length"))
  | _ => inl (TypeError (u "cannot convert dictionary update sequence element to a sequence"))
  end.

Fixpoint update_items (context : gmap pystr pyval) (items : list pyval)
  : exn + gmap pystr pyval :=
  match items with
  | [] => inr context
  | v :: rest =>
      match as_item v with
      | inl e => inl e
      | inr (k, x) => update_items (<[k := x]> context) rest
      end
  end.

(** [context.update(v)]: later writes win. *)
Definition dict_update (context : gmap pystr pyval) (v : pyval)
  : exn + gmap pystr pyval :=
  match v with
  | VDict d => inr (foldl (fun c kv => <[kv.1 := kv.2]> c) context d)
  | VList l => update_items context l
  | VStr [] => inr context
  | VStr _ =>
      inl (ValueError (u "dictionary update sequence element has the wrong length"))
  | _ => inl (TypeError (u "object is not iterable"))
  end.

(** The call [render_markdown(template_path, output_path, encoding,
    **context)]: a key of the context that names one of the three
    positional parameters is refused. *)
Definition call_render_markdown (template_path : pyval) (output_path : pystr)
    (encoding : pyval) (context : gmap pystr pyval) : M unit :=
  if bool_decide (is_Some (context !! u "template_path"))
     || bool_decide (is_Some (context !! u "output_path"))
     || bool_decide (is_Some (context !! u "encoding"))
  then raise (TypeError (u "render_markdown() got multiple values for argument"))
  else render_markdown template_path output_path encoding context.

Definition page_separator : pystr := nl ++ nl.

(** Lines 186-218 of [process_single_file]: what is done with the merged
    text of the pages. *)
Definition finish_document (input_path output_dir : pystr) (config : pyval)
    (model_name : pyval) (images : list image) (full_text : pystr) : M bool :=
  if bool_decide (strip full_text ≠ []) then
    let input_filename := basename input_path in
    let absolute_input_path := abspath E input_path in
    let relative_input_path := relpath E absolute_input_path output_dir in
    let processing_datetime := now_isoformat E in
    let page_count := length images in
    let output_filename := fst (splitext input_filename) ++ u ".md" in
    let output_path := path_join output_dir output_filename in
    let context : gmap pystr pyval :=
      <[u "model_used" := model_name]>
      (<[u "page_count" := VInt (Z.of_nat page_count)]>
      (<[u "datetime_processed" := VStr processing_datetime]>
      (<[u "source_path_relative" := VStr relative_input_path]>
      (<[u "source_path_absolute" := VStr absolute_input_path]>
      (<[u "relative_pdf_path" := VStr relative_input_path]>
      (<[u "absolute_pdf_path" := VStr absolute_input_path]>
      (<[u "filename" := VStr input_filename]>
      (<[u "content" := VStr full_text]> ∅)))))))) in
    template ← lift (getitem config (u "template"));
    has_variables ← lift (contains template (u "variables"));
    context ←
      (if has_variables : bool then
         template ← lift (getitem config (u "template"));
         variables ← lift (getitem template (u "variables"));
         lift (dict_update context variables)
       else mret context);
    template ← lift (getitem config (u "template"));
    template_path ← lift (getitem template (u "path"));
    output ← lift (get_default config (u "output") (VDict []));
    encoding ← lift (get_default output (u "encoding") (VStr (u "utf-8")));
    call_render_markdown template_path output_path encoding context;;
    mret true
  else
    log WARNING (u "No text extracted from " ++ input_path);;
    mret false.

(** The [except Exception] clause of [process_single_file]. *)
Definition document_failed (input_path : pystr) (e : exn) : M bool :=
  log ERROR (u "Error processing " ++ input_path ++ u ": " ++ exn_str e);;
  mret false.

Definition process_single_file (input_path output_dir : pystr) (config : pyval)
  : M bool :=
  try_except
    (images ← get_images input_path;
     if bool_decide (images = []) then
       log ERROR (u "No images could be extracted from " ++ input_path);;
       mret false
     else
       log INFO (u "Extracted " ++ str_of_nat (length images)
                 ++ u " images from " ++ input_path);;
       gemini ← lift (getitem config (u "gemini"));
       model_name ← lift (getitem gemini (u "model"));
       gemini ← lift (getitem config (u "gemini"));
       prompt ← lift (getitem gemini (u "prompt"));
       page_results ← dispatch_pages (completion E input_path) images model_name prompt;
       let full_text := str_join page_separator page_results in
       finish_document input_path output_dir config model_name images full_text)
    (document_failed input_path).

(** ** File discovery: [glob.glob] on POSIX *)

Definition star : N := 42.
Definition question : N := 63.
Definition lbracket : N := 91.

(** [glob.has_magic] *)
Definition has_magic (s : pystr) : bool :=
  existsb (fun c => (c =? star) || (c =? question) || (c =? lbracket))%N s.

(** [glob._ishidden] *)
Definition ishidden (name : pystr) : bool := startswith [dot] name.

(** [fnmatch.fnmatchcase(name, pat)] for patterns made of [*], [?] and plain
    characters, which is all the program uses. The match is by case: POSIX
    leaves names as they are. *)
Fixpoint fnmatch (pat : pystr) : pystr -> bool :=
  match pat with
  | [] => fun name => bool_decide (name = [])
  | c :: pat' =>
      if (c =? star)%N then
        fix any (name : pystr) : bool :=
          fnmatch pat' name
          || match name with
             | [] => false
             | _ :: name' => any name'
             end
      else if (c =? question)%N then
        fun name =>
          match name with
          | [] => false
          | _ :: name' => fnmatch pat' name'
          end
      else
        fun name =>
          match name with
          | [] => false
          | x :: name' => (x =? c)%N && fnmatch pat' name'
          end
  end.

(** [glob._glob1]: the names of a directory that match the pattern; hidden
    names only for a pattern that is hidden itself. *)
Definition glob1 (children : list entry) (pattern : pystr) : list pystr :=
  let names := map entry_name children in
  let names :=
    if ishidden pattern then names
    else List.filter (fun x => negb (ishidden x)) names in
  List.filter (fnmatch pattern) names.

(** [glob._rlistdir] with [dironly]: the directories below an entry that is
    not hidden, each with its path from the entry's parent. *)
Fixpoint subdirs (e : entry) : list (pystr * list entry) :=
  match e with
  | EFile _ => []
  | EDir x children =>
      if ishidden x then []
      else (x, children)
           :: map (fun yc => (path_join x yc.1, yc.2)) (flat_map subdirs children)
  end.

(** [os.path.dirname(os.path.join(dir, pattern))] for a pattern without a
    slash: the directory part [glob] splits off and prefixes to its
    results. *)
Definition glob_base (dir : pystr) : pystr :=
  if all_slashes dir then dir else rstrip_char slash dir.

(** [glob.glob(os.path.join(dir, pattern))] *)
Definition glob_in (w : world) (dir pattern : pystr) : list pystr :=
  if has_magic dir || bool_decide (dir = []) then
    glob_other E (path_join dir pattern) false
  else
    match w_dirs w !! dir with
    | Some children => map (path_join (glob_base dir)) (glob1 children pattern)
    | None => []
    end.

(** [glob.glob(os.path.join(dir, '**', pattern), recursive=True)]: [**]
    stands for the directory itself and for every directory below it that
    no hidden name leads to. *)
Definition glob_under (w : world) (dir pattern : pystr) : list pystr :=
  if has_magic dir || bool_decide (dir = []) then
    glob_other E (path_join (path_join dir (u "**")) pattern) true
  else
    match w_dirs w !! dir with
    | Some children =>
        flat_map
          (fun yc => map (path_join (path_join (glob_base dir) yc.1))
                         (glob1 yc.2 pattern))
          (([], children) :: flat_map subdirs children)
    | None => []
    end.

Definition supported_patterns : list pystr :=
  [u "*.pdf"; u "*.PDF"; u "*.png"; u "*.PNG";
   u "*.jpg"; u "*.JPG"; u "*.jpeg"; u "*.JPEG"].

(** The loop that fills [input_paths] for a directory. *)
Definition find_input_paths (w : world) (input_path : pystr) : list pystr :=
  flat_map
    (fun ext => glob_in w input_path ext ++ glob_under w input_path ext)
    supported_patterns.

Definition scan_input_paths (input_path : pystr) : M (list pystr) := fun w =>
  (Ret (find_input_paths w input_path), w).

(** ** The file orchestrator *)

Record args := Args {
  input_path : pystr;
  output_dir : pystr;
  config : option pystr
}.

(** The loop over [input_paths] with its two counters. *)
Fixpoint process_loop (input_paths : list pystr) (out : pystr) (cfg : pyval)
    (successful failed : nat) : M (nat * nat) :=
  match input_paths with
  | [] => mret (successful, failed)
  | path :: rest =>
      log INFO (u "Processing: " ++ path);;
      ok ← process_single_file path out cfg;
      if ok : bool then process_loop rest out cfg (successful + 1) failed
      else process_loop rest out cfg successful (failed + 1)
  end.

(** Lines 226-241 of [process_command]: the documents to process. *)
Definition resolve_input_paths (a : args) : M (list pystr) :=
  isf ← os_path_isfile (input_path a);
  if isf : bool then mret [input_path a]
  else
    isd ← os_path_isdir (input_path a);
    if isd : bool then
      paths ← scan_input_paths (input_path a);
      if bool_decide (paths = []) then
        log ERROR (u "No supported files found in directory " ++ input_path a);;
        sys_exit 1
      else mret paths
    else
      log ERROR (u "Input path not found: " ++ input_path a);;
      sys_exit 1.

(** Lines 247-271 of [process_command]: the [try] block and its handler. *)
Definition process_batch (a : args) (input_paths : list pystr) : M unit :=
  try_except
    (config_path ← get_config_path (config a);
     cfg ← load_config config_path;
     configure_genai;;
     log INFO (u "Processing " ++ str_of_nat (length input_paths) ++ u " file(s)");;
     counts ← process_loop input_paths (output_dir a) cfg 0 0;
     log INFO (u "Processing complete: " ++ str_of_nat counts.1
               ++ u " successful, " ++ str_of_nat counts.2 ++ u " failed");;
     if bool_decide (0 < counts.2) then sys_exit 1 else mret tt)
    (fun e =>
       log ERROR (u "An unexpected error occurred: " ++ exn_str e);;
       sys_exit 1).

Definition process_command (a : args) : M unit :=
  input_paths ← resolve_input_paths a;
  isd ← os_path_isdir (output_dir a);
  (if isd : bool then mret tt
   else
     log ERROR (u "Output directory not found at " ++ output_dir a);;
     sys_exit 1);;
  process_batch a input_paths.

End Program.

(** The exit status of the process: 0 when [main] returns, the argument of
    [sys.exit], 1 for an exception nobody caught. *)
Definition exit_status {A} (r : res A) : Z :=
  match r with
  | Ret _ => 0
  | Raise _ => 1
  | Exit code => code
  end.

(** * Observations

    What the statements below speak of: the answers and the merged text of a
    document, the relation between two worlds, the setup of a batch, the
    discovery as the specification words it. *)

(** What the transcriber answers for a page: the text of the OCR service, or
    the description of its failure. *)
Definition ocr_text (E : env) (model_name prompt : pyval) (img : image) : pystr :=
  match generate_content E model_name prompt img with
  | inr text => text
  | inl e => u "Error: " ++ exn_str e
  end.

(** What the dispatcher has to store for page [i]. *)
Definition page_text (E : env) (model_name prompt : pyval) (i : nat)
    (img : image) : pystr :=
  match task_fault E i with
  | Some e => page_error_msg i e
  | None => ocr_text E model_name prompt img
  end.

Definition page_texts (E : env) (model_name prompt : pyval)
    (images : list image) : list pystr :=
  imap (page_text E model_name prompt) images.

(** The future of page [i] once its task is over. *)
Definition page_future (E : env) (model_name prompt : pyval) (i : nat)
    (img : image) : future :=
  Future i match task_fault E i with
           | Some e => Raise e
           | None => Ret (ocr_text E model_name prompt img)
           end.

Definition page_futures (E : env) (model_name prompt : pyval)
    (images : list image) : list future :=
  imap (page_future E model_name prompt) images.

Definition page_items (E : env) (model_name prompt : pyval)
    (images : list image) : list (future * nat) :=
  imap (fun i img => (page_future E model_name prompt i img, i)) images.

(** The world the tasks and the loop can reach: they only log, and every
    record they add has a level [keep] accepts. *)
Definition logged_only (keep : level -> bool) (w w' : world) : Prop :=
  w_files w' = w_files w ∧ w_dirs w' = w_dirs w
  ∧ ∃ extra, w_log w' = w_log w ++ extra
             ∧ Forall (fun r => keep (log_level r) = true) extra.

Definition only_logged : world -> world -> Prop := logged_only (fun _ => true).

(** The text a finished future brings, and the write of the loop body. *)
Definition future_text (f : future) : pystr :=
  match fut_outcome f with
  | Ret text => text
  | Raise e => page_error_msg (fut_id f) e
  | Exit _ => []
  end.

Definition store (results : list pystr) (f : future) : list pystr :=
  <[fut_id f := future_text f]> results.

(** The pages [get_images] extracts. *)
Definition images_of (E : env) (input_path : pystr) : list image :=
  let file_extension := lower E (snd (splitext input_path)) in
  if bool_decide (file_extension = u ".pdf") then
    match fitz_pages E input_path with
    | inr images => images
    | inl _ => []
    end
  else if bool_decide (file_extension ∈ [u ".png"; u ".jpg"; u ".jpeg"]) then
    match image_open E input_path with
    | inr img => [img]
    | inl _ => []
    end
  else [].

(** The model name and the prompt a configuration gives, when it does. *)
Definition config_model (config : pyval) : exn + pyval :=
  match getitem config (u "gemini") with
  | inr gemini => getitem gemini (u "model")
  | inl e => inl e
  end.

Definition config_prompt (config : pyval) : exn + pyval :=
  match getitem config (u "gemini") with
  | inr gemini => getitem gemini (u "prompt")
  | inl e => inl e
  end.

(** The merged text of a document: its page texts, a blank line between
    two pages. *)
Definition document_text (E : env) (input_path : pystr)
    (model_name prompt : pyval) : pystr :=
  str_join page_separator (page_texts E model_name prompt (images_of E input_path)).


(** A computation that neither leaves the process nor, here, needs to be
    looked into further: it returns or it raises. *)
Definition no_exit {A} (m : M A) : Prop :=
  ∀ w, ∃ w', (∃ a, m w = (Ret a, w')) ∨ (∃ e, m w = (Raise e, w')).

(** What the documents of a batch return, one after the other, and the
    world they leave. *)
Fixpoint document_results (E : env) (paths : list pystr) (out : pystr)
    (config : pyval) (w : world) : list bool * world :=
  match paths with
  | [] => ([], w)
  | path :: rest =>
      match process_single_file E path out config
              (add_log INFO (u "Processing: " ++ path) w) with
      | (Ret ok, w') =>
          let '(oks, w'') := document_results E rest out config w' in
          (ok :: oks, w'')
      | (_, w') => ([], w')
      end
  end.

Definition count_true (oks : list bool) : nat := length (List.filter id oks).
Definition count_false (oks : list bool) : nat := length (List.filter negb oks).

(** The configuration path [get_config_path] answers. *)
Definition config_path_of (E : env) (config_arg : option pystr) (w : world)
  : pystr :=
  match config_arg with
  | Some p =>
      if bool_decide (p ≠ []) && path_exists w p then p
      else default_config_path E
  | None => default_config_path E
  end.

(** The required secret is missing: unset, or set to the empty string. *)
Definition api_key_absent (E : env) : Prop :=
  match getenv_api_key E with
  | Some (_ :: _) => False
  | _ => True
  end.

Definition key_error_msg : pystr :=
  u "GEMINI_API_KEY not found in environment variables or .env file".

(** The world after the setup of a batch went through and before its first
    document. *)
Definition batch_start (paths : list pystr) (w : world) : world :=
  add_log INFO (u "Processing " ++ str_of_nat (length paths) ++ u " file(s)") w.

Definition batch_end (oks : list bool) (w : world) : world :=
  add_log INFO (u "Processing complete: " ++ str_of_nat (count_true oks)
                ++ u " successful, " ++ str_of_nat (count_false oks)
                ++ u " failed") w.

Definition unexpected (e : exn) (w : world) : world :=
  add_log ERROR (u "An unexpected error occurred: " ++ exn_str e) w.

Definition not_info (l : level) : bool :=
  match l with
  | INFO => false
  | _ => true
  end.

(** No document was started between [w] and [w']: no file or directory has
    changed and the log has no new record of level INFO, which every
    document leaves when its turn comes (["Processing: <path>"]). *)
Definition no_document_started : world -> world -> Prop := logged_only not_info.

(** The output directory is there, the configuration loads as [cfg], the OCR
    client is configured, and [w1] is the world in which the first of the
    documents [paths] is taken up. *)
Definition config_ready (E : env) (a : args) (w : world)
    (paths : list pystr) (cfg : pyval) (w1 : world) : Prop :=
  isdir w (output_dir a) = true
  ∧ ∃ config_path w0 w0',
      get_config_path E (config a) w = (Ret config_path, w)
      ∧ load_config E config_path w = (Ret cfg, w0)
      ∧ configure_genai E w0 = (Ret tt, w0')
      ∧ w1 = batch_start paths w0'.

(** The setup of a batch went through: the input resolves to [paths], and
    the rest is ready. *)
Definition batch_ready (E : env) (a : args) (w : world)
    (paths : list pystr) (cfg : pyval) (w1 : world) : Prop :=
  resolve_input_paths E a w = (Ret paths, w)
  ∧ config_ready E a w paths cfg w1.

(** The setup cannot go through. *)
Definition fatal_setup (E : env) (a : args) (w : world) : Prop :=
  (isfile w (input_path a) = false ∧ isdir w (input_path a) = false)
  ∨ (isfile w (input_path a) = false ∧ isdir w (input_path a) = true
     ∧ find_input_paths E w (input_path a) = [])
  ∨ isdir w (output_dir a) = false
  ∨ api_key_absent E.

(** The exit of a batch whose setup went through. *)
Definition batch_outcome (E : env) (a : args) (paths : list pystr)
    (cfg : pyval) (w1 : world) : res unit * world :=
  let '(oks, w2) := document_results E paths (output_dir a) cfg w1 in
  (if bool_decide (0 < count_false oks) then Exit 1 else Ret tt,
   batch_end oks w2).

(** The configuration has no [gemini] section, or no [template] section:
    subscripting it with the name raises. *)
Definition lacks_section (cfg : pyval) : Prop :=
  (∃ e, getitem cfg (u "gemini") = inl e)
  ∨ (∃ e, getitem cfg (u "template") = inl e).

(** The suffixes the eight patterns of the program end in. *)
Definition supported_suffixes : list pystr :=
  [u ".pdf"; u ".PDF"; u ".png"; u ".PNG";
   u ".jpg"; u ".JPG"; u ".jpeg"; u ".JPEG"].

(** [below children rel c]: [rel] is the path, from a directory with the
    entries [children], of a directory strictly below it with the entries
    [c], and no name on the way is hidden. *)
Inductive below : list entry -> pystr -> list entry -> Prop :=
| below_child children x sub :
    In (EDir x sub) children -> ishidden x = false ->
    below children x sub
| below_deeper children x sub y c :
    In (EDir x sub) children -> ishidden x = false ->
    below sub y c ->
    below children (path_join x y) c.

(** The directories [**] stands for: the directory itself, under the empty
    path, and those below it. *)
Definition under (tree : list entry) (rel : pystr) (c : list entry) : Prop :=
  (rel = [] ∧ c = tree) ∨ below tree rel c.

(** The discovery the specification states: every file below the directory,
    hidden or not, whose extension is PDF, PNG, JPG or JPEG in any case, each
    file once. *)
Definition supported_extension (E : env) (name : pystr) : bool :=
  bool_decide (lower E (snd (splitext name))
               ∈ [u ".pdf"; u ".png"; u ".jpg"; u ".jpeg"]).

Fixpoint files_under (E : env) (base : pystr) (e : entry) : list pystr :=
  match e with
  | EFile n => if supported_extension E n then [path_join base n] else []
  | EDir n sub => flat_map (files_under E (path_join base n)) sub
  end.

Definition stated_discovery (E : env) (dir : pystr) (tree : list entry)
  : list pystr :=
  flat_map (files_under E dir) tree.

(** A pattern without wildcards. *)
Definition literal (lit : pystr) : bool :=
  forallb (fun c => negb (c =? star)%N && negb (c =? question)%N) lit.

(** A computation that appends to the log and never rewrites it. *)
Definition appends {A} (m : M A) : Prop :=
  ∀ w, ∃ extra, w_log (m w).2 = w_log w ++ extra.

(** The path of the note of a document: lines 187, 193 and 194. *)
Definition output_path_of (out input_path : pystr) : pystr :=
  path_join out (fst (splitext (basename input_path)) ++ u ".md").

(** The context of lines 196-206, before the variables of the
    configuration are added. *)
Definition built_in_context (E : env) (input_path out : pystr)
    (model_name : pyval) (images : list image) (full_text : pystr)
  : gmap pystr pyval :=
  let absolute_input_path := abspath E input_path in
  let relative_input_path := relpath E absolute_input_path out in
  <[u "model_used" := model_name]>
  (<[u "page_count" := VInt (Z.of_nat (length images))]>
  (<[u "datetime_processed" := VStr (now_isoformat E)]>
  (<[u "source_path_relative" := VStr relative_input_path]>
  (<[u "source_path_absolute" := VStr absolute_input_path]>
  (<[u "relative_pdf_path" := VStr relative_input_path]>
  (<[u "absolute_pdf_path" := VStr absolute_input_path]>
  (<[u "filename" := VStr (basename input_path)]>
  (<[u "content" := VStr full_text]> ∅)))))))).

(** Lines 209-210: the context once the variables of the template section,
    if it has any, are added. *)
Definition with_variables (template : pyval) (context : gmap pystr pyval)
  : exn + gmap pystr pyval :=
  match contains template (u "variables") with
  | inl e => inl e
  | inr true =>
      match getitem template (u "variables") with
      | inl e => inl e
      | inr variables => dict_update context variables
      end
  | inr false => inr context
  end.

(** Line 213: [config.get("output", {}).get("encoding", "utf-8")]. *)
Definition config_encoding (config : pyval) : exn + pyval :=
  match get_default config (u "output") (VDict []) with
  | inl e => inl e
  | inr output => get_default output (u "encoding") (VStr (u "utf-8"))
  end.

(** The names of the positional parameters of [render_markdown]: a context
    cannot pass them as keywords. *)
Definition reserved_keys : list pystr :=
  [u "template_path"; u "output_path"; u "encoding"].

(** The template source [render_markdown] finds for a template path. *)
Definition template_source (w : world) (template_path : pyval)
  : option (list N) :=
  match template_path with
  | VStr path =>
      if bool_decide (basename path ∈ [[]; u "."; u ".."]) then None
      else w_files w !! path_join (dirname path) (basename path)
  | _ => None
  end.

(** Between [w] and [w'] no directory has changed, and no file whose path
    is outside [P]. *)
Definition same_outside (P : pystr -> Prop) (w w' : world) : Prop :=
  w_dirs w' = w_dirs w ∧ ∀ p, ¬ P p -> w_files w' !! p = w_files w !! p.

Definition touches_only {A} (P : pystr -> Prop) (m : M A) : Prop :=
  ∀ w, same_outside P w (m w).2.

(** A path directly inside [out] whose name ends in [.md]. *)
Definition note_in (out : pystr) (p : pystr) : Prop :=
  ∃ stem, forallb (fun c => negb (c =? slash)%N) stem = true
          ∧ p = path_join out (stem ++ u ".md").

(** The level of the records that report a failure. *)
Definition is_error (l : level) : bool :=
  match l with
  | ERROR => true
  | _ => false
  end.

(** A file can be created or truncated at [path]: the path has a last
    component, no directory stands at it, and the directory it lies in is
    the current one or exists. *)
Definition can_create (w : world) (path : pystr) : bool :=
  bool_decide (basename path ≠ []) && negb (isdir w path)
  && (bool_decide (dirname path = []) || isdir w (dirname path)).

(** The directory [name] can be made with the directories above it: its
    last component is a name, no regular file stands at it, and the
    directory it lies in is the current one, or exists, or is missing and
    can be made in turn. *)
Fixpoint makeable (fuel : nat) (w : world) (name : pystr) : bool :=
  bool_decide (basename name ≠ []) && bool_decide (basename name ≠ u ".")
  && negb (isfile w name)
  && (bool_decide (dirname name = [])
      || isdir w (dirname name)
      || (negb (path_exists w (dirname name))
          && match fuel with
             | O => false
             | S fuel' => makeable fuel' w (dirname name)
             end)).

Definition can_makedirs (w : world) (name : pystr) : bool :=
  makeable (length name) w name.

(** The merged text as the specification words it: the texts of the pages
    one after the other, in the order given, and between two of them a
    blank line, that is two line feeds. *)
Definition joined_by_blank_line (texts : list pystr) : pystr :=
  match texts with
  | [] => []
  | first :: rest =>
      fold_left (fun merged text => merged ++ [10%N; 10%N] ++ text) rest first
  end.

(** A computation that logs no warning, whatever else it does. *)
Definition not_warning (l : level) : bool :=
  match l with
  | WARNING => false
  | _ => true
  end.

Definition warns_not {A} (m : M A) : Prop :=
  ∀ w, ∃ extra, w_log (m w).2 = w_log w ++ extra
               ∧ Forall (fun r => not_warning (log_level r) = true) extra.

(** No name in the tree has a slash, as on every file system. *)
Fixpoint plain_names (e : entry) : bool :=
  match e with
  | EFile n => forallb (fun c => negb (c =? slash)%N) n
  | EDir n sub =>
      forallb (fun c => negb (c =? slash)%N) n && forallb plain_names sub
  end.

(** * Worked examples *)

Module Demo.

(** An environment: the home directory is [/home/u], the API key is set, a
    PDF has three pages, the OCR service is out of quota for the second of
    them and answers blanks for the page of [blank.png], the tasks complete
    last page first, and a template renders as the text it is given. *)
Definition demo_env : env := {|
  expanduser := fun p => u "/home/u" ++ drop 1 p;
  abspath := fun p => u "/work/" ++ p;
  relpath := fun p _ => p;
  module_dir := u "/pkg";
  now_isoformat := u "2024-01-01T00:00:00";
  getenv_api_key := Some (u "secret");
  yaml_dump := fun _ => u "gemini: ...";
  yaml_safe_load := fun _ => inr (VDict []);
  genai_configure := fun _ => None;
  fitz_pages := fun _ => inr [Image [1%N]; Image [2%N]; Image [3%N]];
  image_open := fun p =>
    inr (if bool_decide (p = u "blank.png") then Image [9%N] else Image [7%N]);
  generate_content := fun _ _ img =>
    if bool_decide (samples img = [1%N]) then inr (u "first")
    else if bool_decide (samples img = [2%N])
         then inl (LibraryError (u "quota exceeded"))
    else if bool_decide (samples img = [3%N]) then inr (u "third")
    else if bool_decide (samples img = [9%N]) then inr (u "  ")
    else inr (u "hello");
  task_fault := fun _ => None;
  completion := fun _ => [2; 0; 0];
  jinja_render := fun _ context =>
    match context !! u "content" with
    | Some (VStr text) => inr text
    | _ => inl (LibraryError (u "content is undefined"))
    end;
  text_encode := fun _ text => Encoded text;
  str_lower := map (fun c => if bool_decide (c = 201%N) then 233%N
                             else lower_char c);
  template_not_found := fun dir name =>
    LibraryError (u "'" ++ name ++ u "' not found in search path: '"
                  ++ dir ++ u "'");
  glob_other := fun _ _ => []
|}.


(** The same as [demo_env], but the pool cancels the task of the second
    page. *)
Definition demo_env_fault : env := {|
  expanduser := expanduser demo_env;
  abspath := abspath demo_env;
  relpath := relpath demo_env;
  module_dir := module_dir demo_env;
  now_isoformat := now_isoformat demo_env;
  getenv_api_key := getenv_api_key demo_env;
  yaml_dump := yaml_dump demo_env;
  yaml_safe_load := yaml_safe_load demo_env;
  genai_configure := genai_configure demo_env;
  fitz_pages := fitz_pages demo_env;
  image_open := image_open demo_env;
  generate_content := generate_content demo_env;
  task_fault := fun i =>
    if bool_decide (i = 1) then Some (LibraryError (u "cancelled")) else None;
  completion := completion demo_env;
  jinja_render := jinja_render demo_env;
  text_encode := text_encode demo_env;
  str_lower := str_lower demo_env;
  template_not_found := template_not_found demo_env;
  glob_other := glob_other demo_env
|}.

Definition demo_tree : list entry :=
  [EFile (u "a.pdf"); EFile (u "b.Pdf"); EFile (u ".c.pdf");
   EDir (u "d.pdf") [];
   EDir (u "sub")
     [EFile (u "e.PNG");
      EDir (u ".hid") [EFile (u "f.jpg")];
      EDir (u "deep") [EFile (u "g.jpeg")]]].

(** A world with an image, an output directory, a directory of notes and no
    template file. *)
Definition demo_world : world := {|
  w_files := {[ u "note.png" := [] ]};
  w_dirs := <[u "notes" := demo_tree]> {[ u "out" := [] ]};
  w_log := []
|}.

(** The same with a configuration file at the default path. *)
Definition demo_world_config : world := {|
  w_files := <[u "/home/u/.config/handwrite/config.yaml" := u "{}"]>
               (w_files demo_world);
  w_dirs := w_dirs demo_world;
  w_log := []
|}.

Definition demo_pages : list image := [Image [1%N]; Image [2%N]; Image [3%N]].

(** The world of [demo_world] with the home directory of the user, and
    the same with a regular file where the directory of the configuration
    has to be. *)
Definition demo_world_home : world := {|
  w_files := w_files demo_world;
  w_dirs := <[u "/home/u" := []]> (w_dirs demo_world);
  w_log := []
|}.

Definition demo_world_blocked : world := {|
  w_files := <[u "/home/u/.config/handwrite" := []]> (w_files demo_world);
  w_dirs := <[u "/home/u/.config" := [EFile (u "handwrite")]]>
              (<[u "/home/u" := [EDir (u ".config") [EFile (u "handwrite")]]]>
                 (w_dirs demo_world));
  w_log := []
|}.

(** A world with a PDF, an output directory and no template file. *)
Definition demo_world_scan : world := {|
  w_files := {[ u "scan.pdf" := [] ]};
  w_dirs := {[ u "out" := [] ]};
  w_log := []
|}.

(** A configuration with the packaged template, and a world that has the
    template file, the image and the output directory. *)
Definition demo_config : pyval := config_with_prompt demo_env (u "Transcribe.").

Definition demo_world_template : world := {|
  w_files := <[u "/pkg/templates/note_template.md" := u "{{ content }}"]>
               (w_files demo_world);
  w_dirs := w_dirs demo_world;
  w_log := []
|}.

(** A configuration whose template variables name a parameter of
    [render_markdown]. *)
Definition demo_config_reserved : pyval :=
  VDict [
    (u "gemini", VDict [
       (u "model", VStr (u "gemini-1.5-pro"));
       (u "prompt", VStr (u "Transcribe."))]);
    (u "template", VDict [
       (u "path", VStr (u "/pkg/templates/note_template.md"));
       (u "variables", VDict [(u "encoding", VStr (u "latin-1"))])])].

(** An environment with another YAML library, and one with another codec
    table. *)
Definition with_yaml (dump : pyval -> list N) (load : list N -> exn + pyval)
    (E : env) : env := {|
  expanduser := expanduser E;
  abspath := abspath E;
  relpath := relpath E;
  module_dir := module_dir E;
  now_isoformat := now_isoformat E;
  getenv_api_key := getenv_api_key E;
  yaml_dump := dump;
  yaml_safe_load := load;
  genai_configure := genai_configure E;
  fitz_pages := fitz_pages E;
  image_open := image_open E;
  generate_content := generate_content E;
  task_fault := task_fault E;
  completion := completion E;
  jinja_render := jinja_render E;
  text_encode := text_encode E;
  str_lower := str_lower E;
  template_not_found := template_not_found E;
  glob_other := glob_other E
|}.

Definition with_text_encode (encode : pyval -> pystr -> encoded) (E : env)
  : env := {|
  expanduser := expanduser E;
  abspath := abspath E;
  relpath := relpath E;
  module_dir := module_dir E;
  now_isoformat := now_isoformat E;
  getenv_api_key := getenv_api_key E;
  yaml_dump := yaml_dump E;
  yaml_safe_load := yaml_safe_load E;
  genai_configure := genai_configure E;
  fitz_pages := fitz_pages E;
  image_open := image_open E;
  generate_content := generate_content E;
  task_fault := task_fault E;
  completion := completion E;
  jinja_render := jinja_render E;
  text_encode := encode;
  str_lower := str_lower E;
  template_not_found := template_not_found E;
  glob_other := glob_other E
|}.

(** The YAML library reads back what it has written, and nothing else. *)
Definition demo_env_yaml : env :=
  with_yaml
    (fun _ => u "gemini: ...")
    (fun data =>
       if bool_decide (data = u "gemini: ...")
       then inr (config_with_prompt demo_env setup_prompt)
       else inl (LibraryError (u "mapping values are not allowed here")))
    demo_env.

(** Only ASCII can be encoded. *)
Definition demo_env_ascii : env :=
  with_text_encode
    (fun _ text =>
       if forallb (fun c => c <? 128)%N text then Encoded text
       else CannotEncode (ValueError (u "'ascii' codec can't encode character")))
    demo_env.

(** A configuration whose template variables replace a built-in field and
    add one of their own. *)
Definition demo_config_vars : pyval :=
  VDict [
    (u "gemini", VDict [
       (u "model", VStr (u "gemini-1.5-pro"));
       (u "prompt", VStr (u "Transcribe."))]);
    (u "template", VDict [
       (u "path", VStr (u "/pkg/templates/note_template.md"));
       (u "variables", VDict [(u "filename", VStr (u "My note"));
                              (u "author", VStr (u "u"))])])].

End Demo.

Import Demo.

(** * Properties *)

#[global] Arguments u : simpl never.
#[global] Arguments str_of_nat : simpl never.
#[global] Arguments add_log : simpl never.
#[global] Arguments process_single_file : simpl never.
#[global] Arguments process_loop : simpl nomatch.

(** ** Running the monad *)

Lemma run_bind {A B} (m : M A) (f : A -> M B) (w : world) :
  (m ≫= f) w =
  match m w with
  | (Ret a, w') => f a w'
  | (Raise e, w') => (Raise e, w')
  | (Exit c, w') => (Exit c, w')
  end.
Proof. reflexivity. Qed.

Lemma run_bind_ret {A B} (m : M A) (f : A -> M B) w a w' :
  m w = (Ret a, w') -> (m ≫= f) w = f a w'.
Proof. intros H. rewrite run_bind, H. reflexivity. Qed.

Lemma run_bind_raise {A B} (m : M A) (f : A -> M B) w e w' :
  m w = (Raise e, w') -> (m ≫= f) w = (Raise e, w').
Proof. intros H. rewrite run_bind, H. reflexivity. Qed.

Lemma run_try_ret {A} (m : M A) h w a w' :
  m w = (Ret a, w') -> try_except m h w = (Ret a, w').
Proof. intros H. unfold try_except. rewrite H. reflexivity. Qed.

Lemma run_try_raise {A} (m : M A) h w e w' :
  m w = (Raise e, w') -> try_except m h w = h e w'.
Proof. intros H. unfold try_except. rewrite H. reflexivity. Qed.

Lemma run_log l msg w : log l msg w = (Ret tt, add_log l msg w).
Proof. reflexivity. Qed.

Lemma add_log_files l msg w : w_files (add_log l msg w) = w_files w.
Proof. unfold add_log. destruct (level_enabled l); reflexivity. Qed.

Lemma add_log_dirs l msg w : w_dirs (add_log l msg w) = w_dirs w.
Proof. unfold add_log. destruct (level_enabled l); reflexivity. Qed.

Lemma add_log_exists l msg w p :
  path_exists (add_log l msg w) p = path_exists w p.
Proof.
  unfold path_exists, isfile, isdir.
  rewrite add_log_files, add_log_dirs. reflexivity.
Qed.

Lemma add_log_log l msg w :
  w_log (add_log l msg w) =
  w_log w ++ (if level_enabled l then [LogRecord l msg] else []).
Proof.
  unfold add_log. destruct (level_enabled l); simpl; [reflexivity|].
  symmetry. apply app_nil_r.
Qed.

(** ** Configuration path resolution *)

(** C9. A [--config] argument that names no existing path is dropped without
    a word: [get_config_path] returns normally, leaves the world (log
    included) as it was, and answers the default path; the custom path is the
    answer only if it exists when the call is made, and it is the answer
    whenever it does and is not the empty string. *)
Theorem get_config_path_fallback (E : env) (p : pystr) (w : world) :
  ∃ q : pystr,
    get_config_path E (Some p) w = (Ret q, w)
    ∧ (path_exists w p = false -> q = default_config_path E)
    ∧ (q ≠ default_config_path E -> q = p ∧ path_exists w p = true)
    ∧ (path_exists w p = true -> p ≠ [] -> q = p).
Proof.
  unfold get_config_path.
  case_bool_decide as Hp.
  - rewrite run_bind. unfold os_path_exists.
    destruct (path_exists w p) eqn:Hex.
    + exists p. repeat split; try reflexivity; intros; congruence.
    + exists (default_config_path E).
      repeat split; try reflexivity; intros; congruence.
  - exists (default_config_path E).
    repeat split; try reflexivity; intros; congruence.
Qed.

(** ** The batch dispatcher *)

Section Dispatch.

Variable E : env.
Variables model_name prompt : pyval.

Local Abbreviation ocr_text_ := (ocr_text E model_name prompt).
Local Abbreviation page_text_ := (page_text E model_name prompt).
Local Abbreviation page_texts_ := (page_texts E model_name prompt).
Local Abbreviation page_future_ := (page_future E model_name prompt).
Local Abbreviation page_futures_ := (page_futures E model_name prompt).
Local Abbreviation page_items_ := (page_items E model_name prompt).

Lemma logged_only_refl keep w : logged_only keep w w.
Proof.
  repeat split. exists []. split; [symmetry; apply app_nil_r | constructor].
Qed.

Lemma logged_only_trans keep w1 w2 w3 :
  logged_only keep w1 w2 -> logged_only keep w2 w3 -> logged_only keep w1 w3.
Proof.
  intros (Hf1 & Hd1 & x1 & Hl1 & Hk1) (Hf2 & Hd2 & x2 & Hl2 & Hk2).
  split; [congruence|]. split; [congruence|].
  exists (x1 ++ x2). split.
  - rewrite Hl2, Hl1. symmetry. apply app_assoc.
  - apply Forall_app. split; assumption.
Qed.

Lemma logged_only_add_log keep l msg w :
  keep l = true -> logged_only keep w (add_log l msg w).
Proof.
  intros Hl. split; [apply add_log_files|]. split; [apply add_log_dirs|].
  eexists. split; [apply add_log_log|].
  destruct (level_enabled l); repeat constructor. exact Hl.
Qed.

Lemma only_logged_refl w : only_logged w w.
Proof. apply logged_only_refl. Qed.

Lemma only_logged_trans w1 w2 w3 :
  only_logged w1 w2 -> only_logged w2 w3 -> only_logged w1 w3.
Proof. apply logged_only_trans. Qed.

Lemma only_logged_add_log l msg w : only_logged w (add_log l msg w).
Proof. apply logged_only_add_log. reflexivity. Qed.

Lemma ocr_image_with_gemini_run img w :
  ∃ w', ocr_image_with_gemini E img model_name prompt w = (Ret (ocr_text_ img), w')
        ∧ only_logged w w'.
Proof.
  unfold ocr_image_with_gemini, ocr_text_, try_except.
  destruct (generate_content E model_name prompt img) as [e|text]; simpl.
  - rewrite run_bind, run_log. eexists. split; [reflexivity|].
    apply only_logged_add_log.
  - eexists. split; [reflexivity | apply only_logged_refl].
Qed.

Lemma executor_submit_run i img w :
  ∃ w', executor_submit E i (ocr_image_with_gemini E img model_name prompt) w
        = (Ret (page_future_ i img), w')
        ∧ only_logged w w'.
Proof.
  unfold executor_submit, page_future_.
  destruct (task_fault E i) as [e|].
  - eexists. split; [reflexivity | apply only_logged_refl].
  - destruct (ocr_image_with_gemini_run img w) as (w' & Hrun & Hlog).
    rewrite Hrun. eexists. split; [reflexivity | assumption].
Qed.

Lemma submit_pages_run images : ∀ k w,
  ∃ w', submit_pages E k images model_name prompt w
        = (Ret (imap (fun j img => (page_future_ (k + j) img, k + j)) images), w')
        ∧ only_logged w w'.
Proof.
  induction images as [|img rest IH]; intros k w; simpl.
  - eexists. split; [reflexivity | apply only_logged_refl].
  - destruct (executor_submit_run k img w) as (w1 & Hrun1 & Hlog1).
    rewrite run_bind, Hrun1.
    destruct (IH (S k) w1) as (w2 & Hrun2 & Hlog2).
    rewrite run_bind, Hrun2. simpl.
    eexists. split; [|eapply only_logged_trans; eassumption].
    unfold mret, M_ret. do 2 f_equal.
    rewrite Nat.add_0_r. f_equal.
    apply imap_ext. intros j x _. simpl.
    replace (S (k + j)) with (k + S j) by lia. reflexivity.
Qed.

Lemma page_items_fst images : map fst (page_items_ images) = page_futures_ images.
Proof.
  unfold page_items_, page_futures_.
  apply list_eq. intros i.
  rewrite list_lookup_fmap, !list_lookup_imap.
  destruct (images !! i); reflexivity.
Qed.

Lemma page_futures_ids images :
  map fut_id (page_futures_ images) = seq 0 (length images).
Proof.
  unfold page_futures_. apply list_eq. intros i.
  rewrite list_lookup_fmap, list_lookup_imap.
  destruct (images !! i) as [img|] eqn:Hi; simpl.
  - symmetry. apply lookup_seq. split; [reflexivity|].
    eapply lookup_lt_Some. eassumption.
  - symmetry. apply lookup_seq_ge. apply lookup_ge_None. assumption.
Qed.

Lemma page_dict_lookup images i :
  i < length images -> page_dict (page_items_ images) !! i = Some i.
Proof.
  intros Hi. unfold page_dict.
  apply elem_of_list_to_map_1.
  - rewrite <- list_fmap_compose.
    replace (map (fst ∘ _) (page_items_ images))
      with (map fut_id (page_futures_ images)).
    + rewrite page_futures_ids. apply NoDup_seq.
    + rewrite <- page_items_fst, <- list_fmap_compose. reflexivity.
  - destruct (lookup_lt_is_Some_2 images i Hi) as [img Himg].
    apply list_elem_of_fmap. exists (page_future_ i img, i). split; [reflexivity|].
    apply list_elem_of_lookup. exists i.
    unfold page_items_. rewrite list_lookup_imap, Himg. reflexivity.
Qed.

Lemma page_futures_elem images f :
  f ∈ page_futures_ images ->
  ∃ i img, images !! i = Some img ∧ f = page_future_ i img.
Proof.
  intros Hin. apply list_elem_of_lookup in Hin as [i Hi].
  unfold page_futures_ in Hi. rewrite list_lookup_imap in Hi.
  destruct (images !! i) as [img|] eqn:Himg; [|discriminate].
  exists i, img. split; [exact Himg|]. simpl in Hi. congruence.
Qed.

Lemma future_text_page i img : future_text (page_future_ i img) = page_text_ i img.
Proof.
  unfold future_text, page_future_, page_text_. simpl.
  destruct (task_fault E i); reflexivity.
Qed.

Lemma length_foldl_store order : ∀ results,
  length (foldl store results order) = length results.
Proof.
  induction order as [|f rest IH]; intros results; simpl; [reflexivity|].
  rewrite IH. apply length_insert.
Qed.

(** One turn of the loop: the future's text goes to its own page index. *)
Lemma collect_step i img results w :
  i < length results ->
  ∃ w',
    try_except
      (text ← future_result (page_future_ i img);
       page_results ← list_setitem results i text;
       log DEBUG (u "Successfully processed page " ++ str_of_nat (i + 1));;
       mret page_results)
      (fun exc =>
         let error_msg := page_error_msg i exc in
         page_results ← list_setitem results i error_msg;
         log ERROR error_msg;;
         mret page_results) w
    = (Ret (store results (page_future_ i img)), w')
    ∧ only_logged w w'.
Proof.
  intros Hi.
  unfold try_except, store, future_text, page_future_, future_result, list_setitem.
  simpl fut_outcome. simpl fut_id.
  destruct (task_fault E i) as [e|].
  - rewrite run_bind. rewrite run_bind.
    destruct (decide (i < length results)) as [_|Hno]; [|lia].
    unfold mret at 1, M_ret at 1. rewrite run_bind, run_log.
    eexists. split; [reflexivity | apply only_logged_add_log].
  - rewrite run_bind. rewrite run_bind.
    destruct (decide (i < length results)) as [_|Hno]; [|lia].
    unfold mret at 1, M_ret at 1. rewrite run_bind, run_log.
    eexists. split; [reflexivity | apply only_logged_add_log].
Qed.

Lemma collect_results_run images : ∀ order results w,
  (∀ f, f ∈ order -> f ∈ page_futures_ images) ->
  length results = length images ->
  ∃ w',
    collect_results (page_dict (page_items_ images)) order results w
    = (Ret (foldl store results order), w')
    ∧ only_logged w w'.
Proof.
  induction order as [|f rest IH]; intros results w Hin Hlen.
  - eexists. split; [reflexivity | apply only_logged_refl].
  - assert (Hf : f ∈ page_futures_ images) by (apply Hin; left).
    destruct (page_futures_elem images f Hf) as (i & img & Himg & ->).
    assert (Hi : i < length images) by (eapply lookup_lt_Some; eassumption).
    destruct (collect_step i img results w) as (w1 & Hrun1 & Hlog1); [lia|].
    destruct (IH (store results (page_future_ i img)) w1) as (w2 & Hrun2 & Hlog2).
    { intros g Hg. apply Hin. right. assumption. }
    { unfold store. rewrite length_insert. assumption. }
    exists w2. split; [|eapply only_logged_trans; eassumption].
    simpl collect_results. simpl fut_id.
    rewrite (page_dict_lookup images i Hi).
    rewrite run_bind. simpl lift. unfold mret at 1, M_ret at 1.
    erewrite run_bind_ret by exact Hrun1.
    exact Hrun2.
Qed.

Lemma foldl_store_other order : ∀ results i,
  i ∉ map fut_id order ->
  foldl store results order !! i = results !! i.
Proof.
  induction order as [|f rest IH]; intros results i Hnot; simpl; [reflexivity|].
  simpl in Hnot. apply not_elem_of_cons in Hnot as [Hne Hrest].
  rewrite (IH _ _ Hrest). unfold store.
  apply list_lookup_insert_ne. congruence.
Qed.

Lemma foldl_store_own order : ∀ results f,
  NoDup (map fut_id order) ->
  f ∈ order ->
  fut_id f < length results ->
  foldl store results order !! fut_id f = Some (future_text f).
Proof.
  induction order as [|g rest IH]; intros results f Hnd Hin Hlen; simpl.
  - inversion Hin.
  - simpl in Hnd. apply NoDup_cons in Hnd as [Hg Hnd].
    apply elem_of_cons in Hin as [->|Hin].
    + rewrite (foldl_store_other rest _ _ Hg). unfold store.
      apply list_lookup_insert_eq. assumption.
    + apply IH; try assumption.
      unfold store. rewrite length_insert. assumption.
Qed.

(** Whatever the order of completion, the loop leaves the text of page [i]
    at index [i], for every page. *)
Lemma foldl_store_permutation images order results :
  order ≡ₚ page_futures_ images ->
  length results = length images ->
  foldl store results order = page_texts_ images.
Proof.
  intros Hperm Hlen. apply list_eq. intros i.
  unfold page_texts_. rewrite list_lookup_imap.
  destruct (images !! i) as [img|] eqn:Himg; simpl.
  - assert (Hin : page_future_ i img ∈ order).
    { rewrite Hperm. apply list_elem_of_lookup. exists i.
      unfold page_futures_. rewrite list_lookup_imap, Himg. reflexivity. }
    rewrite <- future_text_page.
    apply (foldl_store_own order results (page_future_ i img)); try assumption.
    + rewrite Hperm, page_futures_ids. apply NoDup_seq.
    + simpl. rewrite Hlen. eapply lookup_lt_Some. eassumption.
  - apply lookup_ge_None. rewrite length_foldl_store, Hlen.
    apply lookup_ge_None. assumption.
Qed.

End Dispatch.

(** ** The completion order *)

(** Every schedule completes each pending future once... *)
Lemma pick_order_permutation {A} (n : nat) : ∀ (sched : list nat) (pending : list A),
  length pending = n -> pick_order n sched pending ≡ₚ pending.
Proof.
  induction n as [|n IH]; intros sched pending Hlen; simpl.
  - destruct pending; [reflexivity | discriminate].
  - assert (Hc : hd 0 sched `mod` length pending < length pending).
    { apply Nat.mod_upper_bound. lia. }
    destruct (lookup_lt_is_Some_2 _ _ Hc) as [x Hx]. rewrite Hx.
    etransitivity; [|symmetry; apply (delete_Permutation pending _ x Hx)].
    constructor. apply IH.
    rewrite length_delete by eauto. lia.
Qed.

Lemma as_completed_permutation {A} (sched : list nat) (futures : list A) :
  as_completed sched futures ≡ₚ futures.
Proof. apply pick_order_permutation. reflexivity. Qed.

(** ... and every order of completion is the one of some schedule. *)
Lemma as_completed_any_order {A} (order : list A) : ∀ futures : list A,
  order ≡ₚ futures -> ∃ sched, as_completed sched futures = order.
Proof.
  unfold as_completed.
  induction order as [|x rest IH]; intros futures Hperm.
  - apply Permutation_nil in Hperm. subst futures. exists []. reflexivity.
  - assert (Hx : x ∈ futures) by (rewrite <- Hperm; left).
    apply list_elem_of_lookup in Hx as [c Hc].
    assert (Hlt : c < length futures) by (eapply lookup_lt_Some; eassumption).
    assert (Hrest : rest ≡ₚ delete c futures).
    { apply (Permutation_cons_inv (a := x)).
      rewrite Hperm. apply delete_Permutation. assumption. }
    destruct (IH _ Hrest) as [sched Hsched].
    exists (c :: sched).
    destruct futures as [|y futures']; [simpl in Hlt; lia|].
    cbn [length pick_order hd tl].
    rewrite Nat.mod_small by exact Hlt.
    rewrite Hc. f_equal.
    rewrite <- Hsched. f_equal.
    rewrite length_delete by eauto. simpl. lia.
Qed.

Lemma dispatch_pages_run E sched images model_name prompt w :
  ∃ w', dispatch_pages E sched images model_name prompt w
        = (Ret (page_texts E model_name prompt images), w')
        ∧ only_logged w w'.
Proof.
  unfold dispatch_pages.
  destruct (submit_pages_run E model_name prompt images 0 w) as (w1 & Hrun1 & Hlog1).
  change (imap _ images) with (page_items E model_name prompt images) in Hrun1.
  rewrite run_bind, Hrun1, page_items_fst.
  set (order := as_completed sched (page_futures E model_name prompt images)).
  assert (Hperm : order ≡ₚ page_futures E model_name prompt images)
    by apply as_completed_permutation.
  destruct (collect_results_run E model_name prompt images order
              (map (fun _ => []) images) w1) as (w2 & Hrun2 & Hlog2).
  { intros f Hf. rewrite <- Hperm. assumption. }
  { apply length_map. }
  exists w2. split; [|eapply only_logged_trans; eassumption].
  rewrite Hrun2. f_equal. f_equal.
  apply foldl_store_permutation; [assumption | apply length_map].
Qed.

(** ** One document *)

Lemma get_images_run E input_path w :
  ∃ w', get_images E input_path w = (Ret (images_of E input_path), w')
        ∧ only_logged w w'.
Proof.
  unfold get_images, images_of.
  repeat case_bool_decide.
  - destruct (fitz_pages E input_path).
    + rewrite run_bind, run_log. eexists. split; [reflexivity|].
      apply only_logged_add_log.
    + eexists. split; [reflexivity | apply only_logged_refl].
  - destruct (image_open E input_path).
    + rewrite run_bind, run_log. eexists. split; [reflexivity|].
      apply only_logged_add_log.
    + eexists. split; [reflexivity | apply only_logged_refl].
  - rewrite run_bind, run_log. eexists. split; [reflexivity|].
    apply only_logged_add_log.
Qed.

(** [process_single_file] up to line 184: with no page, or without a model
    or a prompt, the document has failed; otherwise the merged text, pages
    in source order, is what goes on to be rendered. *)
Lemma process_single_file_run E input_path out config w :
  ∃ w', only_logged w w' ∧
    process_single_file E input_path out config w =
    if bool_decide (images_of E input_path = []) then (Ret false, w')
    else
      match config_model config, config_prompt config with
      | inr model_name, inr prompt =>
          try_except
            (finish_document E input_path out config model_name
               (images_of E input_path)
               (document_text E input_path model_name prompt))
            (document_failed input_path) w'
      | inl e, _ | _, inl e => (Ret false, w')
      end.
Proof.
  unfold process_single_file, config_model, config_prompt, document_text.
  destruct (get_images_run E input_path w) as (w1 & Hrun1 & Hlog1).
  unfold try_except at 1. rewrite run_bind, Hrun1.
  case_bool_decide as Himg.
  - rewrite run_bind, run_log. eexists. split; [|reflexivity].
    eapply only_logged_trans; [eassumption | apply only_logged_add_log].
  - rewrite run_bind, run_log.
    set (w2 := add_log INFO _ w1).
    assert (Hlog2 : only_logged w w2).
    { eapply only_logged_trans; [eassumption | apply only_logged_add_log]. }
    destruct (getitem config (u "gemini")) as [e|gemini].
    { simpl. unfold document_failed. rewrite run_bind, run_log.
      eexists. split; [|reflexivity].
      eapply only_logged_trans; [eassumption | apply only_logged_add_log]. }
    rewrite run_bind. simpl lift. unfold mret at 1, M_ret at 1.
    destruct (getitem gemini (u "model")) as [e|model_name].
    { simpl. unfold document_failed. rewrite run_bind, run_log.
      eexists. split; [|reflexivity].
      eapply only_logged_trans; [eassumption | apply only_logged_add_log]. }
    rewrite run_bind. simpl lift. unfold mret at 1, M_ret at 1.
    rewrite run_bind. unfold mret at 1, M_ret at 1.
    destruct (getitem gemini (u "prompt")) as [e|prompt].
    { simpl. unfold document_failed. rewrite run_bind, run_log.
      eexists. split; [|reflexivity].
      eapply only_logged_trans; [eassumption | apply only_logged_add_log]. }
    rewrite run_bind. simpl lift. unfold mret at 1, M_ret at 1.
    destruct (dispatch_pages_run E (completion E input_path)
                (images_of E input_path) model_name prompt w2)
      as (w3 & Hrun3 & Hlog3).
    rewrite run_bind, Hrun3.
    exists w3. split; [eapply only_logged_trans; eassumption|].
    unfold try_except. reflexivity.
Qed.

(** A text put in front of the first page stays in front of the merged
    text. *)
Lemma joined_prefix (rest : list pystr) : ∀ prefix first : pystr,
  fold_left (fun merged text => merged ++ [10%N; 10%N] ++ text) rest
    (prefix ++ first)
  = prefix
    ++ fold_left (fun merged text => merged ++ [10%N; 10%N] ++ text) rest first.
Proof.
  induction rest as [|text rest IH]; intros prefix first; simpl; [reflexivity|].
  rewrite <- app_assoc. apply IH.
Qed.

(** ["\n\n".join(page_results)] is the merged text as the specification
    words it. *)
Lemma str_join_page_separator (texts : list pystr) :
  str_join page_separator texts = joined_by_blank_line texts.
Proof.
  induction texts as [|first rest IH]; [reflexivity|].
  destruct rest as [|second rest]; [reflexivity|].
  change (str_join page_separator (first :: second :: rest))
    with (first ++ page_separator ++ str_join page_separator (second :: rest)).
  rewrite IH. unfold joined_by_blank_line. cbn [fold_left].
  rewrite (joined_prefix rest first ([10%N; 10%N] ++ second)).
  rewrite (joined_prefix rest [10%N; 10%N] second).
  reflexivity.
Qed.

(** C1. Page order survives any completion order. Let the futures of the
    pages complete in any order whatsoever: the loop of the dispatcher leaves
    the text of every page at the page's own index, so the result sequence
    lists the page texts in source order. Every such order is the one of some
    schedule of the pool, and under every schedule [dispatch_pages] returns
    that same sequence. The full text [process_single_file] goes on with is
    the concatenation of this sequence in page order, two line feeds (a
    blank line) between one page and the next. Up to there nothing has
    changed but the log: no file, no directory. *)
Theorem results_in_page_order (E : env) (model_name prompt : pyval)
    (images : list image) (order : list future) (w : world) :
  order ≡ₚ page_futures E model_name prompt images ->
  (∃ w',
     collect_results (page_dict (page_items E model_name prompt images)) order
       (map (fun _ => []) images) w
     = (Ret (page_texts E model_name prompt images), w')
     ∧ only_logged w w')
  ∧ (∃ sched, as_completed sched (page_futures E model_name prompt images) = order)
  ∧ (∀ sched, ∃ w',
       dispatch_pages E sched images model_name prompt w
       = (Ret (page_texts E model_name prompt images), w')
       ∧ only_logged w w')
  ∧ (∀ input_path out config,
       images_of E input_path = images -> images ≠ [] ->
       config_model config = inr model_name ->
       config_prompt config = inr prompt ->
       ∃ w',
         only_logged w w'
         ∧ process_single_file E input_path out config w
           = try_except
               (finish_document E input_path out config model_name images
                  (joined_by_blank_line
                     (page_texts E model_name prompt images)))
               (document_failed input_path) w').
Proof.
  intros Hperm. split; [|split; [|split]].
  - destruct (collect_results_run E model_name prompt images order
                (map (fun _ => []) images) w) as (w' & Hrun & Hlog).
    { intros f Hf. rewrite <- Hperm. assumption. }
    { apply length_map. }
    exists w'. split; [|exact Hlog]. rewrite Hrun. do 2 f_equal.
    apply foldl_store_permutation; [assumption | apply length_map].
  - apply as_completed_any_order. assumption.
  - intros sched.
    destruct (dispatch_pages_run E sched images model_name prompt w)
      as (w' & Hrun & Hlog).
    exists w'. split; [exact Hrun | exact Hlog].
  - intros input_path out config Himg Hne Hmodel Hprompt.
    destruct (process_single_file_run E input_path out config w)
      as (w' & Hlog & Hrun).
    exists w'. split; [exact Hlog|]. rewrite Hrun. unfold document_text.
    rewrite Himg, Hmodel, Hprompt, str_join_page_separator.
    rewrite bool_decide_eq_false_2 by assumption. reflexivity.
Qed.

(** C2. The result sequence is complete. Under every schedule the batch
    dispatch returns (no failure of a task ends it early), the result
    sequence has one entry per page, a page whose task raised holds the
    error-message placeholder of that page, and every other page holds the
    answer of its own transcription. *)
Theorem dispatch_fills_every_page (E : env) (sched : list nat)
    (images : list image) (model_name prompt : pyval) (w : world) :
  ∃ page_results w',
    dispatch_pages E sched images model_name prompt w = (Ret page_results, w')
    ∧ length page_results = length images
    ∧ (∀ i img e, images !! i = Some img -> task_fault E i = Some e ->
         page_results !! i = Some (page_error_msg i e))
    ∧ (∀ i img, images !! i = Some img -> task_fault E i = None ->
         page_results !! i = Some (ocr_text E model_name prompt img)).
Proof.
  destruct (dispatch_pages_run E sched images model_name prompt w)
    as (w' & Hrun & _).
  exists (page_texts E model_name prompt images), w'.
  split; [exact Hrun|]. unfold page_texts. split; [apply length_imap|].
  split.
  - intros i img e Himg He.
    rewrite list_lookup_imap, Himg. simpl. unfold page_text. rewrite He.
    reflexivity.
  - intros i img Himg Hnone.
    rewrite list_lookup_imap, Himg. simpl. unfold page_text. rewrite Hnone.
    reflexivity.
Qed.


(** ** Empty and whitespace-only text *)

Lemma lstrip_nil_iff (s : pystr) : lstrip s = [] <-> forallb is_space s = true.
Proof.
  induction s as [|c s IH]; simpl; [tauto|].
  destruct (is_space c); simpl; [exact IH|].
  split; discriminate.
Qed.

Lemma forallb_lstrip (s : pystr) :
  forallb is_space (lstrip s) = true -> forallb is_space s = true.
Proof.
  induction s as [|c s IH]; simpl; [tauto|].
  destruct (is_space c) eqn:Hc; simpl; [exact IH|].
  rewrite Hc. discriminate.
Qed.

Lemma forallb_rev (f : N -> bool) (s : pystr) :
  forallb f (rev s) = forallb f s.
Proof.
  induction s as [|c s IH]; simpl; [reflexivity|].
  rewrite forallb_app, IH. simpl. rewrite andb_true_r. apply andb_comm.
Qed.

(** [s.strip()] is falsy exactly for the empty and the whitespace-only
    strings. *)
Lemma strip_nil_iff (s : pystr) : strip s = [] <-> forallb is_space s = true.
Proof.
  unfold strip, rstrip. split.
  - intros H. apply forallb_lstrip.
    rewrite <- forallb_rev. apply lstrip_nil_iff.
    destruct (lstrip (rev (lstrip s))); [reflexivity|].
    apply (f_equal (@length N)) in H. rewrite length_rev in H. discriminate.
  - intros H. apply lstrip_nil_iff in H. rewrite H. reflexivity.
Qed.

(** Pages that are all blank merge into a blank document. *)
Lemma str_join_blank (parts : list pystr) :
  Forall (fun t => forallb is_space t = true) parts ->
  forallb is_space (str_join page_separator parts) = true.
Proof.
  induction 1 as [|t rest Ht Hrest IH]; [reflexivity|].
  destruct rest as [|t' rest']; [exact Ht|].
  change (str_join page_separator (t :: t' :: rest'))
    with (t ++ page_separator ++ str_join page_separator (t' :: rest')).
  rewrite !forallb_app, Ht, IH. reflexivity.
Qed.

(** ** What a document's processing can do *)

Lemma no_exit_ret {A} (a : A) : no_exit (mret a).
Proof. intros w. exists w. left. exists a. reflexivity. Qed.

Lemma no_exit_raise {A} (e : exn) : no_exit (raise e : M A).
Proof. intros w. exists w. right. exists e. reflexivity. Qed.

Lemma no_exit_lift {A} (x : exn + A) : no_exit (lift x).
Proof. destruct x; [apply no_exit_raise | apply no_exit_ret]. Qed.

Lemma no_exit_log l msg : no_exit (log l msg).
Proof. intros w. eexists. left. exists tt. apply run_log. Qed.

Lemma no_exit_bind {A B} (m : M A) (f : A -> M B) :
  no_exit m -> (∀ a, no_exit (f a)) -> no_exit (m ≫= f).
Proof.
  intros Hm Hf w. destruct (Hm w) as (w1 & [[a Ha]|[e He]]).
  - destruct (Hf a w1) as (w2 & H). exists w2.
    rewrite (run_bind_ret _ _ _ _ _ Ha). exact H.
  - exists w1. right. exists e. apply run_bind_raise. exact He.
Qed.

Lemma no_exit_try {A} (m : M A) (h : exn -> M A) :
  no_exit m -> (∀ e, no_exit (h e)) -> no_exit (try_except m h).
Proof.
  intros Hm Hh w. destruct (Hm w) as (w1 & [[a Ha]|[e He]]).
  - exists w1. left. exists a. apply run_try_ret. exact Ha.
  - destruct (Hh e w1) as (w2 & H). exists w2.
    rewrite (run_try_raise _ _ _ _ _ He). exact H.
Qed.

Lemma no_exit_write_file path data : no_exit (write_file path data).
Proof.
  intros w. unfold write_file. exists (write_file path data w).2.
  unfold write_file. case_bool_decide; [right; eexists; reflexivity|].
  destruct (isdir w path); [right; eexists; reflexivity|].
  destruct (parent_error w path); [right | left]; eexists; reflexivity.
Qed.

(** The body of the [try] of [render_markdown]. *)
Ltac no_exit_render_body :=
  apply no_exit_bind;
  [ match goal with
    | |- no_exit (as_path ?v) =>
        unfold as_path; destruct v; first [apply no_exit_ret | apply no_exit_raise]
    end
  | intros ?path; apply no_exit_bind;
    [ let w' := fresh "w" in
      intros w'; unfold jinja_get_template; exists w';
      case_bool_decide; [right; eexists; reflexivity|];
      destruct (w_files w' !! _); [left | right]; eexists; reflexivity
    | intros ?template; apply no_exit_bind; [apply no_exit_lift|];
      intros ?content; apply no_exit_bind; [|intros _; apply no_exit_log];
      unfold write_text;
      match goal with
      | |- no_exit (match ?enc with _ => _ end) => destruct enc
      end;
      [ apply no_exit_raise
      | apply no_exit_bind; [apply no_exit_write_file|];
        intros _; apply no_exit_raise
      | apply no_exit_bind; [apply no_exit_write_file|];
        intros _; apply no_exit_raise
      | apply no_exit_write_file ] ] ].

Lemma no_exit_render_markdown E template_path output_path encoding context :
  no_exit (render_markdown E template_path output_path encoding context).
Proof.
  unfold render_markdown. apply no_exit_try; [|intros e; apply no_exit_log].
  no_exit_render_body.
Qed.

(** [render_markdown] has one way out: it returns [None], whether the note
    was written or the rendering failed and was logged. *)
Lemma render_markdown_returns E template_path output_path encoding context w :
  ∃ w', render_markdown E template_path output_path encoding context w = (Ret tt, w').
Proof.
  unfold render_markdown.
  match goal with
  | |- context [try_except ?m _] => assert (Hbody : no_exit m) by no_exit_render_body
  end.
  destruct (Hbody w) as (w1 & [[[] Hret]|[e Hraise]]).
  - exists w1. apply run_try_ret. exact Hret.
  - rewrite (run_try_raise _ _ _ _ _ Hraise). rewrite run_log. eauto.
Qed.

Lemma no_exit_finish_document E input_path out config model_name images text :
  no_exit (finish_document E input_path out config model_name images text).
Proof.
  unfold finish_document. case_bool_decide.
  - apply no_exit_bind; [apply no_exit_lift|]. intros template.
    apply no_exit_bind; [apply no_exit_lift|]. intros has_variables.
    apply no_exit_bind.
    { destruct has_variables; [|apply no_exit_ret].
      apply no_exit_bind; [apply no_exit_lift|]. intros template'.
      apply no_exit_bind; [apply no_exit_lift|]. intros variables.
      apply no_exit_lift. }
    intros context.
    apply no_exit_bind; [apply no_exit_lift|]. intros template'.
    apply no_exit_bind; [apply no_exit_lift|]. intros template_path.
    apply no_exit_bind; [apply no_exit_lift|]. intros output.
    apply no_exit_bind; [apply no_exit_lift|]. intros encoding.
    apply no_exit_bind; [|intros _; apply no_exit_ret].
    unfold call_render_markdown.
    destruct (_ || _ || _); [apply no_exit_raise|].
    apply no_exit_render_markdown.
  - apply no_exit_bind; [apply no_exit_log | intros _; apply no_exit_ret].
Qed.

(** A document never ends the run: [process_single_file] returns [True] or
    [False], whatever happens inside. *)
Lemma process_single_file_returns E input_path out config w :
  ∃ ok w', process_single_file E input_path out config w = (Ret ok, w').
Proof.
  destruct (process_single_file_run E input_path out config w) as (w1 & _ & ->).
  assert (Hdone : ∀ model_name prompt, ∃ ok w',
    try_except
      (finish_document E input_path out config model_name
         (images_of E input_path) (document_text E input_path model_name prompt))
      (document_failed input_path) w1 = (Ret ok, w')).
  { intros model_name prompt.
    destruct (no_exit_finish_document E input_path out config model_name
                (images_of E input_path)
                (document_text E input_path model_name prompt) w1)
      as (w2 & [[ok Hok]|[e He]]).
    - exists ok, w2. apply run_try_ret. exact Hok.
    - rewrite (run_try_raise _ _ _ _ _ He). unfold document_failed.
      rewrite run_bind, run_log. eexists _, _. reflexivity. }
  case_bool_decide; [eauto|].
  destruct (config_model config), (config_prompt config); eauto.
Qed.

Lemma process_loop_step E input_path rest out config successful failed w ok w' :
  process_single_file E input_path out config
    (add_log INFO (u "Processing: " ++ input_path) w) = (Ret ok, w') ->
  process_loop E (input_path :: rest) out config successful failed w =
  if ok then process_loop E rest out config (successful + 1) failed w'
  else process_loop E rest out config successful (failed + 1) w'.
Proof.
  intros Hrun. simpl process_loop.
  erewrite run_bind_ret by apply run_log.
  erewrite run_bind_ret by exact Hrun.
  destruct ok; reflexivity.
Qed.

(** C4. A blank document fails and nothing is written. If the merged text of
    a document is empty or whitespace-only (for the model and the prompt the
    configuration names), [process_single_file] returns [False] and leaves
    every file and directory as it was; the batch counts one more failure and
    goes on with the documents that remain. *)
Theorem blank_document_fails (E : env) (input_path out : pystr)
    (config : pyval) (w : world) :
  (∀ model_name prompt,
     config_model config = inr model_name ->
     config_prompt config = inr prompt ->
     forallb is_space (document_text E input_path model_name prompt) = true) ->
  (∃ w', process_single_file E input_path out config w = (Ret false, w')
         ∧ only_logged w w')
  ∧ (∀ rest successful failed, ∃ w',
       only_logged w w'
       ∧ process_loop E (input_path :: rest) out config successful failed w
         = process_loop E rest out config successful (failed + 1) w').
Proof.
  intros Hblank.
  assert (Hfail : ∀ w0, ∃ w',
    process_single_file E input_path out config w0 = (Ret false, w')
    ∧ only_logged w0 w').
  { intros w0.
    destruct (process_single_file_run E input_path out config w0)
      as (w1 & Hlog & ->).
    case_bool_decide; [eauto|].
    destruct (config_model config) as [e|model_name] eqn:Hm; [eauto|].
    destruct (config_prompt config) as [e|prompt] eqn:Hp; [eauto|].
    specialize (Hblank model_name prompt eq_refl eq_refl).
    apply strip_nil_iff in Hblank.
    unfold finish_document, try_except.
    rewrite bool_decide_eq_false_2 by (intros Hne; apply Hne; exact Hblank).
    rewrite run_bind, run_log. eexists. split; [reflexivity|].
    eapply only_logged_trans; [eassumption | apply only_logged_add_log]. }
  split; [apply Hfail|].
  intros rest successful failed.
  destruct (Hfail (add_log INFO (u "Processing: " ++ input_path) w))
    as (w' & Hrun & Hlog).
  exists w'. split.
  - eapply only_logged_trans; [apply only_logged_add_log | eassumption].
  - rewrite (process_loop_step _ _ _ _ _ _ _ _ _ _ Hrun). reflexivity.
Qed.

(** ** The batch *)

Lemma document_results_cons E path rest out config w :
  document_results E (path :: rest) out config w =
  match process_single_file E path out config
          (add_log INFO (u "Processing: " ++ path) w) with
  | (Ret ok, w') =>
      let '(oks, w'') := document_results E rest out config w' in
      (ok :: oks, w'')
  | (_, w') => ([], w')
  end.
Proof. reflexivity. Qed.

Lemma document_results_length E paths out config : ∀ w,
  length (document_results E paths out config w).1 = length paths.
Proof.
  induction paths as [|path rest IH]; intros w; [reflexivity|].
  destruct (process_single_file_returns E path out config
              (add_log INFO (u "Processing: " ++ path) w)) as (ok & w' & Hrun).
  rewrite document_results_cons, Hrun.
  specialize (IH w').
  destruct (document_results E rest out config w'). simpl in *. congruence.
Qed.

(** The two counters of the loop count the documents that returned [True]
    and those that returned [False]. *)
Lemma process_loop_run E paths out config : ∀ successful failed w,
  process_loop E paths out config successful failed w =
  let '(oks, w') := document_results E paths out config w in
  (Ret (successful + count_true oks, failed + count_false oks), w').
Proof.
  induction paths as [|path rest IH]; intros successful failed w.
  - simpl. unfold count_true, count_false. simpl.
    rewrite !Nat.add_0_r. reflexivity.
  - destruct (process_single_file_returns E path out config
                (add_log INFO (u "Processing: " ++ path) w)) as (ok & w' & Hrun).
    rewrite (process_loop_step _ _ _ _ _ _ _ _ _ _ Hrun).
    rewrite document_results_cons, Hrun.
    destruct ok; rewrite IH;
      destruct (document_results E rest out config w') as [oks w''];
      unfold count_true, count_false; simpl; do 3 f_equal; lia.
Qed.

Lemma count_false_zero (oks : list bool) :
  count_false oks = 0 <-> Forall (eq true) oks.
Proof.
  unfold count_false. induction oks as [|[] oks IH]; simpl.
  - split; [constructor | reflexivity].
  - rewrite IH. split; [constructor; auto | inversion 1; assumption].
  - split; [discriminate | inversion 1; discriminate].
Qed.

Lemma get_config_path_run E config_arg w :
  get_config_path E config_arg w = (Ret (config_path_of E config_arg w), w).
Proof.
  unfold get_config_path, config_path_of.
  destruct config_arg as [p|]; [|reflexivity].
  case_bool_decide; [|reflexivity].
  rewrite run_bind. unfold os_path_exists. simpl.
  destruct (path_exists w p); reflexivity.
Qed.

Lemma configure_genai_run E w :
  configure_genai E w =
  match getenv_api_key E with
  | Some (c :: k) =>
      match genai_configure E (c :: k) with
      | Some e =>
          (Raise e, add_log ERROR (u "Failed to configure Gemini API: " ++ exn_str e) w)
      | None => (Ret tt, add_log INFO (u "Successfully configured Gemini API") w)
      end
  | _ => (Raise (ValueError key_error_msg), add_log ERROR key_error_msg w)
  end.
Proof.
  unfold configure_genai.
  destruct (getenv_api_key E) as [[|c k]|]; try reflexivity.
  unfold try_except. destruct (genai_configure E (c :: k)); reflexivity.
Qed.

Lemma resolve_input_paths_run E a w :
  resolve_input_paths E a w =
  if isfile w (input_path a) then (Ret [input_path a], w)
  else if isdir w (input_path a) then
    if bool_decide (find_input_paths E w (input_path a) = []) then
      (Exit 1, add_log ERROR
                 (u "No supported files found in directory " ++ input_path a) w)
    else (Ret (find_input_paths E w (input_path a)), w)
  else (Exit 1, add_log ERROR (u "Input path not found: " ++ input_path a) w).
Proof.
  unfold resolve_input_paths.
  rewrite run_bind. unfold os_path_isfile at 1.
  destruct (isfile w (input_path a)); [reflexivity|].
  rewrite run_bind. unfold os_path_isdir at 1.
  destruct (isdir w (input_path a)); [|reflexivity].
  rewrite run_bind. unfold scan_input_paths at 1.
  case_bool_decide; reflexivity.
Qed.

Lemma process_batch_run E a paths w :
  process_batch E a paths w =
  match load_config E (config_path_of E (config a) w) w with
  | (Ret cfg, w0) =>
      match configure_genai E w0 with
      | (Ret _, w0') =>
          let '(oks, w2) :=
            document_results E paths (output_dir a) cfg (batch_start paths w0') in
          (if bool_decide (0 < count_false oks) then Exit 1 else Ret tt,
           batch_end oks w2)
      | (Raise e, w0') => (Exit 1, unexpected e w0')
      | (Exit c, w0') => (Exit c, w0')
      end
  | (Raise e, w0) => (Exit 1, unexpected e w0)
  | (Exit c, w0) => (Exit c, w0)
  end.
Proof.
  unfold process_batch, try_except.
  rewrite run_bind, get_config_path_run. rewrite run_bind.
  destruct (load_config E (config_path_of E (config a) w) w) as [[cfg|e|c] w0];
    try reflexivity.
  rewrite run_bind.
  destruct (configure_genai E w0) as [[[]|e|c] w0']; try reflexivity.
  rewrite run_bind, run_log. rewrite run_bind, process_loop_run.
  fold (batch_start paths w0').
  destruct (document_results E paths (output_dir a) cfg (batch_start paths w0'))
    as [oks w2].
  cbv beta iota. rewrite run_bind, run_log.
  cbn [fst snd Nat.add]. fold (batch_end oks w2).
  case_bool_decide; reflexivity.
Qed.

Lemma process_command_run E a w :
  process_command E a w =
  match resolve_input_paths E a w with
  | (Ret paths, w0) =>
      if isdir w0 (output_dir a) then process_batch E a paths w0
      else (Exit 1, add_log ERROR
                      (u "Output directory not found at " ++ output_dir a) w0)
  | (Raise e, w0) => (Raise e, w0)
  | (Exit c, w0) => (Exit c, w0)
  end.
Proof.
  unfold process_command. rewrite run_bind.
  destruct (resolve_input_paths E a w) as [[paths|e|c] w0]; try reflexivity.
  rewrite run_bind. unfold os_path_isdir at 1.
  destruct (isdir w0 (output_dir a)); reflexivity.
Qed.

(** ** The exit status of [process] *)

Lemma load_config_run E config_path w :
  load_config E config_path w =
  if path_exists w config_path then
    match w_files w !! config_path with
    | Some data =>
        match yaml_safe_load E data with
        | inr cfg => (Ret cfg, w)
        | inl e => (Raise e, w)
        end
    | None => (Raise (EISDIR config_path), w)
    end
  else
    (Ret (config_with_prompt E (u "Extract the handwritten text from this image.")),
     add_log WARNING (u "Config file not found at " ++ config_path
                      ++ u ". Using default settings.") w).
Proof.
  unfold load_config. rewrite run_bind. unfold os_path_exists at 1.
  destruct (path_exists w config_path) eqn:Hex;
    cbv beta iota; unfold negb; cbv beta iota.
  - rewrite run_bind. unfold read_file.
    unfold path_exists, isfile in Hex.
    destruct (w_files w !! config_path) as [data|].
    + destruct (yaml_safe_load E data); reflexivity.
    + rewrite bool_decide_eq_false_2 in Hex by (intros [? ?]; discriminate).
      simpl in Hex. rewrite Hex. reflexivity.
  - rewrite run_bind, run_log. reflexivity.
Qed.

Lemma load_config_quiet E config_path w :
  ∃ w', no_document_started w w' ∧
    ((∃ cfg, load_config E config_path w = (Ret cfg, w'))
     ∨ (∃ e, load_config E config_path w = (Raise e, w'))).
Proof.
  rewrite load_config_run.
  destruct (path_exists w config_path).
  - exists w. split; [apply logged_only_refl|].
    destruct (w_files w !! config_path) as [data|]; [|right; eauto].
    destruct (yaml_safe_load E data); [right | left]; eauto.
  - eexists. split.
    2:{ left. eexists. reflexivity. }
    apply logged_only_add_log. reflexivity.
Qed.

(** Lines 243-271 for given documents: either the rest of the setup goes
    through and the batch runs, or the process ends with status 1 and no
    document was started. *)
Lemma after_inputs_cases E a w paths :
  let r :=
    if isdir w (output_dir a) then process_batch E a paths w
    else (Exit 1, add_log ERROR
                    (u "Output directory not found at " ++ output_dir a) w) in
  (∃ cfg w1, config_ready E a w paths cfg w1
             ∧ ¬ api_key_absent E
             ∧ r = batch_outcome E a paths cfg w1)
  ∨ ((¬ ∃ cfg w1, config_ready E a w paths cfg w1)
     ∧ exit_status r.1 = 1%Z
     ∧ no_document_started w r.2).
Proof.
  intros r. subst r. unfold config_ready.
  destruct (isdir w (output_dir a)) eqn:Hout.
  2:{ right. split; [|split; [reflexivity|]].
      - intros (? & ? & Hno & _). discriminate.
      - apply logged_only_add_log. reflexivity. }
  rewrite process_batch_run.
  destruct (load_config_quiet E (config_path_of E (config a) w) w)
    as (w0 & Hq0 & [[cfg Hload]|[e Hload]]); rewrite Hload.
  2:{ right. split; [|split; [reflexivity|]].
      - intros (? & ? & _ & cp & ? & ? & Hcp & Hl & _).
        rewrite get_config_path_run in Hcp. injection Hcp as <-. congruence.
      - eapply logged_only_trans; [exact Hq0|].
        apply logged_only_add_log. reflexivity. }
  assert (Hnot : ∀ e w0', configure_genai E w0 = (Raise e, w0') ->
    ¬ ∃ cfg0 w1,
        true = true
        ∧ ∃ config_path w00 w01,
            get_config_path E (config a) w = (Ret config_path, w)
            ∧ load_config E config_path w = (Ret cfg0, w00)
            ∧ configure_genai E w00 = (Ret tt, w01)
            ∧ w1 = batch_start paths w01).
  { intros e w0' Hc (? & ? & _ & cp & ? & ? & Hcp & Hl & Hc' & _).
    rewrite get_config_path_run in Hcp. injection Hcp as <-.
    rewrite Hload in Hl. injection Hl as <- <-. congruence. }
  pose proof (configure_genai_run E w0) as Hconf.
  assert (Hfail : ∀ e msg,
    configure_genai E w0 = (Raise e, add_log ERROR msg w0) ->
    (¬ ∃ cfg0 w1,
        true = true
        ∧ ∃ config_path w00 w01,
            get_config_path E (config a) w = (Ret config_path, w)
            ∧ load_config E config_path w = (Ret cfg0, w00)
            ∧ configure_genai E w00 = (Ret tt, w01)
            ∧ w1 = batch_start paths w01)
    ∧ exit_status (Exit 1 : res unit) = 1%Z
    ∧ no_document_started w (unexpected e (add_log ERROR msg w0))).
  { intros e msg Hc. split; [eapply Hnot; exact Hc|]. split; [reflexivity|].
    eapply logged_only_trans; [exact Hq0|].
    eapply logged_only_trans; apply logged_only_add_log; reflexivity. }
  rewrite Hconf. unfold api_key_absent.
  destruct (getenv_api_key E) as [[|c k]|] eqn:Hkey.
  - right. eapply Hfail. exact Hconf.
  - destruct (genai_configure E (c :: k)) as [e|].
    + right. eapply Hfail. exact Hconf.
    + left. eexists cfg, _. split; [|split; [tauto | reflexivity]].
      split; [reflexivity|].
      eexists _, _, _. split; [apply get_config_path_run|].
      split; [exact Hload|]. split; [exact Hconf | reflexivity].
  - right. eapply Hfail. exact Hconf.
Qed.

(** Either the setup went through and the exit is that of the batch, or the
    process ends with status 1 before any document was started. *)
Lemma process_command_cases E a w :
  (∃ paths cfg w1,
     batch_ready E a w paths cfg w1 ∧ ¬ fatal_setup E a w
     ∧ process_command E a w = batch_outcome E a paths cfg w1)
  ∨ ((¬ ∃ paths cfg w1, batch_ready E a w paths cfg w1)
     ∧ exit_status (process_command E a w).1 = 1%Z
     ∧ no_document_started w (process_command E a w).2).
Proof.
  assert (Hquiet : ∀ msg, no_document_started w (add_log ERROR msg w)).
  { intros msg. apply logged_only_add_log. reflexivity. }
  unfold batch_ready, fatal_setup.
  rewrite process_command_run.
  pose proof (resolve_input_paths_run E a w) as Hres.
  destruct (resolve_input_paths E a w) as [[paths|e|c] w0].
  - assert (Hin : w0 = w
                  ∧ (isfile w (input_path a) = true
                     ∨ (isdir w (input_path a) = true
                        ∧ find_input_paths E w (input_path a) ≠ []))).
    { destruct (isfile w (input_path a)); [injection Hres as _ ->; auto|].
      destruct (isdir w (input_path a)); [|discriminate].
      case_bool_decide; [discriminate|]. injection Hres as _ ->. auto. }
    destruct Hin as [-> Hinput].
    destruct (after_inputs_cases E a w paths)
      as [(cfg & w1 & Hready & Hkey & Hrun)|(Hnot & Hexit & Hq)].
    + left. exists paths, cfg, w1. split; [split; [reflexivity | assumption]|].
      split; [|exact Hrun].
      destruct Hready as [Hout _].
      intros [[Hf Hd]|[(Hf & Hd & Hnil)|[Ho|Hk]]];
        try contradiction; destruct Hinput as [Hi|[Hi Hne]]; congruence.
    + right. split; [|split; assumption].
      intros (paths0 & cfg & w1 & Hr & Hready).
      injection Hr as <-. apply Hnot. eauto.
  - destruct (isfile w (input_path a)); [discriminate|].
    destruct (isdir w (input_path a)); [|discriminate].
    case_bool_decide; discriminate.
  - right. split; [intros (? & ? & ? & Hr & _); discriminate|].
    destruct (isfile w (input_path a)); [discriminate|].
    destruct (isdir w (input_path a)).
    + case_bool_decide; [|discriminate].
      injection Hres as -> ->. split; [reflexivity | apply Hquiet].
    + injection Hres as -> ->. split; [reflexivity | apply Hquiet].
Qed.

Lemma batch_ready_unique E a w paths cfg w1 paths' cfg' w1' :
  batch_ready E a w paths cfg w1 ->
  batch_ready E a w paths' cfg' w1' ->
  paths' = paths ∧ cfg' = cfg ∧ w1' = w1.
Proof.
  intros (Hr & _ & cp & w0 & w0' & Hcp & Hl & Hc & ->)
         (Hr' & _ & cp' & v0 & v0' & Hcp' & Hl' & Hc' & ->).
  rewrite Hr in Hr'. injection Hr' as <-.
  rewrite Hcp in Hcp'. injection Hcp' as <-.
  rewrite Hl in Hl'. injection Hl' as <- <-.
  rewrite Hc in Hc'. injection Hc' as <-.
  auto.
Qed.

(** The exit status of [process], as the code has it. It is 0 or 1. It is
    0 exactly when the setup goes through and [process_single_file] returns
    [True] for every document of the batch, each processed in its turn; so
    it is 1 as soon as one call returns [False]. And it is 1, with no
    document started, no file written and nothing logged but warnings and
    errors, when the input path does not exist, when the input directory has
    no supported file, when the output directory is missing, or when the API
    key is absent. *)
Theorem process_exit_status (E : env) (a : args) (w : world) :
  let r := process_command E a w in
  (exit_status r.1 = 0%Z <->
   ∃ paths cfg w1,
     batch_ready E a w paths cfg w1
     ∧ Forall (eq true) (document_results E paths (output_dir a) cfg w1).1)
  ∧ (exit_status r.1 = 0%Z ∨ exit_status r.1 = 1%Z)
  ∧ (fatal_setup E a w ->
     exit_status r.1 = 1%Z ∧ no_document_started w r.2).
Proof.
  intros r. subst r.
  destruct (process_command_cases E a w)
    as [(paths & cfg & w1 & Hready & Hok & Hrun)|(Hnot & Hexit & Hq)].
  - rewrite Hrun. unfold batch_outcome.
    destruct (document_results E paths (output_dir a) cfg w1) as [oks w2] eqn:Hdocs.
    simpl fst. split; [|split].
    + split.
      * intros Hzero. exists paths, cfg, w1. split; [assumption|].
        rewrite Hdocs. simpl. apply count_false_zero.
        case_bool_decide; [discriminate | lia].
      * intros (paths' & cfg' & w1' & Hready' & Hall).
        destruct (batch_ready_unique _ _ _ _ _ _ _ _ _ Hready Hready')
          as (-> & -> & ->).
        rewrite Hdocs in Hall. simpl in Hall.
        apply count_false_zero in Hall.
        rewrite bool_decide_eq_false_2 by lia. reflexivity.
    + case_bool_decide; [right | left]; reflexivity.
    + intros Hfatal. contradiction.
  - split; [|split].
    + split.
      * rewrite Hexit. discriminate.
      * intros (paths & cfg & w1 & Hready & _). exfalso. apply Hnot. eauto.
    + right. assumption.
    + intros _. split; assumption.
Qed.

(** C6, on the code. A status of 0 does not tell that every document was
    processed successfully. One PDF of three pages, an output directory that
    exists, the API key set, and no file at the path of the template: the
    rendering of the only document fails and is logged as an ERROR, no note
    is written for it (the files are what they were, nothing is at
    [out/scan.md]), and yet the run reports [1 successful, 0 failed] and
    ends with status 0. *)
Theorem exit_status_zero_without_note :
  let a := Args (u "scan.pdf") (u "out") None in
  let run := process_command demo_env a demo_world_scan in
  isfile demo_world_scan (u "scan.pdf") = true
  ∧ isdir demo_world_scan (u "out") = true
  ∧ getenv_api_key demo_env = Some (u "secret")
  ∧ w_files demo_world_scan !! u "/pkg/templates/note_template.md" = None
  ∧ In (LogRecord INFO (u "Processing 1 file(s)")) (w_log run.2)
  ∧ In (LogRecord ERROR
          (u "Error rendering Markdown: 'note_template.md' not found in search path: '/pkg/templates'"))
       (w_log run.2)
  ∧ w_files run.2 = w_files demo_world_scan
  ∧ w_files run.2 !! u "out/scan.md" = None
  ∧ In (LogRecord INFO (u "Processing complete: 1 successful, 0 failed"))
       (w_log run.2)
  ∧ exit_status run.1 = 0%Z.
Proof.
  vm_compute. repeat split; auto 20.
Qed.

(** ** A configuration without its sections *)

Lemma lacks_section_fails E cfg input_path out w :
  lacks_section cfg ->
  ∃ w', process_single_file E input_path out cfg w = (Ret false, w').
Proof.
  intros Hlacks.
  destruct (process_single_file_run E input_path out cfg w) as (w1 & _ & ->).
  case_bool_decide; [eauto|].
  unfold config_model, config_prompt.
  destruct (getitem cfg (u "gemini")) as [e|gemini] eqn:Hg; [eauto|].
  destruct (getitem gemini (u "model")) as [e|model_name]; [eauto|].
  destruct (getitem gemini (u "prompt")) as [e|prompt]; [eauto|].
  destruct Hlacks as [[e He]|[e He]]; [congruence|].
  unfold finish_document, try_except. case_bool_decide.
  - rewrite run_bind, He. simpl lift. unfold raise at 1.
    unfold document_failed. rewrite run_bind, run_log. eauto.
  - rewrite run_bind, run_log. eauto.
Qed.

Lemma document_results_all_fail E paths out cfg :
  (∀ input_path w, ∃ w', process_single_file E input_path out cfg w = (Ret false, w')) ->
  ∀ w, (document_results E paths out cfg w).1 = repeat false (length paths).
Proof.
  intros Hfail. induction paths as [|path rest IH]; intros w; [reflexivity|].
  rewrite document_results_cons.
  destruct (Hfail path (add_log INFO (u "Processing: " ++ path) w)) as (w' & ->).
  specialize (IH w').
  destruct (document_results E rest out cfg w'). simpl in *. congruence.
Qed.

Lemma count_false_repeat n : count_false (repeat false n) = n.
Proof.
  unfold count_false. induction n as [|n IH]; simpl; [reflexivity|].
  rewrite IH. reflexivity.
Qed.

Lemma batch_ready_nonempty E a w paths cfg w1 :
  batch_ready E a w paths cfg w1 -> paths ≠ [].
Proof.
  intros [Hres _]. rewrite resolve_input_paths_run in Hres.
  destruct (isfile w (input_path a)); [injection Hres as <-; discriminate|].
  destruct (isdir w (input_path a)); [|discriminate].
  case_bool_decide; [discriminate|]. injection Hres as <-. assumption.
Qed.

(** C10. A configuration file is loaded as it parses, unvalidated. If the
    file exists and parses to a value that lacks the [gemini] or the
    [template] section, [load_config] returns that value. No document can
    then succeed: [process_single_file] returns [False] for each. A run
    whose setup goes through with this configuration takes up every document
    of the batch, counts each as failed, and ends with status 1 after the
    batch, not before it. *)
Theorem unvalidated_config_fails_documents (E : env) (a : args) (w : world)
    (config_path data : pystr) (cfg : pyval) :
  w_files w !! config_path = Some data ->
  yaml_safe_load E data = inr cfg ->
  lacks_section cfg ->
  load_config E config_path w = (Ret cfg, w)
  ∧ (∀ input_path out w0, ∃ w',
       process_single_file E input_path out cfg w0 = (Ret false, w'))
  ∧ (∀ paths w1,
       batch_ready E a w paths cfg w1 ->
       (document_results E paths (output_dir a) cfg w1).1
       = repeat false (length paths)
       ∧ 0 < length paths
       ∧ process_command E a w = batch_outcome E a paths cfg w1
       ∧ exit_status (process_command E a w).1 = 1%Z).
Proof.
  intros Hfile Hparse Hlacks. split; [|split].
  - rewrite load_config_run. unfold path_exists, isfile.
    rewrite Hfile. rewrite bool_decide_eq_true_2 by eauto. simpl.
    rewrite Hparse. reflexivity.
  - intros input_path out w0. apply lacks_section_fails. assumption.
  - intros paths w1 Hready.
    assert (Hall : (document_results E paths (output_dir a) cfg w1).1
                   = repeat false (length paths)).
    { apply document_results_all_fail. intros input_path w0.
      apply lacks_section_fails. assumption. }
    assert (Hlen : 0 < length paths).
    { pose proof (batch_ready_nonempty _ _ _ _ _ _ Hready).
      destruct paths; [congruence | simpl; lia]. }
    assert (Hrun : process_command E a w = batch_outcome E a paths cfg w1).
    { destruct (process_command_cases E a w)
        as [(paths' & cfg' & w1' & Hready' & _ & Hrun)|(Hnot & _)].
      - destruct (batch_ready_unique _ _ _ _ _ _ _ _ _ Hready Hready')
          as (-> & -> & ->). exact Hrun.
      - exfalso. apply Hnot. eauto. }
    repeat split; try assumption.
    rewrite Hrun. unfold batch_outcome.
    destruct (document_results E paths (output_dir a) cfg w1) as [oks w2].
    simpl in Hall. subst oks. rewrite count_false_repeat.
    rewrite bool_decide_eq_true_2 by assumption. reflexivity.
Qed.

(** ** File discovery *)

Lemma entry_ind_nested (P : entry -> Prop) :
  (∀ n, P (EFile n)) ->
  (∀ n sub, Forall P sub -> P (EDir n sub)) ->
  ∀ e, P e.
Proof.
  intros Hfile Hdir. fix IH 1. intros [n|n sub]; [apply Hfile|].
  apply Hdir. induction sub as [|e sub IHsub]; constructor.
  - apply IH.
  - exact IHsub.
Qed.

Lemma subdirs_below_entry : ∀ e rel c,
  In (rel, c) (subdirs e) ->
  ∃ x sub, e = EDir x sub ∧ ishidden x = false
           ∧ ((rel = x ∧ c = sub) ∨ ∃ y, rel = path_join x y ∧ below sub y c).
Proof.
  induction e as [n|x sub IH] using entry_ind_nested; intros rel c Hin.
  - inversion Hin.
  - simpl in Hin. destruct (ishidden x) eqn:Hx; [inversion Hin|].
    exists x, sub. split; [reflexivity|]. split; [exact Hx|].
    destruct Hin as [Heq|Hin].
    + injection Heq as <- <-. left. auto.
    + right. apply in_map_iff in Hin as ([y c'] & Heq & Hin).
      simpl in Heq. injection Heq as <- <-.
      exists y. split; [reflexivity|].
      apply in_flat_map in Hin as (e & He & Hin).
      rewrite Forall_forall in IH.
      assert (He' : e ∈ sub) by (apply list_elem_of_In; exact He).
      destruct (IH e He' y c' Hin) as (x' & sub' & -> & Hx' & [[-> ->]|(y' & -> & Hb)]).
      * apply below_child; assumption.
      * eapply below_deeper; eassumption.
Qed.

Lemma subdirs_below (children : list entry) (rel : pystr) (c : list entry) :
  In (rel, c) (flat_map subdirs children) <-> below children rel c.
Proof.
  split.
  - intros Hin. apply in_flat_map in Hin as (e & He & Hin).
    destruct (subdirs_below_entry e rel c Hin)
      as (x & sub & -> & Hx & [[-> ->]|(y & -> & Hb)]).
    + apply below_child; assumption.
    + eapply below_deeper; eassumption.
  - induction 1 as [children x sub Hin Hx|children x sub y c Hin Hx Hb IH].
    + apply in_flat_map. exists (EDir x sub). split; [assumption|].
      simpl. rewrite Hx. left. reflexivity.
    + apply in_flat_map. exists (EDir x sub). split; [assumption|].
      simpl. rewrite Hx. right.
      apply in_map_iff. exists (y, c). split; [reflexivity | assumption].
Qed.

Lemma fnmatch_literal (lit : pystr) :
  literal lit = true -> ∀ name, fnmatch lit name = true <-> name = lit.
Proof.
  induction lit as [|c lit IH]; intros Hlit name.
  - simpl. rewrite bool_decide_eq_true. tauto.
  - simpl in Hlit. apply andb_prop in Hlit as [Hc Hlit].
    apply andb_prop in Hc as [Hstar Hquestion].
    apply negb_true_iff in Hstar, Hquestion.
    simpl. rewrite Hstar, Hquestion.
    destruct name as [|x name]; [split; discriminate|].
    rewrite andb_true_iff, (IH Hlit), N.eqb_eq.
    split; [intros [-> ->]; reflexivity | intros [= -> ->]; auto].
Qed.

Lemma fnmatch_star_unfold (pat name : pystr) :
  fnmatch (star :: pat) name =
  fnmatch pat name
  || match name with
     | [] => false
     | _ :: name' => fnmatch (star :: pat) name'
     end.
Proof. destruct name; reflexivity. Qed.

(** [*lit] matches the names that end in [lit]. *)
Lemma fnmatch_star_literal (lit : pystr) :
  literal lit = true ->
  ∀ name, fnmatch (star :: lit) name = true <-> lit `suffix_of` name.
Proof.
  intros Hlit name. induction name as [|x name IH].
  - rewrite fnmatch_star_unfold, orb_false_r, (fnmatch_literal lit Hlit).
    split.
    + intros <-. exists []. reflexivity.
    + intros [pre Hpre]. symmetry in Hpre.
      apply app_eq_nil in Hpre as [_ ->]. reflexivity.
  - rewrite fnmatch_star_unfold, orb_true_iff, IH, (fnmatch_literal lit Hlit).
    split.
    + intros [<-|[pre ->]]; [exists [] | exists (x :: pre)]; reflexivity.
    + intros [[|y pre] Hpre].
      * left. exact Hpre.
      * right. injection Hpre as -> ->. exists pre. reflexivity.
Qed.

Lemma glob1_star_literal (c : list entry) (lit name : pystr) :
  literal lit = true ->
  In name (glob1 c (star :: lit)) <->
  In name (map entry_name c) ∧ ishidden name = false ∧ lit `suffix_of` name.
Proof.
  intros Hlit. unfold glob1.
  change (ishidden (star :: lit)) with false. cbv iota.
  rewrite !filter_In, negb_true_iff, (fnmatch_star_literal lit Hlit).
  tauto.
Qed.

(** The directory itself is among those [**] stands for: what the plain
    pattern finds, the recursive one finds again under the same path. *)
Lemma path_join_empty (base name : pystr) :
  path_join (path_join base []) name = path_join base name.
Proof.
  unfold path_join at 1 3. destruct (startswith [slash] name); [reflexivity|].
  unfold path_join. simpl startswith. cbv iota.
  destruct (bool_decide (base = []) || endswith [slash] base) eqn:Hb.
  - rewrite app_nil_r, Hb. reflexivity.
  - assert (Hne : bool_decide (base ++ [slash] ++ [] = []) = false).
    { apply bool_decide_eq_false_2. destruct base; discriminate. }
    assert (Hend : endswith [slash] (base ++ [slash] ++ []) = true).
    { unfold endswith. rewrite rev_app_distr. reflexivity. }
    rewrite Hne, Hend. simpl. rewrite <- app_assoc. reflexivity.
Qed.

Lemma supported_patterns_suffixes :
  supported_patterns = map (cons star) supported_suffixes.
Proof. reflexivity. Qed.

Lemma supported_suffixes_literal ext :
  In ext supported_suffixes -> literal ext = true.
Proof.
  intros Hin. apply (proj1 (forallb_forall literal supported_suffixes)); [|exact Hin].
  reflexivity.
Qed.

Lemma glob_under_spec E w dir tree lit p :
  has_magic dir = false -> dir ≠ [] -> w_dirs w !! dir = Some tree ->
  literal lit = true ->
  In p (glob_under E w dir (star :: lit)) <->
  ∃ rel c name,
    under tree rel c
    ∧ In name (map entry_name c) ∧ ishidden name = false
    ∧ lit `suffix_of` name
    ∧ p = path_join (path_join (glob_base dir) rel) name.
Proof.
  intros Hmagic Hdir Htree Hlit. unfold glob_under.
  rewrite Hmagic, Htree, bool_decide_eq_false_2 by assumption. simpl orb. cbv iota.
  rewrite in_flat_map. split.
  - intros ([rel c] & Hin & Hp). simpl in Hp.
    apply in_map_iff in Hp as (name & <- & Hname).
    apply (glob1_star_literal c lit name Hlit) in Hname as (Hn & Hh & Hs).
    exists rel, c, name. repeat split; try assumption.
    destruct Hin as [Heq|Hin].
    + injection Heq as <- <-. left. auto.
    + right. apply subdirs_below. assumption.
  - intros (rel & c & name & Hunder & Hn & Hh & Hs & ->).
    exists (rel, c). split.
    + destruct Hunder as [[-> ->]|Hb]; [left; reflexivity|].
      right. apply subdirs_below. assumption.
    + simpl. apply in_map. apply (glob1_star_literal c lit name Hlit). auto.
Qed.

Lemma glob_in_under E w dir tree lit p :
  has_magic dir = false -> dir ≠ [] -> w_dirs w !! dir = Some tree ->
  In p (glob_in E w dir (star :: lit)) ->
  In p (glob_under E w dir (star :: lit)).
Proof.
  intros Hmagic Hdir Htree. unfold glob_in, glob_under.
  rewrite Hmagic, Htree, bool_decide_eq_false_2 by assumption. simpl orb. cbv iota.
  intros Hin. apply in_map_iff in Hin as (name & <- & Hname).
  apply in_flat_map. exists ([], tree). split; [left; reflexivity|].
  simpl. rewrite <- path_join_empty. apply in_map. assumption.
Qed.

(** What discovery finds, as the code has it. For an input directory whose
    path has no wildcard character, discovery returns the paths of the entries that: lie
    in the directory or in a directory below it reached through names that
    are not hidden; are not hidden themselves; and have a name that ends in
    one of the eight suffixes [.pdf], [.PDF], [.png], [.PNG], [.jpg], [.JPG],
    [.jpeg], [.JPEG]. Every such entry is found, at any depth, and nothing
    else is. *)
Theorem discovery_finds_visible_suffixes (E : env) (w : world)
    (dir : pystr) (tree : list entry) (p : pystr) :
  has_magic dir = false -> dir ≠ [] -> w_dirs w !! dir = Some tree ->
  (In p (find_input_paths E w dir) <->
   ∃ rel c name ext,
     under tree rel c
     ∧ In name (map entry_name c) ∧ ishidden name = false
     ∧ In ext supported_suffixes ∧ ext `suffix_of` name
     ∧ p = path_join (path_join (glob_base dir) rel) name).
Proof.
  intros Hmagic Hdir Htree. unfold find_input_paths.
  rewrite supported_patterns_suffixes, in_flat_map. split.
  - intros (pat & Hpat & Hin).
    apply in_map_iff in Hpat as (ext & <- & Hext).
    pose proof (supported_suffixes_literal ext Hext) as Hlit.
    assert (Hunder : In p (glob_under E w dir (star :: ext))).
    { apply in_app_or in Hin as [Hin|Hin]; [|assumption].
      eapply glob_in_under; eassumption. }
    apply (glob_under_spec E w dir tree ext p Hmagic Hdir Htree Hlit) in Hunder
      as (rel & c & name & Hu & Hn & Hh & Hs & ->).
    exists rel, c, name, ext. auto 10.
  - intros (rel & c & name & ext & Hu & Hn & Hh & Hext & Hs & ->).
    exists (star :: ext). split; [apply in_map; assumption|].
    apply in_or_app. right.
    apply (glob_under_spec E w dir tree ext _ Hmagic Hdir Htree).
    + apply supported_suffixes_literal. assumption.
    + exists rel, c, name. auto 10.
Qed.

(** C3, on the code. The template file is missing, the page has text: the
    rendering fails and is logged as an error, no note is written, and yet
    [process_single_file] returns [True], the document is counted as
    successful and the process ends with status 0. *)
Theorem render_failure_counts_as_success :
  let cfg := config_with_prompt demo_env (u "Extract the handwritten text from this image.") in
  let r := process_single_file demo_env (u "note.png") (u "out") cfg demo_world in
  let run := process_command demo_env (Args (u "note.png") (u "out") None) demo_world in
  w_files demo_world !! u "/pkg/templates/note_template.md" = None
  ∧ r.1 = Ret true
  ∧ w_files r.2 = w_files demo_world
  ∧ In (LogRecord ERROR
          (u "Error rendering Markdown: 'note_template.md' not found in search path: '/pkg/templates'"))
       (w_log r.2)
  ∧ In (LogRecord INFO (u "Processing complete: 1 successful, 0 failed")) (w_log run.2)
  ∧ exit_status run.1 = 0%Z.
Proof.
  vm_compute. repeat split; auto 10.
Qed.

(** C7, on the code. Discovery does not return each supported file of the
    directory exactly once. In the directory of the demo, [a.pdf], which lies
    in the directory itself, is found twice (the plain pattern and the
    recursive one both match it), and so is the directory [d.pdf]; [b.Pdf],
    whose extension [get_images] would accept, is not found, and neither are
    the hidden files. What is found is no rearrangement of the files the
    claim states, and a run on the directory takes up six documents, of
    which two are the same file and two the same directory. *)
Theorem discovery_differs_from_stated :
  let run := process_command demo_env (Args (u "notes") (u "out") None)
               demo_world in
  find_input_paths demo_env demo_world (u "notes")
  = [u "notes/a.pdf"; u "notes/d.pdf"; u "notes/a.pdf"; u "notes/d.pdf";
     u "notes/sub/e.PNG"; u "notes/sub/deep/g.jpeg"]
  ∧ stated_discovery demo_env (u "notes") demo_tree
    = [u "notes/a.pdf"; u "notes/b.Pdf"; u "notes/.c.pdf"; u "notes/sub/e.PNG";
       u "notes/sub/.hid/f.jpg"; u "notes/sub/deep/g.jpeg"]
  ∧ ¬ (find_input_paths demo_env demo_world (u "notes")
       ≡ₚ stated_discovery demo_env (u "notes") demo_tree)
  ∧ supported_extension demo_env (u "b.Pdf") = true
  ∧ In (LogRecord INFO (u "Processing 6 file(s)")) (w_log run.2).
Proof.
  intros run.
  assert (Hfound : find_input_paths demo_env demo_world (u "notes")
    = [u "notes/a.pdf"; u "notes/d.pdf"; u "notes/a.pdf"; u "notes/d.pdf";
       u "notes/sub/e.PNG"; u "notes/sub/deep/g.jpeg"])
    by (vm_compute; reflexivity).
  assert (Hstated : stated_discovery demo_env (u "notes") demo_tree
    = [u "notes/a.pdf"; u "notes/b.Pdf"; u "notes/.c.pdf"; u "notes/sub/e.PNG";
       u "notes/sub/.hid/f.jpg"; u "notes/sub/deep/g.jpeg"])
    by (vm_compute; reflexivity).
  split; [exact Hfound|]. split; [exact Hstated|]. split; [|split].
  - rewrite Hfound, Hstated. intros Hperm.
    apply Permutation_sym in Hperm.
    apply (Permutation_in (u "notes/b.Pdf")) in Hperm; [|right; left; reflexivity].
    vm_compute in Hperm. intuition discriminate.
  - vm_compute. reflexivity.
  - subst run. vm_compute. auto 20.
Qed.

(** ** The theorems at the demo *)

(** Three pages complete last page first: the results are still in page
    order, the failure of the second page in its place, and the text that
    goes on to be rendered is
    [first], blank line, [Error: quota exceeded], blank line, [third].
    With the template of that world it is also, byte for byte, the note of
    [scan.pdf]. *)
Lemma results_in_page_order_witness :
  [page_future demo_env VNone VNone 2 (Image [3%N]);
   page_future demo_env VNone VNone 0 (Image [1%N]);
   page_future demo_env VNone VNone 1 (Image [2%N])]
  ≡ₚ page_futures demo_env VNone VNone demo_pages
  ∧ (∃ w',
       collect_results (page_dict (page_items demo_env VNone VNone demo_pages))
         [page_future demo_env VNone VNone 2 (Image [3%N]);
          page_future demo_env VNone VNone 0 (Image [1%N]);
          page_future demo_env VNone VNone 1 (Image [2%N])]
         (map (fun _ => []) demo_pages) demo_world_template
       = (Ret [u "first"; u "Error: quota exceeded"; u "third"], w')
       ∧ only_logged demo_world_template w')
  ∧ (∃ w',
       only_logged demo_world_template w'
       ∧ process_single_file demo_env (u "scan.pdf") (u "out")
           (VDict [(u "gemini", VDict [(u "model", VNone); (u "prompt", VNone)])])
           demo_world_template
         = try_except
             (finish_document demo_env (u "scan.pdf") (u "out")
                (VDict [(u "gemini",
                         VDict [(u "model", VNone); (u "prompt", VNone)])])
                VNone demo_pages
                (u "first" ++ [10%N; 10%N] ++ u "Error: quota exceeded"
                 ++ [10%N; 10%N] ++ u "third"))
             (document_failed (u "scan.pdf")) w')
  ∧ (∃ w',
       process_single_file demo_env (u "scan.pdf") (u "out") demo_config
         demo_world_template = (Ret true, w')
       ∧ w_files w' !! u "out/scan.md"
         = Some (u "first" ++ [10%N; 10%N] ++ u "Error: quota exceeded"
                 ++ [10%N; 10%N] ++ u "third")).
Proof.
  assert (Hperm :
    [page_future demo_env VNone VNone 2 (Image [3%N]);
     page_future demo_env VNone VNone 0 (Image [1%N]);
     page_future demo_env VNone VNone 1 (Image [2%N])]
    ≡ₚ page_futures demo_env VNone VNone demo_pages).
  { apply (Permutation_cons_append
             [page_future demo_env VNone VNone 0 (Image [1%N]);
              page_future demo_env VNone VNone 1 (Image [2%N])]). }
  destruct (results_in_page_order demo_env VNone VNone demo_pages _
              demo_world_template Hperm) as (Hloop & _ & _ & Hfull).
  split; [exact Hperm|]. split; [exact Hloop|]. split.
  - apply (Hfull (u "scan.pdf") (u "out")
             (VDict [(u "gemini", VDict [(u "model", VNone); (u "prompt", VNone)])])).
    + reflexivity.
    + discriminate.
    + reflexivity.
    + reflexivity.
  - eexists. split; vm_compute; reflexivity.
Defined.

(** The page of [blank.png] is two spaces: the document fails, nothing is
    written. *)
Lemma blank_document_fails_witness :
  (∀ model_name prompt,
     config_model (config_with_prompt demo_env (u "prompt")) = inr model_name ->
     config_prompt (config_with_prompt demo_env (u "prompt")) = inr prompt ->
     forallb is_space (document_text demo_env (u "blank.png") model_name prompt) = true)
  ∧ ∃ w',
      process_single_file demo_env (u "blank.png") (u "out")
        (config_with_prompt demo_env (u "prompt")) demo_world = (Ret false, w')
      ∧ only_logged demo_world w'.
Proof.
  assert (Hblank : ∀ model_name prompt,
     config_model (config_with_prompt demo_env (u "prompt")) = inr model_name ->
     config_prompt (config_with_prompt demo_env (u "prompt")) = inr prompt ->
     forallb is_space (document_text demo_env (u "blank.png") model_name prompt) = true).
  { intros model_name prompt _ _. reflexivity. }
  split; [exact Hblank|].
  exact (proj1 (blank_document_fails demo_env (u "blank.png") (u "out")
                  (config_with_prompt demo_env (u "prompt")) demo_world Hblank)).
Defined.

(** [g.jpeg], two directories down, is found. *)
Lemma discovery_finds_visible_suffixes_witness :
  has_magic (u "notes") = false ∧ u "notes" ≠ []
  ∧ w_dirs demo_world !! u "notes" = Some demo_tree
  ∧ In (u "notes/sub/deep/g.jpeg") (find_input_paths demo_env demo_world (u "notes")).
Proof.
  assert (Hmagic : has_magic (u "notes") = false) by reflexivity.
  assert (Hdir : u "notes" ≠ []) by discriminate.
  assert (Htree : w_dirs demo_world !! u "notes" = Some demo_tree)
    by (vm_compute; reflexivity).
  split; [exact Hmagic|]. split; [exact Hdir|]. split; [exact Htree|].
  apply (proj2 (discovery_finds_visible_suffixes demo_env demo_world (u "notes")
                  demo_tree (u "notes/sub/deep/g.jpeg") Hmagic Hdir Htree)).
  exists (path_join (u "sub") (u "deep")), [EFile (u "g.jpeg")], (u "g.jpeg"),
    (u ".jpeg").
  split.
  { right. apply (below_deeper demo_tree (u "sub")
                    [EFile (u "e.PNG");
                     EDir (u ".hid") [EFile (u "f.jpg")];
                     EDir (u "deep") [EFile (u "g.jpeg")]]).
    - simpl. auto 10.
    - reflexivity.
    - apply below_child; [simpl; auto | reflexivity]. }
  split; [left; reflexivity|]. split; [reflexivity|].
  split; [simpl; auto 10|]. split; [exists (u "g"); reflexivity|].
  vm_compute. reflexivity.
Defined.

(** The configuration file parses to an empty mapping: it loads, the one
    document of the run fails, and the status is 1 after the batch. *)
Lemma unvalidated_config_fails_documents_witness :
  w_files demo_world_config !! u "/home/u/.config/handwrite/config.yaml" = Some (u "{}")
  ∧ yaml_safe_load demo_env (u "{}") = inr (VDict [])
  ∧ lacks_section (VDict [])
  ∧ load_config demo_env (u "/home/u/.config/handwrite/config.yaml") demo_world_config
    = (Ret (VDict []), demo_world_config).
Proof.
  assert (Hfile : w_files demo_world_config
                    !! u "/home/u/.config/handwrite/config.yaml" = Some (u "{}"))
    by (vm_compute; reflexivity).
  assert (Hparse : yaml_safe_load demo_env (u "{}") = inr (VDict []))
    by reflexivity.
  assert (Hlacks : lacks_section (VDict [])).
  { left. exists (KeyError (u "gemini")). reflexivity. }
  split; [exact Hfile|]. split; [exact Hparse|]. split; [exact Hlacks|].
  exact (proj1 (unvalidated_config_fails_documents demo_env
                  (Args (u "note.png") (u "out") None) demo_world_config
                  _ _ _ Hfile Hparse Hlacks)).
Defined.

(** The pool cancels the second of three tasks: the batch still returns,
    with the placeholder for page 2 and the texts of the other pages. *)
Lemma dispatch_fills_every_page_witness :
  ∃ page_results w',
    dispatch_pages demo_env_fault [2; 0; 0] demo_pages VNone VNone demo_world
    = (Ret page_results, w')
    ∧ length page_results = 3
    ∧ page_results !! 1 = Some (u "Error processing page 2: cancelled")
    ∧ page_results !! 0 = Some (u "first")
    ∧ page_results !! 2 = Some (u "third").
Proof.
  destruct (dispatch_fills_every_page demo_env_fault [2; 0; 0] demo_pages
              VNone VNone demo_world)
    as (page_results & w' & Hrun & Hlen & Hfault & Hok).
  exists page_results, w'. split; [exact Hrun|]. split; [exact Hlen|].
  split; [|split].
  - exact (Hfault 1 (Image [2%N]) (LibraryError (u "cancelled")) eq_refl eq_refl).
  - exact (Hok 0 (Image [1%N]) eq_refl eq_refl).
  - exact (Hok 2 (Image [3%N]) eq_refl eq_refl).
Defined.


(** The input path names nothing: status 1, and no document started. *)
Lemma process_exit_status_witness :
  fatal_setup demo_env (Args (u "missing.pdf") (u "out") None) demo_world
  ∧ exit_status
      (process_command demo_env (Args (u "missing.pdf") (u "out") None) demo_world).1
    = 1%Z
  ∧ no_document_started demo_world
      (process_command demo_env (Args (u "missing.pdf") (u "out") None) demo_world).2.
Proof.
  assert (Hfatal : fatal_setup demo_env (Args (u "missing.pdf") (u "out") None)
                     demo_world).
  { left. split; vm_compute; reflexivity. }
  split; [exact Hfatal|].
  exact (proj2 (proj2 (process_exit_status demo_env
                         (Args (u "missing.pdf") (u "out") None) demo_world))
           Hfatal).
Defined.

(** [--config /nope.yaml] names no file: the default path is the answer and
    the world is as before. *)
Lemma get_config_path_fallback_witness :
  path_exists demo_world (u "/nope.yaml") = false
  ∧ get_config_path demo_env (Some (u "/nope.yaml")) demo_world
    = (Ret (u "/home/u/.config/handwrite/config.yaml"), demo_world).
Proof.
  split; [reflexivity|].
  destruct (get_config_path_fallback demo_env (u "/nope.yaml") demo_world)
    as (q & Hrun & Hmissing & _).
  rewrite Hrun, (Hmissing eq_refl). reflexivity.
Defined.

(** ** The log only grows *)

Lemma appends_unit {A} (r : res A) : appends (fun w => (r, w)).
Proof. intros w. exists []. simpl. symmetry. apply app_nil_r. Qed.

Lemma appends_lift {A} (x : exn + A) : appends (lift x).
Proof. destruct x; apply appends_unit. Qed.

Lemma appends_log l msg : appends (log l msg).
Proof. intros w. eexists. rewrite run_log. apply add_log_log. Qed.

Lemma appends_bind {A B} (m : M A) (f : A -> M B) :
  appends m -> (∀ a, appends (f a)) -> appends (m ≫= f).
Proof.
  intros Hm Hf w. rewrite run_bind. destruct (Hm w) as [x1 H1].
  destruct (m w) as [[a|e|c] w1]; simpl in H1; try (exists x1; exact H1).
  destruct (Hf a w1) as [x2 H2]. exists (x1 ++ x2).
  rewrite H2, H1. symmetry. apply app_assoc.
Qed.

Lemma appends_try {A} (m : M A) (h : exn -> M A) :
  appends m -> (∀ e, appends (h e)) -> appends (try_except m h).
Proof.
  intros Hm Hh w. unfold try_except. destruct (Hm w) as [x1 H1].
  destruct (m w) as [[a|e|c] w1]; simpl in H1; try (exists x1; exact H1).
  destruct (Hh e w1) as [x2 H2]. exists (x1 ++ x2).
  rewrite H2, H1. symmetry. apply app_assoc.
Qed.

Lemma appends_run {A} (m : M A) :
  (∀ w, ∃ r w', m w = (r, w') ∧ only_logged w w') -> appends m.
Proof.
  intros H w. destruct (H w) as (r & w' & -> & _ & _ & extra & Hlog & _).
  exists extra. exact Hlog.
Qed.

Lemma appends_write_file path data : appends (write_file path data).
Proof.
  intros w. exists []. rewrite app_nil_r. unfold write_file.
  case_bool_decide; [reflexivity|].
  destruct (isdir w path); [reflexivity|].
  destruct (parent_error w path); reflexivity.
Qed.

Lemma appends_render_markdown E template_path output_path encoding context :
  appends (render_markdown E template_path output_path encoding context).
Proof.
  unfold render_markdown. apply appends_try; [|intros e; apply appends_log].
  apply appends_bind.
  { unfold as_path. destruct template_path; apply appends_unit. }
  intros path. apply appends_bind.
  { intros w. unfold jinja_get_template. exists [].
    rewrite app_nil_r. case_bool_decide; [reflexivity|].
    destruct (w_files w !! _); reflexivity. }
  intros template. apply appends_bind; [apply appends_lift|].
  intros content. apply appends_bind; [|intros _; apply appends_log].
  unfold write_text. destruct (text_encode E encoding content).
  - apply appends_unit.
  - apply appends_bind; [apply appends_write_file | intros _; apply appends_unit].
  - apply appends_bind; [apply appends_write_file | intros _; apply appends_unit].
  - apply appends_write_file.
Qed.

Lemma appends_finish_document E input_path out config model_name images text :
  appends (finish_document E input_path out config model_name images text).
Proof.
  unfold finish_document. case_bool_decide.
  - apply appends_bind; [apply appends_lift|]. intros template.
    apply appends_bind; [apply appends_lift|]. intros has_variables.
    apply appends_bind.
    { destruct has_variables; [|apply appends_unit].
      apply appends_bind; [apply appends_lift|]. intros template'.
      apply appends_bind; [apply appends_lift|]. intros variables.
      apply appends_lift. }
    intros context.
    apply appends_bind; [apply appends_lift|]. intros template'.
    apply appends_bind; [apply appends_lift|]. intros template_path.
    apply appends_bind; [apply appends_lift|]. intros output.
    apply appends_bind; [apply appends_lift|]. intros encoding.
    apply appends_bind; [|intros _; apply appends_unit].
    unfold call_render_markdown.
    destruct (_ || _ || _); [apply appends_unit|].
    apply appends_render_markdown.
  - apply appends_bind; [apply appends_log | intros _; apply appends_unit].
Qed.

Lemma appends_process_single_file E input_path out config :
  appends (process_single_file E input_path out config).
Proof.
  intros w.
  destruct (process_single_file_run E input_path out config w)
    as (w1 & (_ & _ & x1 & H1 & _) & ->).
  assert (Hdone : ∀ model_name prompt, ∃ extra,
    w_log (try_except
             (finish_document E input_path out config model_name
                (images_of E input_path)
                (document_text E input_path model_name prompt))
             (document_failed input_path) w1).2 = w_log w ++ extra).
  { intros model_name prompt.
    destruct (appends_try
                (finish_document E input_path out config model_name
                   (images_of E input_path)
                   (document_text E input_path model_name prompt))
                (document_failed input_path)
                (appends_finish_document _ _ _ _ _ _ _)) with (w := w1)
      as [x2 H2].
    - intros e. unfold document_failed.
      apply appends_bind; [apply appends_log | intros _; apply appends_unit].
    - exists (x1 ++ x2). rewrite H2, H1. symmetry. apply app_assoc. }
  case_bool_decide; [exists x1; exact H1|].
  destruct (config_model config), (config_prompt config);
    first [apply Hdone | exists x1; exact H1].
Qed.

Lemma appends_process_loop E paths out config : ∀ successful failed,
  appends (process_loop E paths out config successful failed).
Proof.
  induction paths as [|path rest IH]; intros successful failed.
  - apply appends_unit.
  - simpl process_loop.
    apply appends_bind; [apply appends_log|]. intros _.
    apply appends_bind; [apply appends_process_single_file|].
    intros [|]; apply IH.
Qed.

(** A document that is taken up leaves its INFO record in the log, so a
    run after which [no_document_started] holds has started none. *)
Lemma started_document_is_logged E path rest out config successful failed w :
  ¬ no_document_started w
      (process_loop E (path :: rest) out config successful failed w).2.
Proof.
  intros (_ & _ & extra & Hlog & Hquiet).
  simpl process_loop in Hlog.
  rewrite run_bind, run_log in Hlog. cbv beta iota in Hlog.
  match type of Hlog with
  | w_log (?m ?w1).2 = _ =>
      assert (Hm : appends m);
      [|destruct (Hm w1) as [x Hx]; rewrite Hx in Hlog]
  end.
  { apply appends_bind; [apply appends_process_single_file|].
    intros [|]; apply appends_process_loop. }
  rewrite add_log_log in Hlog. simpl in Hlog.
  rewrite <- !app_assoc in Hlog. apply app_inv_head in Hlog.
  subst extra. simpl in Hquiet. inversion Hquiet as [|r l Hr _]. discriminate.
Qed.

(** ** The directory part of a pattern *)

Lemma break_at_app (c : N) (a b : pystr) :
  forallb (fun x => negb (x =? c)%N) a = true ->
  (b = [] ∨ ∃ b', b = c :: b') ->
  break_at c (a ++ b) = (a, b).
Proof.
  intros Ha Hb. induction a as [|x a IH]; simpl.
  - destruct Hb as [->|[b' ->]]; [reflexivity|].
    simpl. rewrite N.eqb_refl. reflexivity.
  - simpl in Ha. apply andb_prop in Ha as [Hx Ha].
    apply negb_true_iff in Hx. rewrite Hx, (IH Ha). reflexivity.
Qed.

Lemma split_last_sep_app (x name : pystr) :
  forallb (fun c => negb (c =? slash)%N) name = true ->
  (x = [] ∨ ∃ x', x = x' ++ [slash]) ->
  split_last_sep (x ++ name) = (x, name).
Proof.
  intros Hname Hx. unfold split_last_sep.
  rewrite rev_app_distr, break_at_app.
  - rewrite !rev_involutive. reflexivity.
  - rewrite forallb_rev. exact Hname.
  - destruct Hx as [->|[x' ->]]; [left; reflexivity|].
    right. exists (rev x'). rewrite rev_app_distr. reflexivity.
Qed.

Lemma endswith_slash (x : pystr) :
  endswith [slash] x = true <-> ∃ x', x = x' ++ [slash].
Proof.
  unfold endswith. simpl rev. split.
  - intros H. destruct (rev x) as [|c r] eqn:Hr; [discriminate|].
    change ((slash =? c)%N && true = true) in H.
    rewrite andb_true_r in H. apply N.eqb_eq in H. subst c.
    exists (rev r). rewrite <- (rev_involutive x), Hr. reflexivity.
  - intros [x' ->]. rewrite rev_app_distr. reflexivity.
Qed.

(** [glob_base] is the directory part [glob] splits off the pattern the
    program builds: for a pattern without a slash,
    [os.path.split(os.path.join(dir, pattern))] is [glob_base dir] and the
    pattern. *)
Lemma glob_base_split (dir pattern : pystr) :
  forallb (fun c => negb (c =? slash)%N) pattern = true ->
  dirname (path_join dir pattern) = glob_base dir
  ∧ basename (path_join dir pattern) = pattern.
Proof.
  intros Hpat.
  assert (Hstart : startswith [slash] pattern = false).
  { destruct pattern as [|c pattern]; [reflexivity|].
    simpl in Hpat. apply andb_prop in Hpat as [Hc _].
    apply negb_true_iff in Hc.
    change ((slash =? c)%N && true = false).
    rewrite N.eqb_sym, Hc. reflexivity. }
  unfold path_join, dirname, basename, glob_base. rewrite Hstart.
  destruct (bool_decide (dir = []) || endswith [slash] dir) eqn:Hdir.
  - rewrite split_last_sep_app; [auto | exact Hpat|].
    apply orb_prop in Hdir as [Hnil|Hend].
    + left. apply bool_decide_eq_true in Hnil. exact Hnil.
    + right. apply endswith_slash. exact Hend.
  - apply orb_false_elim in Hdir as [Hnil Hend].
    rewrite app_assoc, split_last_sep_app; [|exact Hpat|right; eauto].
    simpl fst. simpl snd. split; [|reflexivity].
    assert (Hall : all_slashes dir = false).
    { apply not_true_is_false. intros Hall.
      apply bool_decide_eq_false in Hnil.
      assert (Hlast : endswith [slash] dir = true); [|congruence].
      unfold endswith, all_slashes in *. rewrite <- forallb_rev in Hall.
      destruct (rev dir) as [|c r] eqn:Hr.
      - apply (f_equal (@rev N)) in Hr. rewrite rev_involutive in Hr.
        contradiction.
      - change ((slash =? c)%N && forallb (N.eqb slash) r = true) in Hall.
        apply andb_prop in Hall as [Hc _].
        change ((slash =? c)%N && true = true).
        rewrite Hc. reflexivity. }
    unfold all_slashes in *. rewrite forallb_app, Hall. simpl.
    unfold rstrip_char. rewrite rev_app_distr. reflexivity.
Qed.

(** ** [config --setup] *)

Lemma break_at_fst (c : N) (s : pystr) :
  forallb (fun x => negb (x =? c)%N) (break_at c s).1 = true.
Proof.
  induction s as [|x s IH]; simpl; [reflexivity|].
  destruct (x =? c)%N eqn:Hx; [reflexivity|].
  destruct (break_at c s) as [a b]. simpl in *. rewrite Hx, IH. reflexivity.
Qed.

Lemma break_at_eq (c : N) (s : pystr) :
  s = (break_at c s).1 ++ (break_at c s).2.
Proof.
  induction s as [|x s IH]; simpl; [reflexivity|].
  destruct (x =? c)%N; [reflexivity|].
  destruct (break_at c s) as [a b]. simpl in *. rewrite <- IH. reflexivity.
Qed.

Lemma split_last_sep_eq (p : pystr) :
  p = (split_last_sep p).1 ++ (split_last_sep p).2.
Proof.
  unfold split_last_sep. pose proof (break_at_eq slash (rev p)) as H.
  destruct (break_at slash (rev p)) as [tail_rev head_rev]. simpl in *.
  rewrite <- rev_app_distr, <- H, rev_involutive. reflexivity.
Qed.

Lemma lstrip_char_length (c : N) (s : pystr) :
  length (lstrip_char c s) <= length s.
Proof.
  induction s as [|x s IH]; simpl; [lia|].
  destruct (x =? c)%N; simpl; lia.
Qed.

Lemma dirname_length (p : pystr) :
  length (dirname p) + length (basename p) <= length p.
Proof.
  unfold dirname, basename. pose proof (split_last_sep_eq p) as H.
  destruct (split_last_sep p) as [h t]. simpl in *.
  apply (f_equal length) in H. rewrite length_app in H.
  destruct (all_slashes h); [lia|].
  unfold rstrip_char. rewrite length_rev.
  pose proof (lstrip_char_length slash (rev h)) as Hl.
  rewrite length_rev in Hl. lia.
Qed.

Lemma basename_nonempty_length (p : pystr) :
  basename p ≠ [] -> length (dirname p) < length p.
Proof.
  intros Hb. pose proof (dirname_length p).
  destruct (basename p); [congruence|]. simpl in *. lia.
Qed.

Lemma isdir_path_exists w p : isdir w p = true -> path_exists w p = true.
Proof. intros H. unfold path_exists. rewrite H. apply orb_true_r. Qed.

(** [mkdir] under [exist_ok=True] where nothing is in the way. *)
Lemma mkdir_exist_ok_run name w :
  name ≠ [] -> isfile w name = false ->
  dirname name = [] ∨ isdir w (dirname name) = true ->
  ∃ w', mkdir_exist_ok name w = (Ret tt, w')
        ∧ w_files w' = w_files w ∧ w_log w' = w_log w
        ∧ isdir w' name = true
        ∧ (∀ d, isdir w d = true -> isdir w' d = true)
        ∧ (∀ d, isdir w' d = true -> isdir w d = true ∨ d = name).
Proof.
  intros Hname Hfile Hparent.
  unfold mkdir_exist_ok, try_except, os_mkdir.
  rewrite bool_decide_eq_false_2 by exact Hname.
  destruct (path_exists w name) eqn:Hex.
  - assert (Hdir : isdir w name = true).
    { unfold path_exists in Hex. rewrite Hfile in Hex. exact Hex. }
    rewrite run_bind. unfold os_path_isdir at 1. rewrite Hdir. simpl.
    exists w. repeat split; auto.
  - assert (Hpar : parent_error w name = None).
    { unfold parent_error. destruct Hparent as [Hp | Hp]; rewrite Hp.
      - rewrite bool_decide_eq_true_2 by reflexivity. reflexivity.
      - rewrite orb_true_r. reflexivity. }
    rewrite Hpar. eexists. split; [reflexivity|].
    unfold isdir. simpl. repeat split.
    + rewrite lookup_insert_eq. apply bool_decide_eq_true_2. eexists; reflexivity.
    + intros d Hd. apply bool_decide_eq_true_1 in Hd.
      apply bool_decide_eq_true_2. apply lookup_insert_is_Some'. right. exact Hd.
    + intros d Hd. apply bool_decide_eq_true_1 in Hd.
      apply lookup_insert_is_Some' in Hd as [->|Hd]; [right; reflexivity|].
      left. apply bool_decide_eq_true_2. exact Hd.
Qed.

Lemma makeable_unfold fuel w name :
  makeable fuel w name =
  bool_decide (basename name ≠ []) && bool_decide (basename name ≠ u ".")
  && negb (isfile w name)
  && (bool_decide (dirname name = [])
      || isdir w (dirname name)
      || (negb (path_exists w (dirname name))
          && match fuel with
             | O => false
             | S fuel' => makeable fuel' w (dirname name)
             end)).
Proof. destruct fuel; reflexivity. Qed.

(** [os.makedirs(name, exist_ok=True)] where the directory can be made: it
    returns, the directory is there, no file has changed, every directory
    that was there still is, and the new ones are [name] or have a shorter
    path. *)
Lemma makedirs_fuel_run fuel : ∀ name w,
  makeable fuel w name = true ->
  ∃ w', makedirs_fuel fuel name w = (Ret tt, w')
        ∧ w_files w' = w_files w ∧ w_log w' = w_log w
        ∧ isdir w' name = true
        ∧ (∀ d, isdir w d = true -> isdir w' d = true)
        ∧ (∀ d, isdir w' d = true -> isdir w d = true ∨ length d <= length name).
Proof.
  induction fuel as [|fuel IH]; intros name w Hmake;
    rewrite makeable_unfold in Hmake;
    apply andb_prop in Hmake as [Hmake Hpar];
    apply andb_prop in Hmake as [Hmake Hfile];
    apply andb_prop in Hmake as [Hbase Hdot];
    apply bool_decide_eq_true_1 in Hbase;
    apply bool_decide_eq_true_1 in Hdot;
    apply negb_true_iff in Hfile;
    assert (Hname : name ≠ []) by (intros ->; apply Hbase; reflexivity).
  - rewrite andb_false_r, orb_false_r in Hpar.
    apply orb_prop in Hpar as [Hpar|Hpar];
      [apply bool_decide_eq_true_1 in Hpar|].
    + destruct (mkdir_exist_ok_run name w Hname Hfile (or_introl Hpar))
        as (w' & Hrun & Hf & Hl & Hd & Hkeep & Hnew).
      exists w'. simpl. repeat split; auto.
      intros d Hd'. destruct (Hnew d Hd') as [? | ->]; [left; assumption | right; lia].
    + destruct (mkdir_exist_ok_run name w Hname Hfile (or_intror Hpar))
        as (w' & Hrun & Hf & Hl & Hd & Hkeep & Hnew).
      exists w'. simpl. repeat split; auto.
      intros d Hd'. destruct (Hnew d Hd') as [? | ->]; [left; assumption | right; lia].
  - cbn [makedirs_fuel]. cbv zeta.
    rewrite (bool_decide_eq_false_2 (basename name = [])) by exact Hbase.
    rewrite run_bind. unfold os_path_exists at 1.
    rewrite (bool_decide_eq_true_2 (basename name ≠ [])) by exact Hbase.
    rewrite andb_true_r.
    destruct (bool_decide (dirname name ≠ []) && negb (path_exists w (dirname name)))
      eqn:Hrec.
    + apply andb_prop in Hrec as [Hhead Hmissing].
      apply bool_decide_eq_true_1 in Hhead. apply negb_true_iff in Hmissing.
      assert (Hsub : makeable fuel w (dirname name) = true).
      { rewrite (bool_decide_eq_false_2 (dirname name = [])) in Hpar by exact Hhead.
        destruct (isdir w (dirname name)) eqn:Hd.
        - apply isdir_path_exists in Hd. congruence.
        - simpl in Hpar. apply andb_prop in Hpar as [_ H]. exact H. }
      destruct (IH (dirname name) w Hsub)
        as (w1 & Hrun1 & Hf1 & Hl1 & Hd1 & Hkeep1 & Hnew1).
      rewrite run_bind. unfold try_except at 1. rewrite Hrun1.
      rewrite (bool_decide_eq_false_2 (basename name = u ".")) by exact Hdot.
      destruct (mkdir_exist_ok_run name w1 Hname) as
        (w2 & Hrun2 & Hf2 & Hl2 & Hd2 & Hkeep2 & Hnew2).
      { unfold isfile. rewrite Hf1. exact Hfile. }
      { right. exact Hd1. }
      exists w2. split; [exact Hrun2|].
      split; [congruence|]. split; [congruence|]. split; [exact Hd2|].
      split; [auto|].
      intros d Hd'. destruct (Hnew2 d Hd') as [Hd''| ->]; [|right; lia].
      destruct (Hnew1 d Hd'') as [?|Hlen]; [left; assumption|].
      right. pose proof (dirname_length name). lia.
    + assert (Hparent : dirname name = [] ∨ isdir w (dirname name) = true).
      { destruct (decide (dirname name = [])) as [He|He]; [left; exact He|].
        right. rewrite (bool_decide_eq_false_2 _ He) in Hpar. simpl in Hpar.
        destruct (isdir w (dirname name)) eqn:Hd; [reflexivity|].
        simpl in Hpar. apply andb_prop in Hpar as [Hmissing _].
        rewrite (bool_decide_eq_true_2 (dirname name ≠ [])) in Hrec by exact He.
        simpl in Hrec. congruence. }
      destruct (mkdir_exist_ok_run name w Hname Hfile Hparent)
        as (w' & Hrun & Hf & Hl & Hd & Hkeep & Hnew).
      exists w'. repeat split; auto.
      intros d Hd'. destruct (Hnew d Hd') as [? | ->]; [left; assumption | right; lia].
Qed.

Lemma default_config_path_split (E : env) :
  dirname (default_config_path E) = glob_base (expanduser E (u "~/.config/handwrite"))
  ∧ basename (default_config_path E) = u "config.yaml".
Proof. apply glob_base_split. reflexivity. Qed.

(** What a run of [config --setup] leaves behind: nothing but a record in
    the log when the path exists; the dump of the default configuration in
    its directory, made if need be, when it does not. *)
Lemma setup_config_run (E : env) (w : world) :
  let path := default_config_path E in
  (path_exists w path = true ->
   setup_config E w
   = (Ret tt, add_log INFO (u "Config file already exists at " ++ path) w))
  ∧ (path_exists w path = false ->
     can_makedirs w (dirname path) = true ->
     ∃ w1,
       setup_config E w = (Ret tt, w1)
       ∧ w_files w1
         = <[path := yaml_dump E (config_with_prompt E setup_prompt)]> (w_files w)
       ∧ isdir w1 (dirname path) = true
       ∧ (∀ d, isdir w d = true -> isdir w1 d = true)).
Proof.
  intros path.
  split; [intros Hex | intros Hex Hmake];
    unfold setup_config, get_config_path;
    rewrite run_bind; unfold mret at 1, M_ret at 1;
    rewrite run_bind; unfold os_path_exists at 1; fold path; rewrite Hex.
  - apply run_log.
  - destruct (makedirs_fuel_run _ _ _ Hmake)
      as (w' & Hrun & Hf & Hl & Hd & Hkeep & Hnew).
    rewrite run_bind. unfold os_makedirs. rewrite Hrun.
    assert (Hbase : basename path ≠ []).
    { unfold path. rewrite (proj2 (default_config_path_split E)). discriminate. }
    assert (Hnodir : isdir w' path = false).
    { destruct (isdir w' path) eqn:Hdir; [|reflexivity].
      destruct (Hnew path Hdir) as [Hold|Hlen].
      - apply isdir_path_exists in Hold. congruence.
      - pose proof (basename_nonempty_length path Hbase). lia. }
    rewrite run_bind. unfold write_file at 1.
    rewrite (bool_decide_eq_false_2 (basename path = [])) by exact Hbase.
    rewrite Hnodir. unfold parent_error. rewrite Hd, orb_true_r.
    rewrite run_log. eexists. split; [reflexivity|].
    unfold isdir in *. rewrite add_log_files, add_log_dirs. simpl.
    rewrite Hf. repeat split; auto.
Qed.

(** C8. [config --setup] is idempotent. Take a file system in which the
    configuration file is there, or is absent and its directory can be
    made (no regular file stands where a directory is needed). The run ends
    without an error, and a second run ends without an error too and writes
    nothing: files and directories are what the first run left, so the
    configuration file is byte for byte the same. A first run that finds the
    file already there writes nothing either; one that does not find it
    leaves the dump of the default configuration at the default path and no
    other file changed. *)
Theorem setup_config_idempotent (E : env) (w : world) :
  let path := default_config_path E in
  (path_exists w path = false -> can_makedirs w (dirname path) = true) ->
  ∃ w1 w2,
    setup_config E w = (Ret tt, w1)
    ∧ setup_config E w1 = (Ret tt, w2)
    ∧ w_files w2 = w_files w1 ∧ w_dirs w2 = w_dirs w1
    ∧ (path_exists w path = true ->
       w_files w1 = w_files w ∧ w_dirs w1 = w_dirs w)
    ∧ (path_exists w path = false ->
       w_files w1 !! path = Some (yaml_dump E (config_with_prompt E setup_prompt))
       ∧ ∀ p, p ≠ path -> w_files w1 !! p = w_files w !! p).
Proof.
  intros path Hmake.
  destruct (setup_config_run E w) as [Hthere Habsent]. fold path in Hthere, Habsent.
  assert (Hsecond : ∀ w1, path_exists w1 path = true ->
            ∃ w2, setup_config E w1 = (Ret tt, w2)
                  ∧ w_files w2 = w_files w1 ∧ w_dirs w2 = w_dirs w1).
  { intros w1 Hex1. destruct (setup_config_run E w1) as [H1 _].
    fold path in H1. rewrite (H1 Hex1). eexists. split; [reflexivity|].
    rewrite add_log_files, add_log_dirs. auto. }
  destruct (path_exists w path) eqn:Hex.
  - destruct (Hsecond (add_log INFO (u "Config file already exists at " ++ path) w))
      as (w2 & Hrun2 & Hf2 & Hd2).
    { rewrite add_log_exists. exact Hex. }
    eexists _, w2. split; [apply Hthere; reflexivity|].
    split; [exact Hrun2|]. split; [exact Hf2|]. split; [exact Hd2|].
    rewrite add_log_files, add_log_dirs. split; [auto | discriminate].
  - destruct (Habsent eq_refl (Hmake eq_refl)) as (w1 & Hrun1 & Hf1 & _ & _).
    destruct (Hsecond w1) as (w2 & Hrun2 & Hf2 & Hd2).
    { unfold path_exists, isfile. rewrite Hf1, lookup_insert_eq.
      rewrite bool_decide_eq_true_2 by (eexists; reflexivity). reflexivity. }
    exists w1, w2. split; [exact Hrun1|]. split; [exact Hrun2|].
    split; [exact Hf2|]. split; [exact Hd2|]. split; [discriminate|].
    intros _. rewrite Hf1. split.
    + apply lookup_insert_eq.
    + intros p Hp. apply lookup_insert_ne. congruence.
Qed.

(** The home directory is there, the configuration directory and the file
    are not: the first run makes both, the second changes nothing. *)
Lemma setup_config_idempotent_witness :
  ∃ w1 w2,
    setup_config demo_env demo_world_home = (Ret tt, w1)
    ∧ setup_config demo_env w1 = (Ret tt, w2)
    ∧ w_files w2 = w_files w1
    ∧ w_files w1 !! u "/home/u/.config/handwrite/config.yaml"
      = Some (u "gemini: ...").
Proof.
  destruct (setup_config_idempotent demo_env demo_world_home)
    as (w1 & w2 & Hrun1 & Hrun2 & Hfiles & _ & _ & Hnew).
  { intros _. vm_compute. reflexivity. }
  exists w1, w2. split; [exact Hrun1|]. split; [exact Hrun2|].
  split; [exact Hfiles|].
  exact (proj1 (Hnew eq_refl)).
Defined.

(** A regular file stands where the directory of the configuration has to
    be: the run raises [FileExistsError] and writes nothing. *)
Lemma setup_config_blocked :
  path_exists demo_world_blocked (default_config_path demo_env) = false
  ∧ can_makedirs demo_world_blocked (dirname (default_config_path demo_env)) = false
  ∧ setup_config demo_env demo_world_blocked
    = (Raise (EEXIST (u "/home/u/.config/handwrite")), demo_world_blocked).
Proof. vm_compute. auto. Qed.

(** * Further properties

    What the code does beyond the statements above: the rendering of a
    document, the files a run touches, the names of the notes, the setup of
    the configuration. *)

(** ** The renderer and the success path of a document *)

Ltac run_step := cbv beta iota delta [mbind M_bind mret M_ret lift raise].

Lemma finish_document_run E input_path out config model_name images text w :
  strip text ≠ [] ->
  finish_document E input_path out config model_name images text w =
  match getitem config (u "template") with
  | inl e => (Raise e, w)
  | inr template =>
      match with_variables template
              (built_in_context E input_path out model_name images text) with
      | inl e => (Raise e, w)
      | inr context =>
          match getitem template (u "path") with
          | inl e => (Raise e, w)
          | inr template_path =>
              match config_encoding config with
              | inl e => (Raise e, w)
              | inr encoding =>
                  match call_render_markdown E template_path
                          (output_path_of out input_path) encoding context w with
                  | (Ret _, w') => (Ret true, w')
                  | (Raise e, w') => (Raise e, w')
                  | (Exit c, w') => (Exit c, w')
                  end
              end
          end
      end
  end.
Proof.
  intros Htext. unfold finish_document.
  rewrite bool_decide_true by exact Htext.
  unfold with_variables, config_encoding.
  fold (output_path_of out input_path).
  fold (built_in_context E input_path out model_name images text).
  generalize (built_in_context E input_path out model_name images text) as context0.
  intros context0.
  destruct (getitem config (u "template")) as [e|template]; [reflexivity|].
  run_step.
  destruct (contains template (u "variables")) as [e|[]]; [reflexivity| |]; run_step.
  - destruct (getitem template (u "variables")); [reflexivity|]; run_step.
    destruct (dict_update _ _); [reflexivity|]; run_step.
    destruct (getitem template (u "path")); [reflexivity|]; run_step.
    destruct (get_default config (u "output") (VDict [])); [reflexivity|]; run_step.
    destruct (get_default _ (u "encoding") _); [reflexivity|]; run_step.
    destruct (call_render_markdown _ _ _ _ _ _) as [[]]; reflexivity.
  - destruct (getitem template (u "path")); [reflexivity|]; run_step.
    destruct (get_default config (u "output") (VDict [])); [reflexivity|]; run_step.
    destruct (get_default _ (u "encoding") _); [reflexivity|]; run_step.
    destruct (call_render_markdown _ _ _ _ _ _) as [[]]; reflexivity.
Qed.

Lemma call_render_markdown_run E template_path output_path encoding context :
  Forall (fun k => context !! k = None) reserved_keys ->
  call_render_markdown E template_path output_path encoding context
  = render_markdown E template_path output_path encoding context.
Proof.
  intros H. unfold reserved_keys in H.
  apply Forall_cons in H as [H1 H]. apply Forall_cons in H as [H2 H].
  apply Forall_cons in H as [H3 _].
  unfold call_render_markdown. rewrite H1, H2, H3.
  rewrite !bool_decide_false by (intros [? ?]; discriminate). reflexivity.
Qed.

Lemma call_render_markdown_reserved E template_path output_path encoding context k w :
  k ∈ reserved_keys -> is_Some (context !! k) ->
  ∃ e, call_render_markdown E template_path output_path encoding context w
       = (Raise e, w).
Proof.
  intros Hk Hsome. unfold call_render_markdown.
  eexists. 
  assert (Hb : bool_decide (is_Some (context !! u "template_path"))
     || bool_decide (is_Some (context !! u "output_path"))
     || bool_decide (is_Some (context !! u "encoding")) = true).
  { unfold reserved_keys in Hk.
    apply elem_of_cons in Hk as [->|Hk]; [rewrite bool_decide_true by done; reflexivity|].
    apply elem_of_cons in Hk as [->|Hk];
      [rewrite (bool_decide_true (is_Some (context !! u "output_path"))) by done;
       rewrite orb_true_r; reflexivity|].
    apply elem_of_cons in Hk as [->|Hk];
      [rewrite (bool_decide_true (is_Some (context !! u "encoding"))) by done;
       rewrite orb_true_r; reflexivity|].
    inversion Hk. }
  rewrite Hb. reflexivity.
Qed.

(** [open(path, 'w')] succeeds where a file can be created: the path names
    no directory and its parent is one. *)
Lemma write_file_run (path : pystr) (data : list N) (w : world) :
  can_create w path = true ->
  write_file path data w = (Ret tt, set_files (<[path := data]> (w_files w)) w).
Proof.
  unfold can_create, write_file, parent_error. intros H.
  apply andb_prop in H as [H Hparent]. apply andb_prop in H as [Hbase Hdir].
  apply bool_decide_eq_true_1 in Hbase. apply negb_true_iff in Hdir.
  rewrite (bool_decide_eq_false_2 _ Hbase), Hdir, Hparent. reflexivity.
Qed.

Lemma render_markdown_success_run E template_path output_path encoding context w
    source content data :
  template_source w template_path = Some source ->
  jinja_render E source context = inr content ->
  text_encode E encoding content = Encoded data ->
  can_create w output_path = true ->
  render_markdown E template_path output_path encoding context w =
  (Ret tt, add_log INFO (u "Successfully created note at " ++ output_path)
             (set_files (<[output_path := data]> (w_files w)) w)).
Proof.
  intros Hs Hj He Hc.
  unfold render_markdown, try_except, as_path, jinja_get_template, write_text.
  unfold template_source in Hs. destruct template_path; try discriminate.
  run_step. destruct (bool_decide _); [discriminate|]. rewrite Hs.
  run_step. rewrite Hj. run_step. rewrite He.
  rewrite (write_file_run _ _ _ Hc). reflexivity.
Qed.


Lemma template_source_files w w' template_path :
  w_files w' = w_files w ->
  template_source w' template_path = template_source w template_path.
Proof. intros H. unfold template_source. rewrite H. reflexivity. Qed.

(** X1. The success path of a document. When the document has pages, the
    configuration gives a model and a prompt, the merged text is not blank,
    the context (the built-in fields with the variables of the template
    section) passes none of the parameter names of [render_markdown], the
    template file is found and renders, the codec encodes the rendered
    text, and a file can be created at the output path (it names no
    directory, and its parent, the output directory, is one),
    [process_single_file] returns [True], the note at
    [join(output_dir, stem + ".md")] holds exactly the encoded rendering, and
    no other file and no directory has changed. *)
Theorem document_success_writes_note (E : env) (input_path out : pystr)
    (config model_name prompt template template_path encoding : pyval)
    (context : gmap pystr pyval) (source : list N) (content : pystr)
    (data : list N) (w : world) :
  images_of E input_path ≠ [] ->
  config_model config = inr model_name ->
  config_prompt config = inr prompt ->
  strip (document_text E input_path model_name prompt) ≠ [] ->
  getitem config (u "template") = inr template ->
  with_variables template
    (built_in_context E input_path out model_name (images_of E input_path)
       (document_text E input_path model_name prompt)) = inr context ->
  Forall (fun k => context !! k = None) reserved_keys ->
  getitem template (u "path") = inr template_path ->
  config_encoding config = inr encoding ->
  template_source w template_path = Some source ->
  jinja_render E source context = inr content ->
  text_encode E encoding content = Encoded data ->
  can_create w (output_path_of out input_path) = true ->
  ∃ w', process_single_file E input_path out config w = (Ret true, w')
        ∧ w_files w' = <[output_path_of out input_path := data]> (w_files w)
        ∧ w_dirs w' = w_dirs w.
Proof.
  intros Himg Hm Hp Htext Ht Hctx Hres Hpath Henc Hsrc Hj He Hc.
  destruct (process_single_file_run E input_path out config w)
    as (w1 & (Hf & Hd & _) & ->).
  rewrite bool_decide_false by exact Himg. rewrite Hm, Hp.
  unfold try_except. rewrite finish_document_run by exact Htext.
  rewrite Ht, Hctx, Hpath, Henc, call_render_markdown_run by exact Hres.
  erewrite render_markdown_success_run;
    [|rewrite (template_source_files w w1) by exact Hf; exact Hsrc|exact Hj|exact He
     |unfold can_create, isdir in *; rewrite Hd; exact Hc].
  eexists. split; [reflexivity|].
  rewrite add_log_files, add_log_dirs. cbn. rewrite Hf. split; [reflexivity|exact Hd].
Qed.

Lemma document_success_writes_note_witness :
  ∃ w', process_single_file demo_env (u "note.png") (u "out") demo_config
          demo_world_template = (Ret true, w')
        ∧ w_files w' = <[output_path_of (u "out") (u "note.png") := u "hello"]>
                         (w_files demo_world_template)
        ∧ w_dirs w' = w_dirs demo_world_template.
Proof.
  eapply (document_success_writes_note demo_env (u "note.png") (u "out") demo_config
            (VStr (u "gemini-1.5-pro")) (VStr (u "Transcribe."))
            _ (VStr (u "/pkg/templates/note_template.md")) (VStr (u "utf-8"))
            _ (u "{{ content }}") (u "hello") (u "hello") demo_world_template).
  - vm_compute. discriminate.
  - reflexivity.
  - reflexivity.
  - vm_compute. discriminate.
  - reflexivity.
  - reflexivity.
  - repeat constructor.
  - reflexivity.
  - reflexivity.
  - vm_compute. reflexivity.
  - vm_compute. reflexivity.
  - reflexivity.
  - vm_compute. reflexivity.
Defined.

(** ** When rendering fails *)

(** X2. A rendering that fails before the note is opened writes nothing.
    When the template path is not a string, or names no file the loader can
    find, or the template fails to render with the context, [render_markdown]
    returns normally and the only change to the world is one ERROR record
    that starts with [Error rendering Markdown: ]: no file is created,
    changed or removed. *)
Theorem render_failure_writes_nothing (E : env) (template_path : pyval)
    (output_path : pystr) (encoding : pyval) (context : gmap pystr pyval)
    (w : world) :
  template_source w template_path = None
  ∨ (∃ source e, template_source w template_path = Some source
                 ∧ jinja_render E source context = inl e) ->
  ∃ msg, render_markdown E template_path output_path encoding context w
         = (Ret tt, add_log ERROR (u "Error rendering Markdown: " ++ msg) w).
Proof.
  unfold template_source, render_markdown, try_except, as_path,
    jinja_get_template.
  intros [Hs|(source & e & Hs & Hj)].
  - destruct template_path; run_step; try (eexists; reflexivity).
    destruct (bool_decide _); [eexists; reflexivity|].
    rewrite Hs. eexists; reflexivity.
  - destruct template_path; try discriminate. run_step.
    destruct (bool_decide _); [discriminate|].
    rewrite Hs. run_step. rewrite Hj. eexists; reflexivity.
Qed.

Lemma render_failure_writes_nothing_witness :
  ∃ msg, render_markdown demo_env (VStr (u "/pkg/templates/note_template.md"))
           (u "out/note.md") (VStr (u "utf-8")) ∅ demo_world
         = (Ret tt, add_log ERROR (u "Error rendering Markdown: " ++ msg)
                      demo_world).
Proof.
  apply (render_failure_writes_nothing demo_env
           (VStr (u "/pkg/templates/note_template.md")) (u "out/note.md")
           (VStr (u "utf-8")) ∅ demo_world).
  left. vm_compute. reflexivity.
Defined.

(** X3. A codec that fails leaves an empty note. Take a template that is
    found and renders, and an output path at which a file can be created
    (it names no directory and its parent is one). When no codec has the
    name the configuration gives ([LookupError]), or the codec cannot encode
    the rendered text ([UnicodeEncodeError]), [render_markdown] still
    returns normally, logs the failure as an ERROR, and the file at the
    output path is empty: [open] has created or truncated it before the
    codec is asked, so a note that was there before has lost its content. *)
Theorem failed_write_leaves_empty_note (E : env) (template_path : pyval)
    (output_path : pystr) (encoding : pyval) (context : gmap pystr pyval)
    (source : list N) (content : pystr) (e : exn) (w : world) :
  template_source w template_path = Some source ->
  jinja_render E source context = inr content ->
  text_encode E encoding content = UnknownCodec e
  ∨ text_encode E encoding content = CannotEncode e ->
  can_create w output_path = true ->
  render_markdown E template_path output_path encoding context w
  = (Ret tt, add_log ERROR (u "Error rendering Markdown: " ++ exn_str e)
               (set_files (<[output_path := []]> (w_files w)) w)).
Proof.
  intros Hs Hj He Hc.
  unfold render_markdown, try_except, as_path, jinja_get_template, write_text.
  unfold template_source in Hs. destruct template_path; try discriminate.
  run_step. destruct (bool_decide _); [discriminate|]. rewrite Hs.
  run_step. rewrite Hj. run_step.
  destruct He as [He|He]; rewrite He; run_step;
    rewrite (write_file_run _ _ _ Hc); reflexivity.
Qed.

Lemma failed_write_leaves_empty_note_witness :
  render_markdown demo_env_ascii (VStr (u "/pkg/templates/note_template.md"))
    (u "out/note.md") (VStr (u "ascii"))
    {[ u "content" := VStr [233%N] ]} demo_world_template
  = (Ret tt,
     add_log ERROR
       (u "Error rendering Markdown: "
        ++ exn_str (ValueError (u "'ascii' codec can't encode character")))
       (set_files (<[u "out/note.md" := []]> (w_files demo_world_template))
          demo_world_template)).
Proof.
  apply (failed_write_leaves_empty_note demo_env_ascii
           (VStr (u "/pkg/templates/note_template.md")) (u "out/note.md")
           (VStr (u "ascii")) {[ u "content" := VStr [233%N] ]}
           (u "{{ content }}") [233%N]).
  - vm_compute. reflexivity.
  - vm_compute. reflexivity.
  - right. reflexivity.
  - vm_compute. reflexivity.
Defined.

(** ** The variables of the template section *)

Lemma foldl_insert_notin (vars : list (pystr * pyval)) :
  ∀ (c : gmap pystr pyval) k,
    k ∉ vars.*1 ->
    foldl (fun c kv => <[kv.1 := kv.2]> c) c vars !! k = c !! k.
Proof.
  induction vars as [|[k' v'] vars IH]; intros c k Hk; simpl; [reflexivity|].
  simpl in Hk. apply not_elem_of_cons in Hk as [Hne Hk].
  rewrite IH by exact Hk. apply lookup_insert_ne. congruence.
Qed.

Lemma foldl_insert_in (vars : list (pystr * pyval)) :
  ∀ (c : gmap pystr pyval) k v,
    NoDup vars.*1 -> (k, v) ∈ vars ->
    foldl (fun c kv => <[kv.1 := kv.2]> c) c vars !! k = Some v.
Proof.
  induction vars as [|[k' v'] vars IH]; intros c k v Hnd Hin.
  - inversion Hin.
  - simpl in Hnd. apply NoDup_cons in Hnd as [Hnotin Hnd].
    apply elem_of_cons in Hin as [Heq|Hin].
    + inversion Heq; subst. simpl. rewrite foldl_insert_notin by exact Hnotin.
      apply lookup_insert_eq.
    + simpl. apply IH; assumption.
Qed.

Lemma foldl_insert_keeps (vars : list (pystr * pyval)) :
  ∀ (c : gmap pystr pyval) k,
    is_Some (c !! k) ->
    is_Some (foldl (fun c kv => <[kv.1 := kv.2]> c) c vars !! k).
Proof.
  induction vars as [|[k' v'] vars IH]; intros c k Hk; simpl; [exact Hk|].
  apply IH. apply lookup_insert_is_Some'. right. exact Hk.
Qed.

Lemma foldl_insert_is_Some (vars : list (pystr * pyval)) :
  ∀ (c : gmap pystr pyval) k,
    k ∈ vars.*1 ->
    is_Some (foldl (fun c kv => <[kv.1 := kv.2]> c) c vars !! k).
Proof.
  induction vars as [|[k' v'] vars IH]; intros c k Hk.
  - inversion Hk.
  - simpl in Hk. apply elem_of_cons in Hk as [->|Hk]; simpl.
    + apply foldl_insert_keeps. rewrite lookup_insert_eq. eexists; reflexivity.
    + apply IH. exact Hk.
Qed.

Lemma with_variables_dict t vars context :
  dict_get (u "variables") t = Some (VDict vars) ->
  with_variables (VDict t) context
  = inr (foldl (fun c kv => <[kv.1 := kv.2]> c) context vars).
Proof.
  intros H. unfold with_variables, contains, getitem. rewrite H.
  rewrite bool_decide_true by (eexists; reflexivity). reflexivity.
Qed.

(** X4. A template variable named like a parameter of [render_markdown]
    fails the document. If the [variables] of the template section are a
    mapping with the key [template_path], [output_path] or [encoding], a
    document that has pages and a text that is not blank returns [False],
    and nothing but the log has changed: no note is written. *)
Theorem reserved_variable_fails_document (E : env) (input_path out : pystr)
    (config model_name prompt : pyval) (t vars : list (pystr * pyval))
    (k : pystr) (w : world) :
  images_of E input_path ≠ [] ->
  config_model config = inr model_name ->
  config_prompt config = inr prompt ->
  strip (document_text E input_path model_name prompt) ≠ [] ->
  getitem config (u "template") = inr (VDict t) ->
  dict_get (u "variables") t = Some (VDict vars) ->
  k ∈ reserved_keys ->
  k ∈ vars.*1 ->
  ∃ w', process_single_file E input_path out config w = (Ret false, w')
        ∧ only_logged w w'.
Proof.
  intros Himg Hm Hp Htext Ht Hvars Hres Hk.
  destruct (process_single_file_run E input_path out config w)
    as (w1 & Hw1 & ->).
  rewrite bool_decide_false by exact Himg. rewrite Hm, Hp.
  unfold try_except. rewrite finish_document_run by exact Htext.
  rewrite Ht, (with_variables_dict _ _ _ Hvars).
  assert (Hfail : ∀ e, document_failed input_path e w1
                       = (Ret false, add_log ERROR
                            (u "Error processing " ++ input_path ++ u ": "
                             ++ exn_str e) w1)) by reflexivity.
  assert (Hdone : ∀ e, ∃ w', document_failed input_path e w1 = (Ret false, w')
                             ∧ only_logged w w').
  { intros e. eexists. split; [apply Hfail|].
    eapply only_logged_trans; [exact Hw1 | apply only_logged_add_log]. }
  destruct (getitem (VDict t) (u "path")) as [e|template_path]; [apply Hdone|].
  destruct (config_encoding config) as [e|encoding]; [apply Hdone|].
  edestruct (call_render_markdown_reserved E template_path
               (output_path_of out input_path) encoding
               (foldl (fun c kv => <[kv.1 := kv.2]> c)
                  (built_in_context E input_path out model_name
                     (images_of E input_path)
                     (document_text E input_path model_name prompt)) vars)
               k w1 Hres) as [e ->].
  { apply foldl_insert_is_Some. exact Hk. }
  apply Hdone.
Qed.

Lemma reserved_variable_fails_document_witness :
  ∃ w', process_single_file demo_env (u "note.png") (u "out")
          demo_config_reserved demo_world_template = (Ret false, w')
        ∧ only_logged demo_world_template w'.
Proof.
  eapply (reserved_variable_fails_document demo_env (u "note.png") (u "out")
            demo_config_reserved (VStr (u "gemini-1.5-pro"))
            (VStr (u "Transcribe.")) _ [(u "encoding", VStr (u "latin-1"))]
            (u "encoding") demo_world_template).
  - vm_compute. discriminate.
  - reflexivity.
  - reflexivity.
  - vm_compute. discriminate.
  - reflexivity.
  - reflexivity.
  - unfold reserved_keys. set_solver.
  - set_solver.
Defined.

(** X5. The variables of the configuration win over the built-in fields.
    When the text is not blank and the template section has a path and a
    mapping of variables (each key once), the context [process_single_file]
    passes to [render_markdown] has, for every variable, the value the
    configuration gives it, also when a built-in field has the same name,
    and for every other key what the built-in context has. *)
Theorem user_variables_override (E : env) (input_path out : pystr)
    (config model_name : pyval) (images : list image) (text : pystr)
    (t vars : list (pystr * pyval)) (template_path encoding : pyval)
    (w : world) :
  strip text ≠ [] ->
  getitem config (u "template") = inr (VDict t) ->
  dict_get (u "variables") t = Some (VDict vars) ->
  NoDup vars.*1 ->
  dict_get (u "path") t = Some template_path ->
  config_encoding config = inr encoding ->
  ∃ context,
    finish_document E input_path out config model_name images text w
    = (call_render_markdown E template_path (output_path_of out input_path)
         encoding context ≫= fun _ => mret true) w
    ∧ (∀ k v, (k, v) ∈ vars -> context !! k = Some v)
    ∧ (∀ k, k ∉ vars.*1 ->
         context !! k
         = built_in_context E input_path out model_name images text !! k).
Proof.
  intros Htext Ht Hvars Hnd Hpath Henc.
  exists (foldl (fun c kv => <[kv.1 := kv.2]> c)
            (built_in_context E input_path out model_name images text) vars).
  split; [|split].
  - rewrite finish_document_run by exact Htext.
    rewrite Ht, (with_variables_dict _ _ _ Hvars). unfold getitem.
    rewrite Hpath, Henc. unfold mbind, M_bind.
    destruct (call_render_markdown _ _ _ _ _ _) as [[]]; reflexivity.
  - intros k v Hin. apply foldl_insert_in; assumption.
  - intros k Hk. apply foldl_insert_notin. exact Hk.
Qed.

Lemma user_variables_override_witness :
  ∃ context,
    finish_document demo_env (u "note.png") (u "out") demo_config_vars
      (VStr (u "gemini-1.5-pro")) [Image [7%N]] (u "hello") demo_world_template
    = (call_render_markdown demo_env (VStr (u "/pkg/templates/note_template.md"))
         (output_path_of (u "out") (u "note.png")) (VStr (u "utf-8")) context
       ≫= fun _ => mret true) demo_world_template
    ∧ (∀ k v, (k, v) ∈ [(u "filename", VStr (u "My note"));
                        (u "author", VStr (u "u"))] -> context !! k = Some v)
    ∧ (∀ k, k ∉ [(u "filename", VStr (u "My note"));
                 (u "author", VStr (u "u"))].*1 ->
         context !! k
         = built_in_context demo_env (u "note.png") (u "out")
             (VStr (u "gemini-1.5-pro")) [Image [7%N]] (u "hello") !! k).
Proof.
  eapply (user_variables_override demo_env (u "note.png") (u "out")
            demo_config_vars (VStr (u "gemini-1.5-pro")) [Image [7%N]]
            (u "hello") _
            [(u "filename", VStr (u "My note")); (u "author", VStr (u "u"))]
            (VStr (u "/pkg/templates/note_template.md")) (VStr (u "utf-8"))
            demo_world_template).
  - vm_compute. discriminate.
  - reflexivity.
  - reflexivity.
  - apply (bool_decide_unpack _). vm_compute. exact I.
  - reflexivity.
  - reflexivity.
Defined.

(** ** The files a run touches *)

Lemma same_outside_refl P w : same_outside P w w.
Proof. split; [reflexivity | intros; reflexivity]. Qed.

Lemma same_outside_trans P w1 w2 w3 :
  same_outside P w1 w2 -> same_outside P w2 w3 -> same_outside P w1 w3.
Proof.
  intros [Hd1 Hf1] [Hd2 Hf2]. split; [congruence|].
  intros p Hp. rewrite Hf2, Hf1 by exact Hp. reflexivity.
Qed.

Lemma same_outside_mono (P Q : pystr -> Prop) w w' :
  (∀ p, P p -> Q p) -> same_outside P w w' -> same_outside Q w w'.
Proof. intros HPQ [Hd Hf]. split; [exact Hd|]. intros p Hp. apply Hf. auto. Qed.

Lemma same_outside_only_logged P w w' : only_logged w w' -> same_outside P w w'.
Proof. intros (Hf & Hd & _). split; [exact Hd|]. intros p _. rewrite Hf. reflexivity. Qed.

Lemma touches_only_same {A} P (m : M A) :
  (∀ w, (m w).2 = w) -> touches_only P m.
Proof. intros H w. rewrite H. apply same_outside_refl. Qed.

Lemma touches_only_lift {A} P (x : exn + A) : touches_only P (lift x).
Proof. destruct x; apply touches_only_same; reflexivity. Qed.

Lemma touches_only_log P l msg : touches_only P (log l msg).
Proof.
  intros w. rewrite run_log. apply same_outside_only_logged, only_logged_add_log.
Qed.

Lemma touches_only_bind {A B} P (m : M A) (f : A -> M B) :
  touches_only P m -> (∀ a, touches_only P (f a)) -> touches_only P (m ≫= f).
Proof.
  intros Hm Hf w. rewrite run_bind. pose proof (Hm w) as H1.
  destruct (m w) as [[a|e|c] w1]; simpl in H1; try exact H1.
  eapply same_outside_trans; [exact H1 | apply Hf].
Qed.

Lemma touches_only_try {A} P (m : M A) (h : exn -> M A) :
  touches_only P m -> (∀ e, touches_only P (h e)) -> touches_only P (try_except m h).
Proof.
  intros Hm Hh w. unfold try_except. pose proof (Hm w) as H1.
  destruct (m w) as [[a|e|c] w1]; simpl in H1; try exact H1.
  eapply same_outside_trans; [exact H1 | apply Hh].
Qed.

Lemma touches_only_mono {A} (P Q : pystr -> Prop) (m : M A) :
  (∀ p, P p -> Q p) -> touches_only P m -> touches_only Q m.
Proof. intros HPQ H w. eapply same_outside_mono; [exact HPQ | apply H]. Qed.

Lemma touches_only_write_file (P : pystr -> Prop) path data :
  P path -> touches_only P (write_file path data).
Proof.
  intros HP w. unfold write_file.
  case_bool_decide; [apply same_outside_refl|].
  destruct (isdir w path); [apply same_outside_refl|].
  destruct (parent_error w path); [apply same_outside_refl|].
  split; [reflexivity|]. intros p Hp. simpl.
  apply lookup_insert_ne. intros ->. exact (Hp HP).
Qed.

Lemma touches_only_render_markdown E (P : pystr -> Prop) template_path
    output_path encoding context :
  P output_path ->
  touches_only P (render_markdown E template_path output_path encoding context).
Proof.
  intros HP.
  unfold render_markdown. apply touches_only_try; [|intros e; apply touches_only_log].
  apply touches_only_bind.
  { unfold as_path. destruct template_path; apply touches_only_same; reflexivity. }
  intros path. apply touches_only_bind.
  { apply touches_only_same. intros w. unfold jinja_get_template.
    case_bool_decide; [reflexivity|]. destruct (w_files w !! _); reflexivity. }
  intros template. apply touches_only_bind; [apply touches_only_lift|].
  intros content. apply touches_only_bind; [|intros _; apply touches_only_log].
  unfold write_text. destruct (text_encode E encoding content).
  - apply touches_only_same; reflexivity.
  - apply touches_only_bind; [apply touches_only_write_file, HP|].
    intros _; apply touches_only_same; reflexivity.
  - apply touches_only_bind; [apply touches_only_write_file, HP|].
    intros _; apply touches_only_same; reflexivity.
  - apply touches_only_write_file, HP.
Qed.

Lemma touches_only_finish_document E (P : pystr -> Prop) input_path out config
    model_name images text :
  P (output_path_of out input_path) ->
  touches_only P (finish_document E input_path out config model_name images text).
Proof.
  intros HP.
  unfold finish_document. case_bool_decide.
  - apply touches_only_bind; [apply touches_only_lift|]. intros template.
    apply touches_only_bind; [apply touches_only_lift|]. intros has_variables.
    apply touches_only_bind.
    { destruct has_variables; [|apply touches_only_same; reflexivity].
      apply touches_only_bind; [apply touches_only_lift|]. intros template'.
      apply touches_only_bind; [apply touches_only_lift|]. intros variables.
      apply touches_only_lift. }
    intros context.
    apply touches_only_bind; [apply touches_only_lift|]. intros template'.
    apply touches_only_bind; [apply touches_only_lift|]. intros template_path.
    apply touches_only_bind; [apply touches_only_lift|]. intros output.
    apply touches_only_bind; [apply touches_only_lift|]. intros encoding.
    apply touches_only_bind; [|intros _; apply touches_only_same; reflexivity].
    unfold call_render_markdown.
    destruct (_ || _ || _); [apply touches_only_same; reflexivity|].
    apply touches_only_render_markdown. exact HP.
  - apply touches_only_bind;
      [apply touches_only_log | intros _; apply touches_only_same; reflexivity].
Qed.

Lemma touches_only_process_single_file E (P : pystr -> Prop) input_path out config :
  P (output_path_of out input_path) ->
  touches_only P (process_single_file E input_path out config).
Proof.
  intros HP w.
  destruct (process_single_file_run E input_path out config w)
    as (w1 & Hw1 & ->).
  apply (same_outside_only_logged P) in Hw1.
  case_bool_decide; [exact Hw1|].
  destruct (config_model config) as [?|model_name];
    destruct (config_prompt config) as [?|prompt]; try exact Hw1.
  eapply same_outside_trans; [exact Hw1|].
  apply (touches_only_try P); [apply touches_only_finish_document, HP|].
  intros e. unfold document_failed.
  apply touches_only_bind;
    [apply touches_only_log | intros _; apply touches_only_same; reflexivity].
Qed.

(** X6. Whatever happens to a document, [process_single_file] changes no
    directory and no file other than the note of the document, at
    [join(output_dir, stem + ".md")]: the input, the configuration and the
    notes of the other documents are as they were. *)
Theorem document_touches_only_its_note (E : env) (input_path out : pystr)
    (config : pyval) (w : world) :
  same_outside (fun p => p = output_path_of out input_path) w
    (process_single_file E input_path out config w).2.
Proof. apply touches_only_process_single_file. reflexivity. Qed.

Lemma basename_no_slash (p : pystr) :
  forallb (fun c => negb (c =? slash)%N) (basename p) = true.
Proof.
  unfold basename, split_last_sep.
  pose proof (break_at_fst slash (rev p)) as H.
  destruct (break_at slash (rev p)) as [tail_rev head_rev]. simpl in *.
  rewrite forallb_rev. exact H.
Qed.

Lemma splitext_fst_no_slash (name : pystr) :
  forallb (fun c => negb (c =? slash)%N) name = true ->
  forallb (fun c => negb (c =? slash)%N) (splitext name).1 = true.
Proof.
  intros Hname. unfold splitext.
  pose proof (split_last_sep_app [] name Hname (or_introl eq_refl)) as Hsplit.
  simpl app in Hsplit. rewrite Hsplit.
  pose proof (break_at_eq dot (rev name)) as Heq.
  destruct (break_at dot (rev name)) as [ext_rev rest_rev]. simpl in Heq.
  destruct rest_rev as [|d stem_rev]; [exact Hname|].
  destruct (forallb (N.eqb dot) stem_rev); [exact Hname|].
  simpl. rewrite forallb_rev.
  rewrite <- forallb_rev, Heq, forallb_app in Hname.
  apply andb_prop in Hname as [_ Hname]. simpl in Hname.
  apply andb_prop in Hname as [_ Hname]. exact Hname.
Qed.

Lemma output_path_of_note_in (out input_path : pystr) :
  note_in out (output_path_of out input_path).
Proof.
  exists (splitext (basename input_path)).1. split; [|reflexivity].
  apply splitext_fst_no_slash, basename_no_slash.
Qed.

Lemma touches_only_process_loop E paths out config : ∀ successful failed,
  touches_only (note_in out) (process_loop E paths out config successful failed).
Proof.
  induction paths as [|path rest IH]; intros successful failed.
  - apply touches_only_same; reflexivity.
  - simpl process_loop.
    apply touches_only_bind; [apply touches_only_log|]. intros _.
    apply touches_only_bind;
      [apply touches_only_process_single_file, output_path_of_note_in|].
    intros [|]; apply IH.
Qed.

Lemma touches_only_load_config E P config_path :
  touches_only P (load_config E config_path).
Proof.
  intros w. rewrite load_config_run.
  destruct (path_exists w config_path).
  - destruct (w_files w !! config_path); [|apply same_outside_refl].
    destruct (yaml_safe_load E l); apply same_outside_refl.
  - apply same_outside_only_logged, only_logged_add_log.
Qed.

Lemma touches_only_configure_genai E P : touches_only P (configure_genai E).
Proof.
  intros w. rewrite configure_genai_run.
  destruct (getenv_api_key E) as [[|c k]|];
    try (apply same_outside_only_logged, only_logged_add_log).
  destruct (genai_configure E (c :: k));
    apply same_outside_only_logged, only_logged_add_log.
Qed.

Lemma touches_only_process_command E a :
  touches_only (note_in (output_dir a)) (process_command E a).
Proof.
  unfold process_command.
  apply touches_only_bind.
  { intros w. rewrite resolve_input_paths_run.
    destruct (isfile w (input_path a)); [apply same_outside_refl|].
    destruct (isdir w (input_path a)).
    - case_bool_decide; [|apply same_outside_refl].
      apply same_outside_only_logged, only_logged_add_log.
    - apply same_outside_only_logged, only_logged_add_log. }
  intros paths. apply touches_only_bind; [apply touches_only_same; reflexivity|].
  intros isd. apply touches_only_bind.
  { destruct isd; [apply touches_only_same; reflexivity|].
    apply touches_only_bind; [apply touches_only_log|].
    intros _. apply touches_only_same; reflexivity. }
  intros _. unfold process_batch. apply touches_only_try.
  - apply touches_only_bind.
    { apply touches_only_same. intros w. rewrite get_config_path_run. reflexivity. }
    intros config_path. apply touches_only_bind; [apply touches_only_load_config|].
    intros cfg. apply touches_only_bind; [apply touches_only_configure_genai|].
    intros _. apply touches_only_bind; [apply touches_only_log|].
    intros _. apply touches_only_bind; [apply touches_only_process_loop|].
    intros counts. apply touches_only_bind; [apply touches_only_log|].
    intros _. case_bool_decide; apply touches_only_same; reflexivity.
  - intros e. apply touches_only_bind; [apply touches_only_log|].
    intros _. apply touches_only_same; reflexivity.
Qed.

(** X7. A [process] run, however it ends, changes no directory and no
    file but notes: a path that is not [join(output_dir, name + ".md")] for a
    [name] without a slash, so not a Markdown file directly inside the output
    directory, holds after the run what it held before. *)
Theorem process_writes_only_notes (E : env) (a : args) (w : world) :
  same_outside (note_in (output_dir a)) w (process_command E a w).2.
Proof. apply touches_only_process_command. Qed.

(** ** Names, extensions and the pages of a document *)

(** A file name [stem.ext] below a directory part [x]: what [splitext]
    makes of it. *)
Lemma splitext_stem_ext (x stem ext : pystr) :
  (x = [] ∨ ∃ x', x = x' ++ [slash]) ->
  forallb (fun c => negb (c =? slash)%N) stem = true ->
  existsb (fun c => negb (c =? dot)%N) stem = true ->
  forallb (fun c => negb (c =? slash)%N && negb (c =? dot)%N) ext = true ->
  splitext (x ++ stem ++ dot :: ext) = (x ++ stem, dot :: ext).
Proof.
  intros Hx Hstem Hdot Hext.
  assert (Hext_slash : forallb (fun c => negb (c =? slash)%N) ext = true).
  { apply forallb_forall. intros c Hc.
    eapply forallb_forall in Hext; [|exact Hc].
    apply andb_prop in Hext as [H _]. exact H. }
  assert (Hext_dot : forallb (fun c => negb (c =? dot)%N) ext = true).
  { apply forallb_forall. intros c Hc.
    eapply forallb_forall in Hext; [|exact Hc].
    apply andb_prop in Hext as [_ H]. exact H. }
  unfold splitext. rewrite split_last_sep_app; [|
    rewrite forallb_app, Hstem; simpl; exact Hext_slash | exact Hx].
  rewrite rev_app_distr. simpl rev. rewrite <- app_assoc. simpl app.
  rewrite break_at_app;
    [|rewrite forallb_rev; exact Hext_dot | right; eexists; reflexivity].
  assert (Hnot : forallb (N.eqb dot) (rev stem) = false).
  { rewrite forallb_rev. apply not_true_is_false. intros Hall.
    apply existsb_exists in Hdot as (c & Hc & Hne).
    eapply forallb_forall in Hall; [|exact Hc].
    apply N.eqb_eq in Hall. subst c. rewrite N.eqb_refl in Hne. discriminate. }
  rewrite Hnot, !rev_involutive. reflexivity.
Qed.

Lemma basename_app (x name : pystr) :
  forallb (fun c => negb (c =? slash)%N) name = true ->
  (x = [] ∨ ∃ x', x = x' ++ [slash]) ->
  basename (x ++ name) = name.
Proof. intros Hn Hx. unfold basename. rewrite split_last_sep_app by assumption. reflexivity. Qed.

(** X8. The note is named after the stem of the input file alone. For an
    input [x/stem.ext], where [stem] has no slash and is not made of dots
    only and [ext] has neither a slash nor a dot, the note is
    [join(output_dir, stem + ".md")]: the directory and the extension of the
    input play no part, so two inputs that differ only in them share one
    note. *)
Theorem note_is_named_after_stem (out x stem ext : pystr) :
  (x = [] ∨ ∃ x', x = x' ++ [slash]) ->
  forallb (fun c => negb (c =? slash)%N) stem = true ->
  existsb (fun c => negb (c =? dot)%N) stem = true ->
  forallb (fun c => negb (c =? slash)%N && negb (c =? dot)%N) ext = true ->
  output_path_of out (x ++ stem ++ dot :: ext) = path_join out (stem ++ u ".md").
Proof.
  intros Hx Hstem Hdot Hext. unfold output_path_of.
  rewrite basename_app; [|
    rewrite forallb_app, Hstem; simpl;
    apply forallb_forall; intros c Hc;
    eapply forallb_forall in Hext; [|exact Hc];
    apply andb_prop in Hext as [H _]; exact H | exact Hx].
  pose proof (splitext_stem_ext [] stem ext (or_introl eq_refl) Hstem Hdot Hext)
    as Hsplit.
  simpl app in Hsplit. rewrite Hsplit. reflexivity.
Qed.

Lemma note_is_named_after_stem_witness :
  output_path_of (u "out") (u "scans/2024/" ++ u "lecture.1" ++ dot :: u "pdf")
  = path_join (u "out") (u "lecture.1" ++ u ".md")
  ∧ output_path_of (u "out") ([] ++ u "lecture.1" ++ dot :: u "PNG")
    = path_join (u "out") (u "lecture.1" ++ u ".md").
Proof.
  split.
  - apply (note_is_named_after_stem (u "out") (u "scans/2024/") (u "lecture.1") (u "pdf"));
      first [reflexivity | right; exists (u "scans/2024"); reflexivity].
  - apply (note_is_named_after_stem (u "out") [] (u "lecture.1") (u "PNG"));
      first [reflexivity | left; reflexivity].
Defined.

(** X9. [get_images] reads the extension whatever its case. For a file
    name [stem.ext] as above: if [.ext] lowers to [.pdf], the file is opened
    as a PDF and its pages are returned; if it lowers to [.png], [.jpg] or
    [.jpeg], it is opened as one image; in both cases a failure to open it is
    logged as an ERROR and gives the empty list. *)
Theorem get_images_ignores_extension_case (E : env) (x stem ext : pystr)
    (w : world) :
  (x = [] ∨ ∃ x', x = x' ++ [slash]) ->
  forallb (fun c => negb (c =? slash)%N) stem = true ->
  existsb (fun c => negb (c =? dot)%N) stem = true ->
  forallb (fun c => negb (c =? slash)%N && negb (c =? dot)%N) ext = true ->
  let path := x ++ stem ++ dot :: ext in
  (lower E (dot :: ext) = u ".pdf" ->
   get_images E path w =
   match fitz_pages E path with
   | inr images => (Ret images, w)
   | inl e => (Ret [], add_log ERROR (u "Error processing PDF: " ++ exn_str e) w)
   end)
  ∧ (lower E (dot :: ext) ∈ [u ".png"; u ".jpg"; u ".jpeg"] ->
     get_images E path w =
     match image_open E path with
     | inr img => (Ret [img], w)
     | inl e => (Ret [], add_log ERROR (u "Error processing image: " ++ exn_str e) w)
     end).
Proof.
  intros Hx Hstem Hdot Hext path. subst path.
  unfold get_images.
  rewrite (splitext_stem_ext x stem ext) by assumption.
  cbn [snd]. split.
  - intros ->. rewrite bool_decide_true by reflexivity.
    destruct (fitz_pages E _); reflexivity.
  - intros Hin. rewrite bool_decide_false.
    + rewrite (bool_decide_true _ Hin).
      destruct (image_open E _); reflexivity.
    + intros Heq. rewrite Heq in Hin.
      repeat (apply elem_of_cons in Hin as [Hin|Hin]; [discriminate|]).
      inversion Hin.
Qed.

Lemma get_images_ignores_extension_case_witness :
  get_images demo_env (u "scans/" ++ u "Lecture" ++ dot :: u "PdF") demo_world
  = (Ret demo_pages, demo_world).
Proof.
  apply (get_images_ignores_extension_case demo_env (u "scans/") (u "Lecture")
           (u "PdF") demo_world);
    first [reflexivity | right; exists (u "scans"); reflexivity].
Defined.

(** X10. [get_images] never raises. It always returns a list, changes no
    file and no directory, logs nothing but ERROR records, and whenever it
    has logged the list it returns is empty. *)
Theorem get_images_never_raises (E : env) (input_path : pystr) (w : world) :
  ∃ images w',
    get_images E input_path w = (Ret images, w')
    ∧ logged_only (is_error) w w'
    ∧ (images = [] ∨ w' = w).
Proof.
  unfold get_images.
  assert (Herr : ∀ msg, logged_only (is_error) w
                          (add_log ERROR msg w)).
  { intros msg. apply logged_only_add_log. reflexivity. }
  repeat case_bool_decide.
  - destruct (fitz_pages E input_path).
    + do 2 eexists. split; [reflexivity|]. split; [apply Herr | left; reflexivity].
    + do 2 eexists. split; [reflexivity|].
      split; [apply logged_only_refl | right; reflexivity].
  - destruct (image_open E input_path).
    + do 2 eexists. split; [reflexivity|]. split; [apply Herr | left; reflexivity].
    + do 2 eexists. split; [reflexivity|].
      split; [apply logged_only_refl | right; reflexivity].
  - do 2 eexists. split; [reflexivity|]. split; [apply Herr | left; reflexivity].
Qed.

(** X11. A document of an unsupported type fails at once. If the
    extension of the input path, lowered as [str.lower] does it, is not
    [.pdf], [.png], [.jpg] or [.jpeg], [process_single_file] returns [False]
    after exactly two ERROR records ([Unsupported file type: ] with that
    lowered extension, then [No images could be extracted from <path>]),
    whatever the configuration holds, and nothing is written. *)
Theorem unsupported_document_fails_early (E : env) (input_path out : pystr)
    (config : pyval) (w : world) :
  lower E (snd (splitext input_path))
  ∉ [u ".pdf"; u ".png"; u ".jpg"; u ".jpeg"] ->
  process_single_file E input_path out config w
  = (Ret false,
     add_log ERROR (u "No images could be extracted from " ++ input_path)
       (add_log ERROR
          (u "Unsupported file type: " ++ lower E (snd (splitext input_path)))
          w)).
Proof.
  intros Hext. apply not_elem_of_cons in Hext as [Hpdf Hext].
  unfold process_single_file, get_images, try_except.
  rewrite (bool_decide_false _ Hpdf), (bool_decide_false _ Hext).
  reflexivity.
Qed.

(** A text file, and a file whose extension is [.É]: the record names the
    extension as [str.lower] gives it, [.é]. *)
Lemma unsupported_document_fails_early_witness :
  process_single_file demo_env (u "notes.txt") (u "out") (VDict []) demo_world
  = (Ret false,
     add_log ERROR (u "No images could be extracted from " ++ u "notes.txt")
       (add_log ERROR (u "Unsupported file type: " ++ u ".txt") demo_world))
  ∧ process_single_file demo_env (u "scan." ++ [201%N]) (u "out") (VDict [])
      demo_world
    = (Ret false,
       add_log ERROR
         (u "No images could be extracted from " ++ u "scan." ++ [201%N])
         (add_log ERROR (u "Unsupported file type: " ++ u "." ++ [233%N])
            demo_world)).
Proof.
  split.
  - apply (unsupported_document_fails_early demo_env (u "notes.txt") (u "out")
             (VDict []) demo_world).
    vm_compute. intros H.
    repeat (apply elem_of_cons in H as [H|H]; [discriminate|]). inversion H.
  - apply (unsupported_document_fails_early demo_env (u "scan." ++ [201%N])
             (u "out") (VDict []) demo_world).
    vm_compute. intros H.
    repeat (apply elem_of_cons in H as [H|H]; [discriminate|]). inversion H.
Defined.

Lemma str_join_blank_inv (sep : pystr) (parts : list pystr) :
  forallb is_space (str_join sep parts) = true ->
  Forall (fun t => forallb is_space t = true) parts.
Proof.
  induction parts as [|t parts IH]; [constructor|].
  destruct parts as [|t' parts]; simpl str_join.
  - intros H. repeat constructor. exact H.
  - intros H. rewrite !forallb_app in H.
    apply andb_prop in H as [Ht H]. apply andb_prop in H as [_ H].
    constructor; [exact Ht | apply IH, H].
Qed.

Lemma warns_not_unit {A} (r : res A) : warns_not (fun w => (r, w)).
Proof. intros w. exists []. simpl. rewrite app_nil_r. auto. Qed.

Lemma warns_not_lift {A} (x : exn + A) : warns_not (lift x).
Proof. destruct x; apply warns_not_unit. Qed.

Lemma warns_not_log l msg : not_warning l = true -> warns_not (log l msg).
Proof.
  intros Hl w. eexists. rewrite run_log. split; [apply add_log_log|].
  destruct (level_enabled l); repeat constructor. exact Hl.
Qed.

Lemma warns_not_bind {A B} (m : M A) (f : A -> M B) :
  warns_not m -> (∀ a, warns_not (f a)) -> warns_not (m ≫= f).
Proof.
  intros Hm Hf w. rewrite run_bind. destruct (Hm w) as (x1 & H1 & F1).
  destruct (m w) as [[a|e|c] w1]; simpl in H1; try solve [exists x1; auto].
  destruct (Hf a w1) as (x2 & H2 & F2). exists (x1 ++ x2).
  rewrite H2, H1, app_assoc. split; [reflexivity | apply Forall_app; auto].
Qed.

(** The same when the first computation is known to return [a]. *)
Lemma warns_not_bind_ret {A B} (m : M A) (f : A -> M B) (a : A) :
  warns_not m -> (∀ w, ∃ w', m w = (Ret a, w')) -> warns_not (f a) ->
  warns_not (m ≫= f).
Proof.
  intros Hm Hrun Hf w. rewrite run_bind. destruct (Hm w) as (x1 & H1 & F1).
  destruct (Hrun w) as (w1 & Hw). rewrite Hw in H1 |- *. simpl in H1.
  destruct (Hf w1) as (x2 & H2 & F2). exists (x1 ++ x2).
  rewrite H2, H1, app_assoc. split; [reflexivity | apply Forall_app; auto].
Qed.

Lemma warns_not_try {A} (m : M A) (h : exn -> M A) :
  warns_not m -> (∀ e, warns_not (h e)) -> warns_not (try_except m h).
Proof.
  intros Hm Hh w. unfold try_except. destruct (Hm w) as (x1 & H1 & F1).
  destruct (m w) as [[a|e|c] w1]; simpl in H1; try solve [exists x1; auto].
  destruct (Hh e w1) as (x2 & H2 & F2). exists (x1 ++ x2).
  rewrite H2, H1, app_assoc. split; [reflexivity | apply Forall_app; auto].
Qed.

Lemma warns_not_write_file path data : warns_not (write_file path data).
Proof.
  intros w. exists []. rewrite app_nil_r. split; [|constructor].
  unfold write_file. case_bool_decide; [reflexivity|].
  destruct (isdir w path); [reflexivity|].
  destruct (parent_error w path); reflexivity.
Qed.

Lemma warns_not_render_markdown E template_path output_path encoding context :
  warns_not (render_markdown E template_path output_path encoding context).
Proof.
  unfold render_markdown.
  apply warns_not_try; [|intros e; apply warns_not_log; reflexivity].
  apply warns_not_bind.
  { unfold as_path. destruct template_path; apply warns_not_unit. }
  intros path. apply warns_not_bind.
  { intros w. unfold jinja_get_template. exists [].
    rewrite app_nil_r. split; [|constructor].
    case_bool_decide; [reflexivity|].
    destruct (w_files w !! _); reflexivity. }
  intros template. apply warns_not_bind; [apply warns_not_lift|].
  intros content.
  apply warns_not_bind; [|intros _; apply warns_not_log; reflexivity].
  unfold write_text. destruct (text_encode E encoding content).
  - apply warns_not_unit.
  - apply warns_not_bind; [apply warns_not_write_file | intros _; apply warns_not_unit].
  - apply warns_not_bind; [apply warns_not_write_file | intros _; apply warns_not_unit].
  - apply warns_not_write_file.
Qed.

(** A text that is not blank goes to the branch that renders: the warning
    of the other branch is not logged. *)
Lemma warns_not_finish_document E input_path out config model_name images text :
  strip text ≠ [] ->
  warns_not (finish_document E input_path out config model_name images text).
Proof.
  intros Htext. unfold finish_document.
  rewrite (bool_decide_eq_true_2 _ Htext).
  apply warns_not_bind; [apply warns_not_lift|]. intros template.
  apply warns_not_bind; [apply warns_not_lift|]. intros has_variables.
  apply warns_not_bind.
  { destruct has_variables; [|apply warns_not_unit].
    apply warns_not_bind; [apply warns_not_lift|]. intros template'.
    apply warns_not_bind; [apply warns_not_lift|]. intros variables.
    apply warns_not_lift. }
  intros context.
  apply warns_not_bind; [apply warns_not_lift|]. intros template'.
  apply warns_not_bind; [apply warns_not_lift|]. intros template_path.
  apply warns_not_bind; [apply warns_not_lift|]. intros output.
  apply warns_not_bind; [apply warns_not_lift|]. intros encoding.
  apply warns_not_bind; [|intros _; apply warns_not_unit].
  unfold call_render_markdown.
  destruct (_ || _ || _); [apply warns_not_unit|].
  apply warns_not_render_markdown.
Qed.

Lemma warns_not_get_images E input_path : warns_not (get_images E input_path).
Proof.
  unfold get_images. repeat case_bool_decide.
  - destruct (fitz_pages E input_path); [|apply warns_not_unit].
    apply warns_not_bind; [apply warns_not_log; reflexivity|].
    intros _; apply warns_not_unit.
  - destruct (image_open E input_path); [|apply warns_not_unit].
    apply warns_not_bind; [apply warns_not_log; reflexivity|].
    intros _; apply warns_not_unit.
  - apply warns_not_bind; [apply warns_not_log; reflexivity|].
    intros _; apply warns_not_unit.
Qed.

Lemma warns_not_submit_pages E model_name prompt images : ∀ i,
  warns_not (submit_pages E i images model_name prompt).
Proof.
  induction images as [|img rest IH]; intros i; simpl.
  - apply warns_not_unit.
  - apply warns_not_bind.
    + unfold executor_submit. destruct (task_fault E i); [apply warns_not_unit|].
      intros w.
      assert (Hocr : warns_not (ocr_image_with_gemini E img model_name prompt)).
      { unfold ocr_image_with_gemini. apply warns_not_try; [apply warns_not_lift|].
        intros e. apply warns_not_bind; [apply warns_not_log; reflexivity|].
        intros _. apply warns_not_unit. }
      destruct (Hocr w) as (x & Hx & Fx).
      destruct (ocr_image_with_gemini E img model_name prompt w) as [r w'].
      exists x. auto.
    + intros f. apply warns_not_bind; [apply IH|]. intros items.
      apply warns_not_unit.
Qed.

Lemma warns_not_list_setitem l i x : warns_not (list_setitem l i x).
Proof. unfold list_setitem. destruct (decide _); apply warns_not_unit. Qed.

Lemma warns_not_collect_results future_to_page order : ∀ page_results,
  warns_not (collect_results future_to_page order page_results).
Proof.
  induction order as [|fut rest IH]; intros page_results; simpl.
  - apply warns_not_unit.
  - apply warns_not_bind; [apply warns_not_lift|]. intros page_index.
    apply warns_not_bind; [|intros results; apply IH].
    apply warns_not_try.
    + apply warns_not_bind; [apply warns_not_unit|]. intros text.
      apply warns_not_bind; [apply warns_not_list_setitem|]. intros results.
      apply warns_not_bind; [apply warns_not_log; reflexivity|].
      intros _. apply warns_not_unit.
    + intros exc.
      apply warns_not_bind; [apply warns_not_list_setitem|]. intros results.
      apply warns_not_bind; [apply warns_not_log; reflexivity|].
      intros _. apply warns_not_unit.
Qed.

Lemma warns_not_dispatch_pages E sched images model_name prompt :
  warns_not (dispatch_pages E sched images model_name prompt).
Proof.
  unfold dispatch_pages.
  apply warns_not_bind; [apply warns_not_submit_pages|]. intros items.
  apply warns_not_collect_results.
Qed.

Lemma warns_not_lift_bind {A B} (x : exn + A) (f : A -> M B) :
  (∀ a, x = inr a -> warns_not (f a)) -> warns_not (lift x ≫= f).
Proof.
  intros Hf. destruct x as [e|a].
  - intros w. exists []. rewrite app_nil_r. split; [reflexivity | constructor].
  - intros w. rewrite run_bind. simpl. apply Hf. reflexivity.
Qed.

(** [process_single_file] logs the warning of a document without text only
    for a document whose merged text is blank. *)
Lemma warns_not_process_single_file E input_path out config :
  (∀ model_name prompt,
     config_model config = inr model_name ->
     config_prompt config = inr prompt ->
     strip (document_text E input_path model_name prompt) ≠ []) ->
  warns_not (process_single_file E input_path out config).
Proof.
  intros Htext. unfold process_single_file.
  apply warns_not_try.
  2:{ intros e. unfold document_failed.
      apply warns_not_bind; [apply warns_not_log; reflexivity|].
      intros _. apply warns_not_unit. }
  apply (warns_not_bind_ret _ _ (images_of E input_path)).
  { apply warns_not_get_images. }
  { intros w. destruct (get_images_run E input_path w) as (w' & Hrun & _).
    exists w'. exact Hrun. }
  case_bool_decide.
  { apply warns_not_bind; [apply warns_not_log; reflexivity|].
    intros _. apply warns_not_unit. }
  apply warns_not_bind; [apply warns_not_log; reflexivity|]. intros _.
  apply warns_not_lift_bind. intros gemini Hg.
  apply warns_not_lift_bind. intros model_name Hm.
  apply warns_not_lift_bind. intros gemini' Hg'.
  rewrite Hg in Hg'. injection Hg' as <-.
  apply warns_not_lift_bind. intros prompt Hp.
  apply (warns_not_bind_ret _ _
           (page_texts E model_name prompt (images_of E input_path))).
  { apply warns_not_dispatch_pages. }
  { intros w.
    destruct (dispatch_pages_run E (completion E input_path)
                (images_of E input_path) model_name prompt w) as (w' & Hrun & _).
    exists w'. exact Hrun. }
  apply warns_not_finish_document. apply Htext.
  - unfold config_model. rewrite Hg. exact Hm.
  - unfold config_prompt. rewrite Hg. exact Hp.
Qed.

(** X12. A page whose transcription failed keeps the document from being
    reported as having no text. If the OCR call of a page raised, or the pool
    failed the task of the page, the merged text of the document is not blank
    (it holds the description of the failure). So, run with a configuration
    that gives this model and this prompt, [process_single_file] logs no
    WARNING: the record [No text extracted from <path>] is not written,
    whatever else happens to the document. *)
Theorem failed_page_is_not_blank (E : env) (input_path out : pystr)
    (config model_name prompt : pyval) (i : nat) (img : image) (e : exn)
    (w : world) :
  images_of E input_path !! i = Some img ->
  task_fault E i = Some e
  ∨ (task_fault E i = None ∧ generate_content E model_name prompt img = inl e) ->
  strip (document_text E input_path model_name prompt) ≠ []
  ∧ (config_model config = inr model_name ->
     config_prompt config = inr prompt ->
     ∃ extra,
       w_log (process_single_file E input_path out config w).2
       = w_log w ++ extra
       ∧ Forall (fun r => log_level r ≠ WARNING) extra).
Proof.
  intros Hi Hfail.
  assert (Htext : strip (document_text E input_path model_name prompt) ≠ []).
  { intros Hblank. apply strip_nil_iff in Hblank.
    unfold document_text in Hblank. apply str_join_blank_inv in Hblank.
    assert (Hpage : page_texts E model_name prompt (images_of E input_path) !! i
                    = Some (page_text E model_name prompt i img)).
    { unfold page_texts. rewrite list_lookup_imap, Hi. reflexivity. }
    eapply Forall_lookup_1 in Hblank; [|exact Hpage].
    unfold page_text, ocr_text, page_error_msg in Hblank.
    destruct Hfail as [Hf|[Hf Hg]]; rewrite Hf in Hblank.
    - rewrite forallb_app in Hblank. apply andb_prop in Hblank as [H _].
      vm_compute in H. discriminate.
    - rewrite Hg, forallb_app in Hblank. apply andb_prop in Hblank as [H _].
      vm_compute in H. discriminate. }
  split; [exact Htext|]. intros Hm Hp.
  destruct (warns_not_process_single_file E input_path out config) with (w := w)
    as (extra & Hlog & Hquiet).
  { intros model_name' prompt' Hm' Hp'.
    rewrite Hm in Hm'. rewrite Hp in Hp'.
    injection Hm' as <-. injection Hp' as <-. exact Htext. }
  exists extra. split; [exact Hlog|].
  eapply Forall_impl; [exact Hquiet|].
  intros r Hr Hw. simpl in Hr. rewrite Hw in Hr. discriminate.
Qed.

Lemma failed_page_is_not_blank_witness :
  strip (document_text demo_env (u "scan.pdf") (VStr (u "m")) (VStr (u "p"))) ≠ []
  ∧ ∃ extra,
      w_log (process_single_file demo_env (u "scan.pdf") (u "out")
               (VDict [(u "gemini",
                        VDict [(u "model", VStr (u "m"));
                               (u "prompt", VStr (u "p"))])])
               demo_world).2
      = w_log demo_world ++ extra
      ∧ Forall (fun r => log_level r ≠ WARNING) extra.
Proof.
  destruct (failed_page_is_not_blank demo_env (u "scan.pdf") (u "out")
              (VDict [(u "gemini",
                       VDict [(u "model", VStr (u "m"));
                              (u "prompt", VStr (u "p"))])])
              (VStr (u "m")) (VStr (u "p")) 1 (Image [2%N])
              (LibraryError (u "quota exceeded")) demo_world)
    as [Htext Hquiet].
  - reflexivity.
  - right. split; reflexivity.
  - split; [exact Htext|]. apply Hquiet; reflexivity.
Defined.

(** ** The batch *)

Lemma count_true_false (oks : list bool) :
  count_true oks + count_false oks = length oks.
Proof.
  unfold count_true, count_false.
  induction oks as [|[|] oks IH]; simpl; lia.
Qed.

(** X13. The loop over the input paths counts every document once. It
    always comes to its end, whatever the documents do, neither counter
    goes down, and together they have grown by the number of input paths. *)
Theorem batch_counts_every_document (E : env) (paths : list pystr)
    (out : pystr) (config : pyval) (successful failed : nat) (w : world) :
  ∃ s f w',
    process_loop E paths out config successful failed w = (Ret (s, f), w')
    ∧ successful <= s ∧ failed <= f
    ∧ s + f = successful + failed + length paths.
Proof.
  rewrite process_loop_run.
  pose proof (document_results_length E paths out config w) as Hlen.
  destruct (document_results E paths out config w) as [oks w'].
  simpl in Hlen. do 3 eexists. split; [reflexivity|].
  pose proof (count_true_false oks). lia.
Qed.

(** X14. A configuration that cannot be loaded, or an OCR client that
    cannot be configured, ends the run before any document. With the input
    and the output directory in place, if [load_config] raises (the file does
    not parse, the path is a directory) or [configure_genai] raises,
    [process_command] exits with status 1; no file has changed and nothing
    but warnings and errors has been logged. *)
Theorem setup_failure_is_fatal (E : env) (a : args) (paths : list pystr)
    (w : world) :
  resolve_input_paths E a w = (Ret paths, w) ->
  isdir w (output_dir a) = true ->
  (∃ e w0, load_config E (config_path_of E (config a) w) w = (Raise e, w0))
  ∨ (∃ cfg w0 e w1,
       load_config E (config_path_of E (config a) w) w = (Ret cfg, w0)
       ∧ configure_genai E w0 = (Raise e, w1)) ->
  ∃ w', process_command E a w = (Exit 1, w') ∧ no_document_started w w'.
Proof.
  intros Hres Hout Hfail.
  rewrite process_command_run, Hres, Hout, process_batch_run.
  destruct (load_config_quiet E (config_path_of E (config a) w) w)
    as (w0 & Hq0 & Hload).
  assert (Hun : ∀ e w1, no_document_started w w1 ->
                        no_document_started w (unexpected e w1)).
  { intros e w1 H. eapply logged_only_trans; [exact H|].
    apply logged_only_add_log. reflexivity. }
  destruct Hfail as [(e & w0' & Hl)|(cfg & w0' & e & w1 & Hl & Hc)].
  - rewrite Hl. eexists. split; [reflexivity|].
    destruct Hload as [(cfg & Hl')|(e' & Hl')]; rewrite Hl in Hl'; [discriminate|].
    injection Hl' as -> ->. apply Hun, Hq0.
  - rewrite Hl, Hc. eexists. split; [reflexivity|].
    destruct Hload as [(cfg' & Hl')|(e' & Hl')]; rewrite Hl in Hl'; [|discriminate].
    injection Hl' as -> ->. apply Hun.
    eapply logged_only_trans; [exact Hq0|].
    rewrite configure_genai_run in Hc.
    destruct (getenv_api_key E) as [[|c k]|].
    + injection Hc as _ <-. apply logged_only_add_log. reflexivity.
    + destruct (genai_configure E (c :: k)); [|discriminate].
      injection Hc as _ <-. apply logged_only_add_log. reflexivity.
    + injection Hc as _ <-. apply logged_only_add_log. reflexivity.
Qed.

Lemma setup_failure_is_fatal_witness :
  ∃ w', process_command demo_env_yaml (Args (u "note.png") (u "out") None)
          demo_world_config = (Exit 1, w')
        ∧ no_document_started demo_world_config w'.
Proof.
  apply (setup_failure_is_fatal demo_env_yaml
           (Args (u "note.png") (u "out") None) [u "note.png"] demo_world_config).
  - reflexivity.
  - reflexivity.
  - left. do 2 eexists. vm_compute. reflexivity.
Defined.

(** X15. A [--config] path that does not exist changes nothing: the
    whole run (its exit status, its log, the files it writes) is the run
    without [--config]. *)
Theorem missing_custom_config_is_ignored (E : env) (input out p : pystr)
    (w : world) :
  path_exists w p = false ->
  process_command E (Args input out (Some p)) w
  = process_command E (Args input out None) w.
Proof.
  intros Hp. rewrite !process_command_run, !resolve_input_paths_run.
  cbn [input_path output_dir].
  assert (Hbatch : ∀ paths,
    process_batch E (Args input out (Some p)) paths w
    = process_batch E (Args input out None) paths w).
  { intros paths. rewrite !process_batch_run. cbn [config output_dir].
    unfold config_path_of. rewrite Hp, andb_false_r. reflexivity. }
  destruct (isfile w input).
  - destruct (isdir w out); [apply Hbatch | reflexivity].
  - destruct (isdir w input); [|reflexivity].
    case_bool_decide; [reflexivity|].
    destruct (isdir w out); [apply Hbatch | reflexivity].
Qed.

Lemma missing_custom_config_is_ignored_witness :
  process_command demo_env (Args (u "note.png") (u "out") (Some (u "mine.yaml")))
    demo_world
  = process_command demo_env (Args (u "note.png") (u "out") None) demo_world.
Proof.
  apply (missing_custom_config_is_ignored demo_env (u "note.png") (u "out")
           (u "mine.yaml") demo_world).
  reflexivity.
Defined.

(** ** The setup of the configuration *)

(** X16. What [config --setup] writes is what the next run loads. If
    nothing is at the default path, the directory of the configuration can
    be made (no regular file stands where a directory is needed), and the
    YAML library reads the default configuration back from its own dump,
    then after [config --setup] the default path is the configuration path
    of a run without [--config], and [load_config] returns from it the
    configuration of the setup, with its long prompt, and logs no
    warning. *)
Theorem setup_then_load_round_trip (E : env) (w : world) :
  path_exists w (default_config_path E) = false ->
  can_makedirs w (dirname (default_config_path E)) = true ->
  yaml_safe_load E (yaml_dump E (config_with_prompt E setup_prompt))
  = inr (config_with_prompt E setup_prompt) ->
  ∃ w1,
    config_command E true w = (Ret tt, w1)
    ∧ get_config_path E None w1 = (Ret (default_config_path E), w1)
    ∧ load_config E (default_config_path E) w1
      = (Ret (config_with_prompt E setup_prompt), w1).
Proof.
  intros Hex Hmake Hyaml. unfold config_command.
  destruct (proj2 (setup_config_run E w) Hex Hmake) as (w1 & Hrun & Hfiles & _).
  exists w1. split; [exact Hrun|]. split; [reflexivity|].
  rewrite load_config_run. unfold path_exists, isfile.
  rewrite Hfiles, lookup_insert_eq, Hyaml.
  rewrite bool_decide_eq_true_2 by (eexists; reflexivity). reflexivity.
Qed.

Lemma setup_then_load_round_trip_witness :
  ∃ w1,
    config_command demo_env_yaml true demo_world_home = (Ret tt, w1)
    ∧ get_config_path demo_env_yaml None w1
      = (Ret (default_config_path demo_env_yaml), w1)
    ∧ load_config demo_env_yaml (default_config_path demo_env_yaml) w1
      = (Ret (config_with_prompt demo_env_yaml setup_prompt), w1).
Proof.
  apply (setup_then_load_round_trip demo_env_yaml demo_world_home).
  - vm_compute. reflexivity.
  - vm_compute. reflexivity.
  - vm_compute. reflexivity.
Defined.

(** X17. [config --setup] creates what is missing. When nothing is at
    the default path and the directory of the configuration can be made (no
    regular file stands where a directory is needed), the run returns
    normally, and afterwards the directory of the configuration file exists,
    the configuration file is a regular file, and every directory that
    existed still does. *)
Theorem setup_creates_config_directory (E : env) (w : world) :
  path_exists w (default_config_path E) = false ->
  can_makedirs w (dirname (default_config_path E)) = true ->
  ∃ w1,
    setup_config E w = (Ret tt, w1)
    ∧ isdir w1 (dirname (default_config_path E)) = true
    ∧ isfile w1 (default_config_path E) = true
    ∧ ∀ d, isdir w d = true -> isdir w1 d = true.
Proof.
  intros Hex Hmake.
  destruct (proj2 (setup_config_run E w) Hex Hmake)
    as (w1 & Hrun & Hfiles & Hdir & Hkeep).
  exists w1. split; [exact Hrun|]. split; [exact Hdir|]. split; [|exact Hkeep].
  unfold isfile. rewrite Hfiles, lookup_insert_eq.
  apply bool_decide_eq_true_2. eexists; reflexivity.
Qed.

Lemma setup_creates_config_directory_witness :
  ∃ w1,
    setup_config demo_env demo_world_home = (Ret tt, w1)
    ∧ isdir w1 (dirname (default_config_path demo_env)) = true
    ∧ isfile w1 (default_config_path demo_env) = true
    ∧ ∀ d, isdir demo_world_home d = true -> isdir w1 d = true.
Proof.
  apply (setup_creates_config_directory demo_env demo_world_home).
  - vm_compute. reflexivity.
  - vm_compute. reflexivity.
Defined.

(** ** Discovery and the extension test *)

Lemma below_plain children rel c :
  below children rel c ->
  forallb plain_names children = true -> forallb plain_names c = true.
Proof.
  induction 1 as [children x sub Hin Hh | children x sub y c Hin Hh Hb IH];
    intros Hplain.
  - eapply forallb_forall in Hplain; [|exact Hin]. simpl in Hplain.
    apply andb_prop in Hplain as [_ H]. exact H.
  - apply IH. eapply forallb_forall in Hplain; [|exact Hin]. simpl in Hplain.
    apply andb_prop in Hplain as [_ H]. exact H.
Qed.

Lemma plain_entry_name c name :
  forallb plain_names c = true -> In name (map entry_name c) ->
  forallb (fun x => negb (x =? slash)%N) name = true.
Proof.
  intros Hplain Hin. apply in_map_iff in Hin as (e & <- & He).
  eapply forallb_forall in Hplain; [|exact He].
  destruct e as [n|n sub]; simpl in *; [exact Hplain|].
  apply andb_prop in Hplain as [H _]. exact H.
Qed.

Lemma path_join_split (a name : pystr) :
  forallb (fun x => negb (x =? slash)%N) name = true ->
  ∃ x, path_join a name = x ++ name ∧ (x = [] ∨ ∃ x', x = x' ++ [slash]).
Proof.
  intros Hname. unfold path_join.
  assert (Hstart : startswith [slash] name = false).
  { destruct name as [|c name]; [reflexivity|]. cbn [forallb] in Hname.
    apply andb_prop in Hname as [Hc _]. cbn [startswith].
    rewrite N.eqb_sym. destruct (c =? slash)%N; [discriminate|reflexivity]. }
  rewrite Hstart. case_bool_decide as Ha.
  - subst a. exists []. split; [reflexivity | left; reflexivity].
  - simpl orb. destruct (endswith [slash] a) eqn:He.
    + exists a. split; [reflexivity|]. right. apply endswith_slash. exact He.
    + exists (a ++ [slash]). split; [rewrite <- app_assoc; reflexivity|].
      right. exists a. reflexivity.
Qed.

Lemma supported_suffix_parts ext :
  In ext supported_suffixes ->
  ∃ e, ext = dot :: e
       ∧ forallb (fun c => negb (c =? slash)%N && negb (c =? dot)%N) e = true
       ∧ ∀ E, lower E (dot :: e) ∈ [u ".pdf"; u ".png"; u ".jpg"; u ".jpeg"].
Proof.
  unfold supported_suffixes. intros Hin. apply list_elem_of_In in Hin.
  repeat (apply elem_of_cons in Hin as [->|Hin];
          [eexists; split; [reflexivity|]; split; [reflexivity|];
           intros E; apply list_elem_of_In; vm_compute; tauto|]).
  inversion Hin.
Qed.

(** X18. Discovery only hands over paths [get_images] accepts. For an
    input directory whose path has no wildcard character and whose tree has
    no slash inside a name, every discovered path has an extension that
    lowers to [.pdf], [.png], [.jpg] or [.jpeg]: no discovered document is
    refused as an unsupported file type. *)
Theorem discovered_paths_are_supported (E : env) (w : world)
    (dir : pystr) (tree : list entry) (p : pystr) :
  has_magic dir = false -> dir ≠ [] -> w_dirs w !! dir = Some tree ->
  forallb plain_names tree = true ->
  In p (find_input_paths E w dir) ->
  lower E (snd (splitext p)) ∈ [u ".pdf"; u ".png"; u ".jpg"; u ".jpeg"].
Proof.
  intros Hmagic Hdir Htree Hplain Hin. unfold find_input_paths in Hin.
  rewrite supported_patterns_suffixes, in_flat_map in Hin.
  destruct Hin as (pat & Hpat & Hin).
  apply in_map_iff in Hpat as (ext & <- & Hext).
  pose proof (supported_suffixes_literal ext Hext) as Hlit.
  assert (Hunder : In p (glob_under E w dir (star :: ext))).
  { apply in_app_or in Hin as [Hin|Hin]; [|assumption].
    eapply glob_in_under; eassumption. }
  apply (glob_under_spec E w dir tree ext p Hmagic Hdir Htree Hlit) in Hunder
    as (rel & c & name & Hu & Hn & Hh & [k Hs] & ->).
  assert (Hc : forallb plain_names c = true).
  { destruct Hu as [[_ ->]|Hb]; [exact Hplain|].
    eapply below_plain; eassumption. }
  pose proof (plain_entry_name c name Hc Hn) as Hname.
  destruct (supported_suffix_parts ext Hext) as (e & -> & He & Hlow).
  subst name.
  destruct (path_join_split (path_join (glob_base dir) rel) (k ++ dot :: e) Hname)
    as (x & -> & Hx).
  rewrite forallb_app in Hname. apply andb_prop in Hname as [Hk _].
  assert (Hstem : existsb (fun c => negb (c =? dot)%N) k = true).
  { destruct k as [|c0 k]; [discriminate Hh|].
    cbn [existsb]. unfold ishidden in Hh. cbn [app startswith] in Hh.
    rewrite N.eqb_sym in Hh. destruct (c0 =? dot)%N; [|reflexivity].
    destruct k; discriminate. }
  rewrite (splitext_stem_ext x k e Hx Hk Hstem He). exact (Hlow E).
Qed.

Lemma discovered_paths_are_supported_witness :
  lower demo_env (snd (splitext (u "notes/a.pdf")))
  ∈ [u ".pdf"; u ".png"; u ".jpg"; u ".jpeg"].
Proof.
  apply (discovered_paths_are_supported demo_env demo_world (u "notes")
           demo_tree (u "notes/a.pdf")).
  - reflexivity.
  - discriminate.
  - vm_compute. reflexivity.
  - reflexivity.
  - vm_compute. tauto.
Defined.
